(** * BackTrack: platform registry, content scanner, text extractor and
      panel geometry controller

    A shallow embedding of [src/constants.ts], [src/hooks/useChatScanner.ts]
    and [src/components/ChatNavigator.tsx], with the properties the
    specification states about them. *)

From Stdlib Require Import List String Ascii Bool Arith NArith ZArith Lia.
From Stdlib Require Import QArith Qminmax Qround Lqa.
From Stdlib Require Import DecimalString.
From Stdlib Require DecimalZ DecimalPos.
Import ListNotations.
Close Scope Q_scope.

Set Implicit Arguments.

(* ================================================================== *)
(** * JavaScript strings *)
(* ================================================================== *)

(** A JavaScript string is a sequence of UTF-16 code units; [length],
    [substring] and [includes] all count code units. *)
Module JsString.

Definition char16 := N.
Definition jsstring := list char16.

(** An ASCII literal of the source. *)
Definition lit (s : string) : jsstring :=
  map N_of_ascii (list_ascii_of_string s).

(** The double-quote character, code unit 34. *)
Definition dquote : jsstring := [34%N].

(** U+1F4F7 (the camera emoji of the source) is the surrogate pair
    D83D DCF7. *)
Definition camera : jsstring := [55357%N; 56567%N].

Definition eqb (a b : jsstring) : bool :=
  if list_eq_dec N.eq_dec a b then true else false.

(** [s.length] *)
Definition length (s : jsstring) : nat := List.length s.

(** [s.substring(0, n)] for [0 <= n]. *)
Definition substring0 (n : nat) (s : jsstring) : jsstring := firstn n s.

Fixpoint startsWith (s m : jsstring) {struct m} : bool :=
  match m, s with
  | [], _ => true
  | _ :: _, [] => false
  | c :: m', d :: s' => N.eqb c d && startsWith s' m'
  end.

(** [s.includes(m)] *)
Fixpoint includes (s m : jsstring) : bool :=
  startsWith s m
  || match s with
     | [] => false
     | _ :: s' => includes s' m
     end.

(** [m] occurs in [s] as a contiguous run of code units. *)
Definition Substring (m s : jsstring) : Prop :=
  exists pre suf, s = pre ++ m ++ suf.

(** WhiteSpace and LineTerminator code units, as [String.prototype.trim]
    strips them. *)
Definition isWhiteSpace (c : char16) : bool :=
  ((9 <=? c) && (c <=? 13) || (c =? 32) || (c =? 160) || (c =? 5760)
   || (8192 <=? c) && (c <=? 8202) || (c =? 8232) || (c =? 8233)
   || (c =? 8239) || (c =? 8287) || (c =? 12288) || (c =? 65279))%N.

Fixpoint trimStart (s : jsstring) : jsstring :=
  match s with
  | [] => []
  | c :: s' => if isWhiteSpace c then trimStart s' else s
  end.

Definition trimEnd (s : jsstring) : jsstring := rev (trimStart (rev s)).

(** [s.trim()] *)
Definition trim (s : jsstring) : jsstring := trimEnd (trimStart s).

(** [String(n)] for an integer [n]. *)
Definition ofZ (z : Z) : jsstring := lit (NilZero.string_of_int (Z.to_int z)).
Definition ofNat (n : nat) : jsstring := ofZ (Z.of_nat n).

(** A string is truthy when it is not empty. *)
Definition truthy (s : jsstring) : bool :=
  match s with [] => false | _ :: _ => true end.

End JsString.
Import JsString.

Declare Scope js_scope.
Delimit Scope js_scope with js.
Notation "a +++ b" := (@app char16 a b)
  (at level 60, right associativity) : js_scope.
Open Scope js_scope.

(* ================================================================== *)
(** * Exceptions *)
(* ================================================================== *)

(** A computation either returns or throws. *)
Inductive result (A : Type) : Type :=
| Ok (a : A)
| Throw (e : jsstring).
Arguments Ok {A} a.
Arguments Throw {A} e.

Definition bind {A B} (r : result A) (k : A -> result B) : result B :=
  match r with
  | Ok a => k a
  | Throw e => Throw e
  end.

Notation "x <- r ;; k" := (bind r (fun x => k))
  (at level 61, r at next level, right associativity).

(* ================================================================== *)
(** * constants.ts *)
(* ================================================================== *)

Inductive Platform : Type := chatgpt | claude | gemini | groq | unknown.

Record PlatformConfig : Type := {
  name : jsstring;
  hostname : jsstring;
  selectors : list jsstring;
  containerSelector : option jsstring
}.

Definition PLATFORM_CONFIGS (p : Platform) : option PlatformConfig :=
  match p with
  | chatgpt => Some {|
      name := lit "ChatGPT";
      hostname := lit "chatgpt.com";
      selectors :=
        [lit "[data-message-author-role=" +++ dquote +++ lit "user"
           +++ dquote +++ lit "]"];
      containerSelector := Some (lit "main") |}
  | claude => Some {|
      name := lit "Claude";
      hostname := lit "claude.ai";
      selectors := [lit ".font-user-message"];
      containerSelector := Some (lit "main") |}
  | gemini => Some {|
      name := lit "Gemini";
      hostname := lit "gemini.google.com";
      selectors :=
        [lit ".user-query-wrapper";
         lit "[data-test-id=" +++ dquote +++ lit "user-query" +++ dquote
           +++ lit "]"];
      containerSelector := Some (lit "main") |}
  | groq => Some {|
      name := lit "Groq";
      hostname := lit "groq.com";
      selectors :=
        [lit ".message-user";
         lit "[data-role=" +++ dquote +++ lit "user" +++ dquote +++ lit "]"];
      containerSelector := Some (lit "main") |}
  | unknown => None
  end.

(** [detectPlatform()], with [window.location.hostname] as its argument. *)
Definition detectPlatform (location_hostname : jsstring) : Platform :=
  if includes location_hostname (lit "chatgpt.com") then chatgpt
  else if includes location_hostname (lit "claude.ai") then claude
  else if includes location_hostname (lit "gemini.google.com") then gemini
  else if includes location_hostname (lit "groq.com") then groq
  else unknown.

Definition getPlatformConfig (platform : Platform) : option PlatformConfig :=
  PLATFORM_CONFIGS platform.

(** ** Platform identification in the specification's words *)

(** The fixed order in which the known platforms are tried. *)
Definition knownPlatforms : list Platform := [chatgpt; claude; gemini; groq].

Definition platformRank (p : Platform) : nat :=
  match p with
  | chatgpt => 0 | claude => 1 | gemini => 2 | groq => 3 | unknown => 4
  end.

(** The platform's [hostnameMatch] occurs in the hostname. *)
Definition matchesHost (location_hostname : jsstring) (p : Platform) : Prop :=
  exists cfg, getPlatformConfig p = Some cfg
              /\ Substring (hostname cfg) location_hostname.

(** First match in the listed order wins; no match gives [unknown]. *)
Definition spec_identify (location_hostname : jsstring) : Platform :=
  match
    find (fun p =>
            match getPlatformConfig p with
            | Some cfg => includes location_hostname (hostname cfg)
            | None => false
            end) knownPlatforms
  with
  | Some p => p
  | None => unknown
  end.

Definition MIN_PANEL_SIZE_width : Q := 250%Q.
Definition MIN_PANEL_SIZE_height : Q := 200%Q.
Definition DEFAULT_PANEL_SIZE_width : Q := 320%Q.
Definition DEFAULT_PANEL_SIZE_height : Q := 400%Q.
Definition MAX_PROMPT_TEXT_LENGTH : nat := 80.
Definition SCAN_DEBOUNCE_DELAY : nat := 300.

(* ================================================================== *)
(** * hooks/useChatScanner.ts: text extraction and scanning *)
(* ================================================================== *)

Module Scanner.

(** What the scanner reads of a DOM element: its text content, the number
    of [img] descendants and the bounding box's top-left corner. *)
Record Element : Type := {
  nodeId : nat;
  textContent : option jsstring;
  imgCount : nat;
  rectTop : Q;
  rectLeft : Q
}.

(** [Math.round]: nearest integer, halves towards plus infinity. *)
Definition Math_round (q : Q) : Z := Qfloor (q + (1 # 2))%Q.

Definition extractText (element : Element) : jsstring :=
  let text :=
    match textContent element with
    | Some t => trim t
    | None => []
    end in
  let imageCount := imgCount element in
  let hasImages := (0 <? imageCount)%nat in
  let text :=
    if negb (truthy text) && hasImages then
      if (imageCount =? 1)%nat then camera +++ lit " [Image]"
      else camera +++ lit " [" +++ ofNat imageCount +++ lit " Images]"
    else if truthy text && hasImages then camera +++ lit " " +++ text
    else text in
  if (MAX_PROMPT_TEXT_LENGTH <? length text)%nat
  then substring0 MAX_PROMPT_TEXT_LENGTH text +++ lit "..."
  else text.

Definition generatePromptId (element : Element) (index : nat) : jsstring :=
  lit "prompt-" +++ ofNat index +++ lit "-"
    +++ ofZ (Math_round (rectTop element)) +++ lit "-"
    +++ ofZ (Math_round (rectLeft element)).

Record ChatPrompt : Type := {
  id : jsstring;
  index : nat;
  text : jsstring;
  element : Element;
  timestamp : Z
}.

(** The document answers selector queries; a query may throw (an invalid
    selector raises a SyntaxError). *)
Record Document : Type := {
  querySelectorAll : jsstring -> result (list Element)
}.

(** The page a scan runs on.  [Date_now k] is the clock reading at the
    scan's [k]-th call of [Date.now()]; the scan calls it once per prompt
    it pushes, so the [k]-th call is made with [index = k]. *)
Record Page : Type := {
  location_hostname : jsstring;
  document : Document;
  Date_now : nat -> Z
}.

(** The body of [elements.forEach], threading the two locals
    [foundPrompts] and [index] of the enclosing function. *)
Fixpoint forEachElement (Date_now : nat -> Z) (elements : list Element)
    (foundPrompts : list ChatPrompt) (index : nat)
    : list ChatPrompt * nat :=
  match elements with
  | [] => (foundPrompts, index)
  | element :: rest =>
      let text := extractText element in
      if negb (truthy text) then
        forEachElement Date_now rest foundPrompts index
      else
        forEachElement Date_now rest
          (foundPrompts ++
             [{| id := generatePromptId element index;
                 index := index + 1;
                 text := text;
                 element := element;
                 timestamp := Date_now index |}])
          (S index)
  end.

(** The loop [for (const selector of config.selectors)] with its
    [break]. *)
Fixpoint forSelectors (doc : Document) (Date_now : nat -> Z)
    (selectors : list jsstring)
    (foundPrompts : list ChatPrompt) (index : nat)
    : result (list ChatPrompt) :=
  match selectors with
  | [] => Ok foundPrompts
  | selector :: rest =>
      elements <- querySelectorAll doc selector ;;
      let '(foundPrompts', index') :=
        forEachElement Date_now elements foundPrompts index in
      if (0 <? List.length foundPrompts')%nat then Ok foundPrompts'
      else forSelectors doc Date_now rest foundPrompts' index'
  end.

Inductive LogEntry : Type :=
| console_log (msg : jsstring)
| console_error (msg : jsstring) (error : jsstring).

(** The hook's state: the three [useState] cells, the
    [scannedElementsRef] cache and the console. *)
Record ScannerState : Type := {
  prompts : list ChatPrompt;
  platform : Platform;
  isScanning : bool;
  scannedElementsRef : list Element;
  console : list LogEntry
}.

Definition setPrompts (v : list ChatPrompt) (s : ScannerState) :=
  {| prompts := v; platform := platform s; isScanning := isScanning s;
     scannedElementsRef := scannedElementsRef s; console := console s |}.
Definition setPlatform (v : Platform) (s : ScannerState) :=
  {| prompts := prompts s; platform := v; isScanning := isScanning s;
     scannedElementsRef := scannedElementsRef s; console := console s |}.
Definition setIsScanning (v : bool) (s : ScannerState) :=
  {| prompts := prompts s; platform := platform s; isScanning := v;
     scannedElementsRef := scannedElementsRef s; console := console s |}.
Definition setScannedElements (v : list Element) (s : ScannerState) :=
  {| prompts := prompts s; platform := platform s;
     isScanning := isScanning s;
     scannedElementsRef := v; console := console s |}.
Definition log (e : LogEntry) (s : ScannerState) :=
  {| prompts := prompts s; platform := platform s;
     isScanning := isScanning s;
     scannedElementsRef := scannedElementsRef s;
     console := console s ++ [e] |}.

(** [try { body } catch (error) { handler } finally { finalizer }].
    The state the handler sees is the state at entry: the blocks of this
    source write state only after their last throwing call. *)
Definition try_catch_finally {S : Type} (s : S)
    (body : S -> result S) (handler : jsstring -> S -> result S)
    (finalizer : S -> S) : result S :=
  match body s with
  | Ok s' => Ok (finalizer s')
  | Throw error =>
      match handler error s with
      | Ok s' => Ok (finalizer s')
      | Throw error' => Throw error'
      end
  end.

Definition initialState : ScannerState :=
  {| prompts := []; platform := unknown; isScanning := false;
     scannedElementsRef := []; console := [] |}.

Definition scanForPrompts (page : Page) (s : ScannerState)
    : result ScannerState :=
  let currentPlatform := detectPlatform (location_hostname page) in
  let s := setPlatform currentPlatform s in
  match getPlatformConfig currentPlatform with
  | None =>
      Ok (log (console_log (lit "[BackTrack] Unknown platform, skipping scan")) s)
  | Some config =>
      let s := setIsScanning true s in
      try_catch_finally s
        (fun s =>
           foundPrompts <-
             forSelectors (document page) (Date_now page)
               (selectors config) [] 0 ;;
           let s := setPrompts foundPrompts s in
           Ok (log (console_log
                      (lit "[BackTrack] Found "
                         +++ ofNat (List.length foundPrompts)
                         +++ lit " prompts on " +++ name config)) s))
        (fun error s =>
           Ok (log (console_error
                      (lit "[BackTrack] Error scanning for prompts:")
                      error) s))
        (setIsScanning false)
  end.

(** [rescan]: replace the cache by a fresh one, then scan. *)
Definition rescan (page : Page) (s : ScannerState) : result ScannerState :=
  scanForPrompts page (setScannedElements [] s).

(** The function handed to [debounce]: what runs when the timer fires. *)
Definition debouncedScanCallback (page : Page) (s : ScannerState)
    : result ScannerState :=
  scanForPrompts page s.

(** ** The result of a scan in closed form *)

(** An element yields a prompt when its extracted text is not empty. *)
Definition productive (e : Element) : bool := truthy (extractText e).

(** The prompt pushed for element [e] when the counter stands at [i]. *)
Definition mkPrompt (Date_now : nat -> Z) (i : nat) (e : Element)
    : ChatPrompt :=
  {| id := generatePromptId e i;
     index := i + 1;
     text := extractText e;
     element := e;
     timestamp := Date_now i |}.

Fixpoint number (Date_now : nat -> Z) (i : nat) (kept : list Element)
    : list ChatPrompt :=
  match kept with
  | [] => []
  | e :: rest => mkPrompt Date_now i e :: number Date_now (S i) rest
  end.

(** The prompts of one selector's matches: the productive elements in query
    order, numbered from 1. *)
Definition promptsOf (Date_now : nat -> Z) (elements : list Element)
    : list ChatPrompt :=
  number Date_now 0 (filter productive elements).

(** A selector that matches nothing productive: its query returns, and
    every element it returns has empty extracted text. *)
Definition barren (doc : Document) (selector : jsstring) : Prop :=
  exists elements,
    querySelectorAll doc selector = Ok elements
    /\ Forall (fun e => productive e = false) elements.

(** A prompt without its timestamp. *)
Definition untimed (p : ChatPrompt) : jsstring * nat * jsstring * Element :=
  (id p, index p, text p, element p).

(** The platform has a configuration. *)
Definition configOf (page : Page) : option PlatformConfig :=
  getPlatformConfig (detectPlatform (location_hostname page)).

(** A prompt's text is not empty and has at most
    [MAX_PROMPT_TEXT_LENGTH + 3] code units. *)
Definition textBounded (p : ChatPrompt) : Prop :=
  (1 <= JsString.length (text p) <= MAX_PROMPT_TEXT_LENGTH + 3)%nat.

(** ** The states of the hook on one page *)



End Scanner.


(* ================================================================== *)
(** * hooks/useChatScanner.ts: debounce and the mutation observer *)
(* ================================================================== *)

Module Debounce.

(** The host's timers on a virtual clock counted in milliseconds: the
    timers still pending, each with its id and the instant it is due. *)
Record Timers : Type := {
  clock : nat;
  nextId : nat;
  pending : list (nat * nat)
}.

Definition setTimeout (delay : nat) (t : Timers) : nat * Timers :=
  (nextId t,
   {| clock := clock t;
      nextId := S (nextId t);
      pending := pending t ++ [(nextId t, clock t + delay)] |}).

Definition clearTimeout (id : nat) (t : Timers) : Timers :=
  {| clock := clock t;
     nextId := nextId t;
     pending := filter (fun p => negb (fst p =? id)) (pending t) |}.

(** The closure [debounce(fn, delay)] returns, in its world: the variable
    [timeoutId] it captures, the timers, and the instants at which [fn]
    (the scan) has run. *)
Record World : Type := {
  timers : Timers;
  timeoutId : option nat;
  scans : list nat
}.

(** Timer ids are positive in a browser: the first id handed out is [1]. *)
Definition initialWorld : World :=
  {| timers := {| clock := 0; nextId := 1; pending := [] |};
     timeoutId := None;
     scans := [] |}.

(** One call of the function that [debounce(fn, delay)] returns, [fn]
    being the scan.  [if (timeoutId)] tests
    truthiness: [null] and [0] both skip the [clearTimeout]. *)
Definition debounce (delay : nat) (w : World) : World :=
  let t1 :=
    match timeoutId w with
    | Some (S _ as id) => clearTimeout id (timers w)
    | _ => timers w
    end in
  let '(id, t2) := setTimeout delay t1 in
  {| timers := t2; timeoutId := Some id; scans := scans w |}.

(** The timer's callback: [fn(...args); timeoutId = null]. *)
Definition timerCallback (w : World) : World :=
  {| timers := timers w;
     timeoutId := None;
     scans := scans w ++ [clock (timers w)] |}.

(** The pending timer due first (the one set first among equals). *)
Fixpoint earliest (l : list (nat * nat)) : option (nat * nat) :=
  match l with
  | [] => None
  | p :: l' =>
      match earliest l' with
      | Some q => if snd q <? snd p then Some q else Some p
      | None => Some p
      end
  end.

(** The event loop up to the instant [upto]: every timer due by then runs,
    in due order, at the instant it is due. *)
Fixpoint runTimers (fuel : nat) (upto : nat) (w : World) : World :=
  match fuel with
  | O => w
  | S fuel' =>
      match earliest (pending (timers w)) with
      | Some (id, due) =>
          if due <=? upto then
            let t := clearTimeout id (timers w) in
            let w1 :=
              {| timers := {| clock := Nat.max (clock t) due;
                              nextId := nextId t;
                              pending := pending t |};
                 timeoutId := timeoutId w;
                 scans := scans w |} in
            runTimers fuel' upto (timerCallback w1)
          else w
      | None => w
      end
  end.

Definition advance (upto : nat) (w : World) : World :=
  let w1 := runTimers (List.length (pending (timers w))) upto w in
  {| timers := {| clock := Nat.max (clock (timers w1)) upto;
                  nextId := nextId (timers w1);
                  pending := pending (timers w1) |};
     timeoutId := timeoutId w1;
     scans := scans w1 |}.

Inductive MutationType : Type := childList | characterData | attributes.

Record MutationRecord : Type := {
  type : MutationType;
  addedNodes_length : nat
}.

Definition hasRelevantChanges (mutations : list MutationRecord) : bool :=
  existsb
    (fun mutation =>
       match type mutation with
       | childList => 0 <? addedNodes_length mutation
       | characterData => true
       | attributes => false
       end)%nat
    mutations.

(** [debouncedScan = debounce(scanForPrompts, SCAN_DEBOUNCE_DELAY)] *)
Definition debouncedScan (w : World) : World :=
  debounce SCAN_DEBOUNCE_DELAY w.

(** The [MutationObserver] callback. *)
Definition observerCallback (mutations : list MutationRecord) (w : World)
    : World :=
  if hasRelevantChanges mutations then debouncedScan w else w.

(** The observer is called back at the given instants, each time with a
    batch of mutation records. *)
Fixpoint deliver (events : list (nat * list MutationRecord)) (w : World)
    : World :=
  match events with
  | [] => w
  | (at_, mutations) :: rest =>
      deliver rest (observerCallback mutations (advance at_ w))
  end.

(** Consecutive instants are in order and less than [gap] apart. *)
Fixpoint closelySpaced (gap : nat) (instants : list nat) : Prop :=
  match instants with
  | a :: ((b :: _) as rest) => a <= b /\ b - a < gap /\ closelySpaced gap rest
  | _ => True
  end.

(** No timer is pending and the clock has not passed the first of the
    given instants. *)
Definition quiescent (w : World) (instants : list nat) : Prop :=
  pending (timers w) = []
  /\ 1 <= nextId (timers w)
  /\ match instants with
     | t :: _ => clock (timers w) <= t
     | [] => True
     end.

(** After a qualifying change at instant [t]: the clock reads [t], exactly
    one timer is pending, it is the one [timeoutId] names, it is due at
    [t + 300], and the scans that have run are still [ran]. *)
Inductive Armed (ran : list nat) (t : nat) (w : World) : Prop :=
| armed (id : nat)
    (Hclock : clock (timers w) = t)
    (Hid : timeoutId w = Some (S id))
    (Hpending : pending (timers w) = [(S id, t + SCAN_DEBOUNCE_DELAY)])
    (Hnext : nextId (timers w) = S (S id))
    (Hscans : scans w = ran).

End Debounce.


(* ================================================================== *)
(** * components/ChatNavigator.tsx: the panel geometry controller *)
(* ================================================================== *)

(** Coordinates and sizes are JavaScript numbers; they are modelled as
    rationals, on which the source's [+], [-], [/ 2], [Math.min] and
    [Math.max] are exact. *)
Module Panel.

Local Open Scope Q_scope.

Record Position : Type := { x : Q; y : Q }.
Record Size : Type := { width : Q; height : Q }.

(** [window.innerWidth] and [window.innerHeight]. *)
Record Window : Type := { innerWidth : Q; innerHeight : Q }.

(** The component's [useState] cells and its refs. *)
Record PanelState : Type := {
  isCollapsed : bool;
  position : Position;
  size : Size;
  isDraggingRef : bool;
  isResizingRef : bool;
  dragStartRef : Position;
  resizeStartRef : Size;
  hasDraggedRef : bool
}.

Definition initialPanel : PanelState :=
  {| isCollapsed := false;
     position := {| x := 20; y := 100 |};
     size := {| width := DEFAULT_PANEL_SIZE_width;
                height := DEFAULT_PANEL_SIZE_height |};
     isDraggingRef := false;
     isResizingRef := false;
     dragStartRef := {| x := 0; y := 0 |};
     resizeStartRef := {| width := 0; height := 0 |};
     hasDraggedRef := false |}.

Definition setIsCollapsed (v : bool) (p : PanelState) : PanelState :=
  {| isCollapsed := v; position := position p; size := size p;
     isDraggingRef := isDraggingRef p; isResizingRef := isResizingRef p;
     dragStartRef := dragStartRef p; resizeStartRef := resizeStartRef p;
     hasDraggedRef := hasDraggedRef p |}.
Definition setPosition (v : Position) (p : PanelState) : PanelState :=
  {| isCollapsed := isCollapsed p; position := v; size := size p;
     isDraggingRef := isDraggingRef p; isResizingRef := isResizingRef p;
     dragStartRef := dragStartRef p; resizeStartRef := resizeStartRef p;
     hasDraggedRef := hasDraggedRef p |}.
Definition setSize (v : Size) (p : PanelState) : PanelState :=
  {| isCollapsed := isCollapsed p; position := position p; size := v;
     isDraggingRef := isDraggingRef p; isResizingRef := isResizingRef p;
     dragStartRef := dragStartRef p; resizeStartRef := resizeStartRef p;
     hasDraggedRef := hasDraggedRef p |}.
Definition setIsDragging (v : bool) (p : PanelState) : PanelState :=
  {| isCollapsed := isCollapsed p; position := position p; size := size p;
     isDraggingRef := v; isResizingRef := isResizingRef p;
     dragStartRef := dragStartRef p; resizeStartRef := resizeStartRef p;
     hasDraggedRef := hasDraggedRef p |}.
Definition setIsResizing (v : bool) (p : PanelState) : PanelState :=
  {| isCollapsed := isCollapsed p; position := position p; size := size p;
     isDraggingRef := isDraggingRef p; isResizingRef := v;
     dragStartRef := dragStartRef p; resizeStartRef := resizeStartRef p;
     hasDraggedRef := hasDraggedRef p |}.
Definition setDragStart (v : Position) (p : PanelState) : PanelState :=
  {| isCollapsed := isCollapsed p; position := position p; size := size p;
     isDraggingRef := isDraggingRef p; isResizingRef := isResizingRef p;
     dragStartRef := v; resizeStartRef := resizeStartRef p;
     hasDraggedRef := hasDraggedRef p |}.
Definition setResizeStart (v : Size) (p : PanelState) : PanelState :=
  {| isCollapsed := isCollapsed p; position := position p; size := size p;
     isDraggingRef := isDraggingRef p; isResizingRef := isResizingRef p;
     dragStartRef := dragStartRef p; resizeStartRef := v;
     hasDraggedRef := hasDraggedRef p |}.
Definition setHasDragged (v : bool) (p : PanelState) : PanelState :=
  {| isCollapsed := isCollapsed p; position := position p; size := size p;
     isDraggingRef := isDraggingRef p; isResizingRef := isResizingRef p;
     dragStartRef := dragStartRef p; resizeStartRef := resizeStartRef p;
     hasDraggedRef := v |}.

Definition handleDragStart (clientX clientY : Q) (p : PanelState)
    : PanelState :=
  let p := setIsDragging true p in
  let p := setHasDragged false p in
  setDragStart {| x := clientX - x (position p);
                  y := clientY - y (position p) |} p.

Definition handleResizeStart (clientX clientY : Q) (p : PanelState)
    : PanelState :=
  let p := setIsResizing true p in
  let p := setDragStart {| x := clientX; y := clientY |} p in
  setResizeStart (size p) p.

Definition handleMouseMove (w : Window) (clientX clientY : Q)
    (p : PanelState) : PanelState :=
  let p1 :=
    if isDraggingRef p then
      let p := setHasDragged true p in
      let newX :=
        Qmax 0
          (Qmin (innerWidth w - (if isCollapsed p then 48 else width (size p)))
                (clientX - x (dragStartRef p))) in
      let newY :=
        Qmax 0
          (Qmin (innerHeight w - 50) (clientY - y (dragStartRef p))) in
      setPosition {| x := newX; y := newY |} p
    else p in
  if isResizingRef p1 then
    let deltaX := clientX - x (dragStartRef p1) in
    let deltaY := clientY - y (dragStartRef p1) in
    let newWidth :=
      Qmax MIN_PANEL_SIZE_width (width (resizeStartRef p1) + deltaX) in
    let newHeight :=
      Qmax MIN_PANEL_SIZE_height (height (resizeStartRef p1) + deltaY) in
    setSize {| width := newWidth; height := newHeight |} p1
  else p1.

Definition handleMouseUp (p : PanelState) : PanelState :=
  setIsResizing false (setIsDragging false p).

Definition handleWindowResize (w : Window) (p : PanelState) : PanelState :=
  let prevPosition := position p in
  let panelWidth := if isCollapsed p then 48 else width (size p) in
  let panelHeight := if isCollapsed p then 48 else height (size p) in
  let maxX := Qmax 0 (innerWidth w - panelWidth) in
  let maxY := Qmax 0 (innerHeight w - panelHeight) in
  let newX := Qmin (x prevPosition) maxX in
  let newY := Qmin (y prevPosition) maxY in
  if negb (Qeq_bool newX (x prevPosition))
     || negb (Qeq_bool newY (y prevPosition))
  then setPosition {| x := Qmax 0 newX; y := Qmax 0 newY |} p
  else p.

Definition handleMinimizedClick (p : PanelState) : PanelState :=
  if negb (hasDraggedRef p) then setIsCollapsed false p else p.

Definition handleCollapse (w : Window) (p : PanelState) : PanelState :=
  let collapsedSize := 48 in
  let padding := 12 in
  let panelCenterX := x (position p) + width (size p) / 2 in
  let panelCenterY := y (position p) + height (size p) / 2 in
  let distanceToLeft := panelCenterX in
  let distanceToRight := innerWidth w - panelCenterX in
  let distanceToTop := panelCenterY in
  let distanceToBottom := innerHeight w - panelCenterY in
  let minDistance :=
    Qmin (Qmin (Qmin distanceToLeft distanceToRight) distanceToTop)
         distanceToBottom in
  let newPosition :=
    if Qeq_bool minDistance distanceToLeft then
      {| x := padding;
         y := Qmax padding
                (Qmin (innerHeight w - collapsedSize - padding)
                      (panelCenterY - collapsedSize / 2)) |}
    else if Qeq_bool minDistance distanceToRight then
      {| x := innerWidth w - collapsedSize - padding;
         y := Qmax padding
                (Qmin (innerHeight w - collapsedSize - padding)
                      (panelCenterY - collapsedSize / 2)) |}
    else if Qeq_bool minDistance distanceToTop then
      {| x := Qmax padding
                (Qmin (innerWidth w - collapsedSize - padding)
                      (panelCenterX - collapsedSize / 2));
         y := padding |}
    else
      {| x := Qmax padding
                (Qmin (innerWidth w - collapsedSize - padding)
                      (panelCenterX - collapsedSize / 2));
         y := innerHeight w - collapsedSize - padding |} in
  setIsCollapsed true (setPosition newPosition p).

(** The effect with dependencies [size.width, size.height, isCollapsed]
    calls [handleWindowResize] whenever a render changed one of them. *)
Definition depsChanged (old new : PanelState) : bool :=
  negb (Qeq_bool (width (size old)) (width (size new)))
  || negb (Qeq_bool (height (size old)) (height (size new)))
  || negb (Bool.eqb (isCollapsed old) (isCollapsed new)).

Definition runEffects (w : Window) (old new : PanelState) : PanelState :=
  if depsChanged old new then handleWindowResize w new else new.

(** The controller with the window it lives in. *)
Record Machine : Type := { window : Window; panel : PanelState }.

(** What the browser delivers.  A mouse-down on the header or on the
    collapsed icon starts a drag; the resize handle and the collapse button
    exist only while the panel is expanded, the minimized button only while
    it is collapsed. *)
Inductive Event : Type :=
| mousedown_drag (clientX clientY : Q)
| mousedown_resize (clientX clientY : Q)
| mousemove (clientX clientY : Q)
| mouseup
| click_minimized
| click_collapse
| window_resize (innerWidth innerHeight : Q).

(** One event: its handler, then the effects of the render it causes. *)
Definition step (m : Machine) (e : Event) : Machine :=
  let w := window m in
  let p := panel m in
  match e with
  | mousedown_drag cx cy =>
      {| window := w; panel := handleDragStart cx cy p |}
  | mousedown_resize cx cy =>
      if isCollapsed p then m
      else {| window := w; panel := handleResizeStart cx cy p |}
  | mousemove cx cy =>
      {| window := w; panel := runEffects w p (handleMouseMove w cx cy p) |}
  | mouseup =>
      {| window := w; panel := handleMouseUp p |}
  | click_minimized =>
      if isCollapsed p
      then {| window := w; panel := runEffects w p (handleMinimizedClick p) |}
      else m
  | click_collapse =>
      if isCollapsed p then m
      else {| window := w; panel := runEffects w p (handleCollapse w p) |}
  | window_resize iw ih =>
      let w' := {| innerWidth := iw; innerHeight := ih |} in
      {| window := w'; panel := handleWindowResize w' p |}
  end.

Definition run (m : Machine) (events : list Event) : Machine :=
  fold_left step events m.

(** The width and height the panel occupies on screen. *)
Definition footprintWidth (p : PanelState) : Q :=
  if isCollapsed p then 48 else width (size p).
Definition footprintHeight (p : PanelState) : Q :=
  if isCollapsed p then 48 else height (size p).

(** Viewport containment, as the specification states it. *)
Definition contained (m : Machine) : Prop :=
  0 <= x (position (panel m))
  /\ x (position (panel m))
     <= innerWidth (window m) - footprintWidth (panel m)
  /\ 0 <= y (position (panel m))
  /\ y (position (panel m))
     <= innerHeight (window m) - footprintHeight (panel m).

(** What a drag keeps: the panel inside the viewport horizontally, and its
    top edge at least 50 pixels above the viewport's bottom. *)
Definition dragContained (m : Machine) : Prop :=
  0 <= x (position (panel m))
  /\ x (position (panel m))
     <= innerWidth (window m) - footprintWidth (panel m)
  /\ 0 <= y (position (panel m))
  /\ y (position (panel m)) <= innerHeight (window m) - 50.

(** The viewport is at least as large as the panel's footprint. *)
Definition fits (m : Machine) : Prop :=
  footprintWidth (panel m) <= innerWidth (window m)
  /\ footprintHeight (panel m) <= innerHeight (window m).

Definition nonNegative (m : Machine) : Prop :=
  0 <= x (position (panel m)) /\ 0 <= y (position (panel m)).

(** What every transition keeps: the panel inside the viewport
    horizontally, and vertically either inside it or, after a drag, with
    its top edge at least 50 pixels above the viewport's bottom. *)
Definition weaklyContained (m : Machine) : Prop :=
  0 <= x (position (panel m))
  /\ x (position (panel m))
     <= innerWidth (window m) - footprintWidth (panel m)
  /\ 0 <= y (position (panel m))
  /\ y (position (panel m))
     <= innerHeight (window m) - Qmin (footprintHeight (panel m)) 50.

(** The viewport holds the panel's footprint and the padded icon. *)
Definition roomy (m : Machine) : Prop :=
  fits m /\ 60 <= innerWidth (window m) /\ 60 <= innerHeight (window m).

(** The transitions that re-clamp the position with the full footprint:
    a window resize, a collapse, an expand, and a resize-move that changes
    the size. *)
Definition settles (m : Machine) (e : Event) : bool :=
  match e with
  | window_resize _ _ => true
  | click_collapse => negb (isCollapsed (panel m))
  | click_minimized =>
      isCollapsed (panel m) && negb (hasDraggedRef (panel m))
  | mousemove cx cy =>
      isResizingRef (panel m)
      && depsChanged (panel m)
           (handleMouseMove (window m) cx cy (panel m))
  | _ => false
  end.

(** A drag-move: a mouse move while dragging. *)
Definition drags (m : Machine) (e : Event) : bool :=
  match e with
  | mousemove _ _ => isDraggingRef (panel m)
  | _ => false
  end.

(** The component as mounted: the effect runs once on mount. *)
Definition mount (w : Window) : Machine :=
  {| window := w; panel := handleWindowResize w initialPanel |}.

(** Every state a run passes through is roomy. *)
Fixpoint roomyAlong (m : Machine) (events : list Event) : Prop :=
  match events with
  | [] => True
  | e :: rest => roomy (step m e) /\ roomyAlong (step m e) rest
  end.

(** The pointer gesture on the collapsed icon: down, any number of moves,
    up, and the click the browser then delivers to the button. *)
Definition gesture (downX downY : Q) (moves : list (Q * Q)) : list Event :=
  mousedown_drag downX downY
  :: map (fun xy => mousemove (fst xy) (snd xy)) moves
  ++ [mouseup; click_minimized].

(** ** The collapse rule in the specification's words *)

Inductive Edge : Type := LeftEdge | RightEdge | TopEdge | BottomEdge.

Definition panelCenter (p : PanelState) : Position :=
  {| x := x (position p) + width (size p) / 2;
     y := y (position p) + height (size p) / 2 |}.

(** The four numbers [handleCollapse] compares, which it names
    [distanceToLeft], [distanceToRight], [distanceToTop] and
    [distanceToBottom]: the offset of each edge from the point, counted
    towards the inside of the viewport, so negative once the point lies
    beyond the edge. *)
Definition offsetTo (w : Window) (c : Position) (e : Edge) : Q :=
  match e with
  | LeftEdge => x c
  | RightEdge => innerWidth w - x c
  | TopEdge => y c
  | BottomEdge => innerHeight w - y c
  end.

(** The edge [handleCollapse] takes: the one with the least offset, the
    first among equals in the order of its tests, left, right, top,
    bottom. *)
Definition chosenEdge (w : Window) (c : Position) : Edge :=
  fold_left
    (fun best e =>
       if Qlt_le_dec (offsetTo w c e) (offsetTo w c best) then e
       else best)
    [RightEdge; TopEdge; BottomEdge] LeftEdge.

(** Distance from a point to a viewport edge: how far the edge lies from
    the point, on whichever side of it. *)
Definition distanceTo (w : Window) (c : Position) (e : Edge) : Q :=
  Qmax (offsetTo w c e) (- offsetTo w c e).

(** The nearest edge; among equally near edges the one that comes first in
    the order left, right, top, bottom: a later edge replaces the current
    choice only when it is strictly nearer. *)
Definition spec_nearestEdge (w : Window) (c : Position) : Edge :=
  fold_left
    (fun best e =>
       if Qlt_le_dec (distanceTo w c e) (distanceTo w c best) then e
       else best)
    [RightEdge; TopEdge; BottomEdge] LeftEdge.

(** The point lies in the viewport. *)
Definition inside (w : Window) (c : Position) : Prop :=
  0 <= x c /\ x c <= innerWidth w /\ 0 <= y c /\ y c <= innerHeight w.

Definition clamp (lo hi v : Q) : Q := Qmax lo (Qmin hi v).

(** Snap to edge [e]: against the edge with padding 12, and along the edge
    the 48-pixel icon centred on [c] and clamped to the viewport minus the
    padding. *)
Definition spec_snap (w : Window) (c : Position) (e : Edge) : Position :=
  match e with
  | LeftEdge =>
      {| x := 12; y := clamp 12 (innerHeight w - 48 - 12) (y c - 48 / 2) |}
  | RightEdge =>
      {| x := innerWidth w - 48 - 12;
         y := clamp 12 (innerHeight w - 48 - 12) (y c - 48 / 2) |}
  | TopEdge =>
      {| x := clamp 12 (innerWidth w - 48 - 12) (x c - 48 / 2); y := 12 |}
  | BottomEdge =>
      {| x := clamp 12 (innerWidth w - 48 - 12) (x c - 48 / 2);
         y := innerHeight w - 48 - 12 |}
  end.

(** [e] comes strictly before [e'] in the priority order. *)
Definition before (e e' : Edge) : Prop :=
  match e, e' with
  | LeftEdge, (RightEdge | TopEdge | BottomEdge) => True
  | RightEdge, (TopEdge | BottomEdge) => True
  | TopEdge, BottomEdge => True
  | _, _ => False
  end.

End Panel.


(* ================================================================== *)
(** * Further notions about the scanner *)
(* ================================================================== *)

Module ScannerNotions.
Import Scanner.

(** [element.textContent?.trim() || ""]: the text the extraction starts
    from. *)
Definition baseText (e : Element) : jsstring :=
  match textContent e with
  | Some t => trim t
  | None => []
  end.

(** The query of the selector throws. *)
Definition throwing (doc : Document) (selector : jsstring) (e : jsstring)
    : Prop :=
  querySelectorAll doc selector = Throw e.

(** The code unit of the hyphen that separates the parts of a prompt id. *)
Definition hyphen : char16 := 45%N.

End ScannerNotions.

(* ================================================================== *)
(** * Further notions about the debounced scan *)
(* ================================================================== *)

Module DebounceNotions.
Import Debounce.

(** The instants are in order, none before [from]. *)
Fixpoint ascending (from : nat) (instants : list nat) : Prop :=
  match instants with
  | [] => True
  | t :: rest => from <= t /\ ascending t rest
  end.

(** The last instant of every burst: an instant ends its burst when the
    next one, if any, comes [gap] or more later. *)
Fixpoint burstEnds (gap : nat) (instants : list nat) : list nat :=
  match instants with
  | [] => []
  | a :: rest =>
      match rest with
      | [] => [a]
      | b :: _ =>
          if b - a <? gap then burstEnds gap rest
          else a :: burstEnds gap rest
      end
  end.

(** No instant comes exactly [gap] after the one before it. *)
Fixpoint noTie (gap : nat) (instants : list nat) : bool :=
  match instants with
  | [] => true
  | a :: rest =>
      match rest with
      | [] => true
      | b :: _ => negb (b =? a + gap) && noTie gap rest
      end
  end.

(** The world between two callbacks: the clock reads [c], the scans in
    [ran] have run, and either no timer is pending ([o] is [None]) or
    exactly one is, set at instant [t] ([o] is [Some t]), due at [t + 300],
    not overdue, and named by [timeoutId]. *)
Inductive Settled (ran : list nat) (c : nat) (w : World)
    : option nat -> Prop :=
| settled_idle
    (Hclock : clock (timers w) = c)
    (Hpending : pending (timers w) = [])
    (Hnext : 1 <= nextId (timers w))
    (Hscans : scans w = ran)
  : Settled ran c w None
| settled_armed (t id : nat)
    (Hclock : clock (timers w) = c)
    (Hdue : c <= t + SCAN_DEBOUNCE_DELAY)
    (Hid : timeoutId w = Some (S id))
    (Hpending : pending (timers w) = [(S id, t + SCAN_DEBOUNCE_DELAY)])
    (Hnext : nextId (timers w) = S (S id))
    (Hscans : scans w = ran)
  : Settled ran c w (Some t).

Definition optcons (o : option nat) (l : list nat) : list nat :=
  match o with
  | Some t => t :: l
  | None => l
  end.

End DebounceNotions.

(* ================================================================== *)
(** * The host of the debouncer, with its freedom *)
(* ================================================================== *)

Module Host.
Import Debounce.

(** What happens between two turns of the event loop: time passes, the
    host runs the callback of a timer, or it calls the observer back with
    a batch of mutation records. *)
Inductive Action : Type :=
| elapse (until : nat)
| fire (id : nat)
| mutate (mutations : list MutationRecord).

Definition setClock (c : nat) (w : World) : World :=
  {| timers := {| clock := c;
                  nextId := nextId (timers w);
                  pending := pending (timers w) |};
     timeoutId := timeoutId w;
     scans := scans w |}.

(** The instant at which the pending timer [id] is due. *)
Definition dueOf (id : nat) (t : Timers) : option nat :=
  match find (fun p => fst p =? id) (pending t) with
  | Some p => Some (snd p)
  | None => None
  end.

(** One action, [None] when the host cannot take it.  The clock does not
    run backwards.  The callback of a timer runs only while the timer is
    pending and not before it is due, which is all that [setTimeout]
    promises: it may run late, and before or after an observer callback of
    the same instant.  The observer may be called back at any time. *)
Definition act (a : Action) (w : World) : option World :=
  match a with
  | elapse until =>
      if clock (timers w) <=? until then Some (setClock until w) else None
  | fire id =>
      match dueOf id (timers w) with
      | Some due =>
          if due <=? clock (timers w) then
            Some (timerCallback
                    {| timers := clearTimeout id (timers w);
                       timeoutId := timeoutId w;
                       scans := scans w |})
          else None
      | None => None
      end
  | mutate mutations => Some (observerCallback mutations w)
  end.

Fixpoint exec (actions : list Action) (w : World) : option World :=
  match actions with
  | [] => Some w
  | a :: rest =>
      match act a w with
      | Some w' => exec rest w'
      | None => None
      end
  end.

(** The instants at which the actions deliver a qualifying batch, the
    clock reading [c] before the first of them. *)
Fixpoint qualifyingAt (actions : list Action) (c : nat) : list nat :=
  match actions with
  | [] => []
  | elapse until :: rest => qualifyingAt rest until
  | fire _ :: rest => qualifyingAt rest c
  | mutate mutations :: rest =>
      if hasRelevantChanges mutations then c :: qualifyingAt rest c
      else qualifyingAt rest c
  end.

(** A host that is on time never lets the clock pass the instant at which
    a pending timer is due. *)
Fixpoint onTime (actions : list Action) (w : World) : bool :=
  match actions with
  | [] => true
  | a :: rest =>
      match a with
      | elapse until =>
          forallb (fun p => until <=? snd p) (pending (timers w))
      | _ => true
      end
      && match act a w with
         | Some w' => onTime rest w'
         | None => true
         end
  end.

(** The timer the debouncer holds: none, or the one set by the qualifying
    batch of instant [t], which [timeoutId] names. *)
Inductive Holding (w : World) : option nat -> Prop :=
| holding_none
    (Hpending : pending (timers w) = [])
    (Hnext : 1 <= nextId (timers w))
  : Holding w None
| holding_one (t id : nat)
    (Hid : timeoutId w = Some (S id))
    (Hpending : pending (timers w) = [(S id, t + SCAN_DEBOUNCE_DELAY)])
    (Hnext : nextId (timers w) = S (S id))
  : Holding w (Some t).

(** The scan of instant [s] ran after a quiet period: some qualifying
    batch came at least 300ms before it, and none in the 300ms before
    it. *)
Definition afterQuiet (q : list nat) (s : nat) : Prop :=
  (exists t, In t q /\ t + SCAN_DEBOUNCE_DELAY <= s)
  /\ Forall (fun t => t + SCAN_DEBOUNCE_DELAY <= s \/ s <= t) q.

(** The batch of instant [t] is followed by a scan at least 300ms
    later. *)
Definition followed (ran : list nat) (t : nat) : Prop :=
  exists s, In s ran /\ t + SCAN_DEBOUNCE_DELAY <= s.

(** What holds between two actions: [q] lists the instants of the
    qualifying batches so far, [ran] the scans run since the start, when
    the scans were [base]. *)
Record Tracked (base q ran : list nat) (o : option nat) (w : World)
    : Prop := {
  tracked_holding : Holding w o;
  tracked_scans : scans w = base ++ ran;
  tracked_batches : Forall (fun t => t <= clock (timers w)) q;
  tracked_ran : Forall (fun s => s <= clock (timers w)) ran;
  tracked_count :
    List.length ran + (match o with Some _ => 1 | None => 0 end)
    <= List.length q;
  tracked_quiet : Forall (afterQuiet q) ran;
  tracked_last :
    match o with
    | None => Forall (followed ran) q
    | Some t => In t q /\ Forall (fun t' => t' <= t) q
    end
}.

End Host.

(* ================================================================== *)
(** * Further notions about the panel *)
(* ================================================================== *)

Module PanelNotions.
Import Panel.
Local Open Scope Q_scope.

(** The size respects the configured minimum. *)
Definition sizeAtLeastMin (p : PanelState) : Prop :=
  MIN_PANEL_SIZE_width <= width (size p)
  /\ MIN_PANEL_SIZE_height <= height (size p).

(** A run of pointer moves. *)
Definition pointerMoves (moves : list (Q * Q)) : list Event :=
  map (fun xy => mousemove (fst xy) (snd xy)) moves.

(** Where a drag-move to the cursor [(cx, cy)] puts the panel, the drag
    having started with the panel at [(px, py)] and the cursor at
    [(ax, ay)]: [handleDragStart] stores the grab offset
    [(ax - px, ay - py)], and [handleMouseMove] subtracts it from the
    cursor and clamps. *)
Definition dragTarget (w : Window) (p : PanelState)
    (px py ax ay cx cy : Q) : Position :=
  {| x := clamp 0 (innerWidth w - footprintWidth p) (cx - (ax - px));
     y := clamp 0 (innerHeight w - 50) (cy - (ay - py)) |}.

(** The size a resize-move to the cursor [(cx, cy)] gives, the resize
    having started at size [s0] with the cursor at [(ax, ay)]. *)
Definition resizeTarget (s0 : Size) (ax ay cx cy : Q) : Size :=
  {| width := Qmax MIN_PANEL_SIZE_width (width s0 + (cx - ax));
     height := Qmax MIN_PANEL_SIZE_height (height s0 + (cy - ay)) |}.

End PanelNotions.

(* ================================================================== *)
(** * components/ChatNavigator.tsx: scrolling to a prompt *)
(* ================================================================== *)

Module Highlight.

(** The two inline style properties the highlight touches. *)
Record Style : Type := { outline : jsstring; transition : jsstring }.

(** The callbacks [scrollToPrompt] hands to [setTimeout], with the values
    their closures capture. *)
Inductive Callback : Type :=
| restoreOutline (el : nat) (originalOutline originalTransition : jsstring)
| restoreTransition (el : nat) (originalTransition : jsstring).

(** The page as the highlight sees it: a virtual clock in milliseconds,
    the inline style of every element (by node id), the elements scrolled
    into view so far, and the pending timers with the instant each is
    due, in the order they were set. *)
Record World : Type := {
  clock : nat;
  style : nat -> Style;
  scrolledIntoView : list nat;
  pending : list (nat * Callback)
}.

Definition setOutline (el : nat) (v : jsstring) (w : World) : World :=
  {| clock := clock w;
     style := fun n =>
       if n =? el then {| outline := v; transition := transition (style w n) |}
       else style w n;
     scrolledIntoView := scrolledIntoView w;
     pending := pending w |}.

Definition setTransition (el : nat) (v : jsstring) (w : World) : World :=
  {| clock := clock w;
     style := fun n =>
       if n =? el then {| outline := outline (style w n); transition := v |}
       else style w n;
     scrolledIntoView := scrolledIntoView w;
     pending := pending w |}.

Definition setTimeout (cb : Callback) (delay : nat) (w : World) : World :=
  {| clock := clock w;
     style := style w;
     scrolledIntoView := scrolledIntoView w;
     pending := pending w ++ [(clock w + delay, cb)] |}.

Definition scrollIntoView (el : nat) (w : World) : World :=
  {| clock := clock w;
     style := style w;
     scrolledIntoView := scrolledIntoView w ++ [el];
     pending := pending w |}.

(** The two delays the source passes to [setTimeout], in milliseconds. *)
Definition HIGHLIGHT_MS : nat := 1500.
Definition RESTORE_MS : nat := 300.

Definition highlightTransition : jsstring := lit "outline 0.3s ease".
Definition highlightOutline : jsstring := lit "2px solid #6366f1".

Definition scrollToPrompt (prompt : Scanner.ChatPrompt) (w : World)
    : World :=
  let el := Scanner.nodeId (Scanner.element prompt) in
  let w := scrollIntoView el w in
  let originalOutline := outline (style w el) in
  let originalTransition := transition (style w el) in
  let w := setTransition el highlightTransition w in
  let w := setOutline el highlightOutline w in
  setTimeout (restoreOutline el originalOutline originalTransition)
    HIGHLIGHT_MS w.

Definition runCallback (cb : Callback) (w : World) : World :=
  match cb with
  | restoreOutline el originalOutline originalTransition =>
      setTimeout (restoreTransition el originalTransition) RESTORE_MS
        (setOutline el originalOutline w)
  | restoreTransition el originalTransition =>
      setTransition el originalTransition w
  end.

(** Take out the pending timer due first (the one set first among
    equals). *)
Fixpoint popEarliest (l : list (nat * Callback))
    : option ((nat * Callback) * list (nat * Callback)) :=
  match l with
  | [] => None
  | p :: l' =>
      match popEarliest l' with
      | Some (q, rest) =>
          if fst q <? fst p then Some (q, p :: rest) else Some (p, l')
      | None => Some (p, l')
      end
  end.

(** The event loop up to the instant [upto]. *)
Fixpoint runTimers (fuel : nat) (upto : nat) (w : World) : World :=
  match fuel with
  | O => w
  | S fuel' =>
      match popEarliest (pending w) with
      | Some ((due, cb), rest) =>
          if due <=? upto then
            runTimers fuel' upto
              (runCallback cb
                 {| clock := Nat.max (clock w) due;
                    style := style w;
                    scrolledIntoView := scrolledIntoView w;
                    pending := rest |})
          else w
      | None => w
      end
  end.

(** Every pending callback sets at most one further timer, so twice the
    number of pending timers bounds the callbacks that can run. *)
Definition advance (upto : nat) (w : World) : World :=
  let w1 := runTimers (2 * List.length (pending w)) upto w in
  {| clock := Nat.max (clock w1) upto;
     style := style w1;
     scrolledIntoView := scrolledIntoView w1;
     pending := pending w1 |}.

End Highlight.

(* ================================================================== *)
(** * content.tsx: mounting the panel *)
(* ================================================================== *)

Module ContentScript.

Definition EXTENSION_ROOT_ID : jsstring := lit "ai-chat-navigator-root".

(** The document as the content script sees it: the ids of the elements
    under [document.body], the React roots rendered so far, and the
    console. *)
Record Dom : Type := {
  elementIds : list jsstring;
  reactRoots : nat;
  console : list jsstring
}.

Definition getElementById (id : jsstring) (dom : Dom) : bool :=
  existsb (JsString.eqb id) (elementIds dom).

Definition console_log (msg : jsstring) (dom : Dom) : Dom :=
  {| elementIds := elementIds dom;
     reactRoots := reactRoots dom;
     console := console dom ++ [msg] |}.

Definition platformName (p : Platform) : jsstring :=
  match p with
  | chatgpt => lit "chatgpt"
  | claude => lit "claude"
  | gemini => lit "gemini"
  | groq => lit "groq"
  | unknown => lit "unknown"
  end.

Definition initBackTrack (location_hostname : jsstring) (dom : Dom) : Dom :=
  if getElementById EXTENSION_ROOT_ID dom then
    console_log (lit "[BackTrack] Already initialized") dom
  else
    match detectPlatform location_hostname with
    | unknown =>
        console_log (lit "[BackTrack] Unknown platform, not initializing")
          dom
    | platform =>
        let dom :=
          console_log (lit "[BackTrack] Initializing on "
                         +++ platformName platform) dom in
        let dom :=
          {| elementIds := elementIds dom ++ [EXTENSION_ROOT_ID];
             reactRoots := S (reactRoots dom);
             console := console dom |} in
        console_log (lit "[BackTrack] Successfully initialized") dom
    end.

(** The attempts the script makes: one after the page is ready, one after
    every change of URL; each sees the hostname of its moment. *)
Definition attempts (hostnames : list jsstring) (dom : Dom) : Dom :=
  fold_left (fun d h => initBackTrack h d) hostnames dom.

(** A platform is detected in the hostname. *)
Definition supported (location_hostname : jsstring) : bool :=
  match detectPlatform location_hostname with
  | unknown => false
  | _ => true
  end.

End ContentScript.

(* ================================================================== *)
(** * scripts/create-icons.cjs: placeholder PNG icons *)
(* ================================================================== *)

Module Icons.
Local Open Scope Z_scope.

(** A Node [Buffer]: a sequence of bytes, each in 0..255. *)
Definition Buffer := list Z.

Definition isByte (b : Z) : Prop := 0 <= b < 256.

(** JavaScript's bitwise operators work on 32-bit integers: [^] and [&]
    give a signed result, [>>>] an unsigned one. *)
Definition toInt32 (z : Z) : Z := (z + 2 ^ 31) mod 2 ^ 32 - 2 ^ 31.
Definition toUint32 (z : Z) : Z := z mod 2 ^ 32.
Definition xor32 (a b : Z) : Z := toInt32 (Z.lxor (toInt32 a) (toInt32 b)).
Definition and32 (a b : Z) : Z := toInt32 (Z.land (toInt32 a) (toInt32 b)).
Definition ushr32 (a n : Z) : Z := Z.shiftr (toUint32 a) n.

(** The body of the inner loop that fills [crc32Table]:
    [c = (c & 1) ? (0xedb88320 ^ (c >>> 1)) : (c >>> 1)]. *)
Definition tableStep (c : Z) : Z :=
  if and32 c 1 =? 0 then ushr32 c 1
  else xor32 3988292384 (ushr32 c 1).

(** [crc32Table[i]], an element of an [Int32Array]. *)
Definition tableEntry (i : Z) : Z := toInt32 (Nat.iter 8 tableStep i).

Definition crc32Table : list Z :=
  map (fun i => tableEntry (Z.of_nat i)) (seq 0 256).

Definition tableAt (i : Z) : Z := nth (Z.to_nat i) crc32Table 0.

(** The body of the loop of [crc32]:
    [crc = crc32Table[(crc ^ buffer[i]) & 0xff] ^ (crc >>> 8)]. *)
Definition crcStep (crc b : Z) : Z :=
  xor32 (tableAt (and32 (xor32 crc b) 255)) (ushr32 crc 8).

Definition crc32 (buffer : Buffer) : Z :=
  let crc := fold_left crcStep buffer (-1) in
  xor32 crc (-1).

(** The buffer [Buffer.alloc(n)] returns: [n] zero bytes. *)
Definition alloc (n : nat) : Buffer := List.repeat 0 n.

(** [Buffer.alloc(size)] for a size computed from the input: a size above
    [buffer.constants.MAX_LENGTH], which depends on the platform, raises
    a RangeError.  The sizes 4, 13 and 0 of the other calls are below it
    on every platform. *)
Definition Buffer_alloc (MAX_LENGTH size : nat) : result Buffer :=
  if (size <=? MAX_LENGTH)%nat then Ok (alloc size)
  else Throw (lit "RangeError").

(** The four bytes of [value], most significant first. *)
Definition bigEndian32 (value : Z) : Buffer :=
  [value / 16777216; (value / 65536) mod 256; (value / 256) mod 256;
   value mod 256].

(** [buf.writeUInt32BE(value, offset)]: a value outside 0..2^32-1 or an
    offset that leaves no room for four bytes raises a RangeError. *)
Definition writeUInt32BE (buf : Buffer) (value : Z) (offset : nat)
    : result Buffer :=
  if (0 <=? value) && (value <? 2 ^ 32)
     && (offset + 4 <=? List.length buf)%nat
  then Ok (firstn offset buf ++ bigEndian32 value ++ skipn (offset + 4) buf)
  else Throw (lit "RangeError").

(** [buf.writeUInt8(value, offset)] *)
Definition writeUInt8 (buf : Buffer) (value : Z) (offset : nat)
    : result Buffer :=
  if (0 <=? value) && (value <? 256) && (offset + 1 <=? List.length buf)%nat
  then Ok (firstn offset buf ++ [value] ++ skipn (offset + 1) buf)
  else Throw (lit "RangeError").

(** [buf[i] = v]: the value is taken modulo 256, an index outside the
    buffer is ignored. *)
Definition setByte (buf : Buffer) (i : nat) (v : Z) : Buffer :=
  if (i <? List.length buf)%nat
  then firstn i buf ++ (v mod 256) :: skipn (S i) buf
  else buf.

(** [Buffer.from(type)] for an ASCII string. *)
Definition bufferFrom (type : string) : Buffer := map Z.of_N (lit type).

Definition createChunk (type : string) (data : Buffer) : result Buffer :=
  length <- writeUInt32BE (alloc 4) (Z.of_nat (List.length data)) 0 ;;
  let typeBuffer := bufferFrom type in
  let crc := crc32 (typeBuffer ++ data) in
  crcBuffer <- writeUInt32BE (alloc 4) (ushr32 crc 0) 0 ;;
  Ok (length ++ typeBuffer ++ data ++ crcBuffer).

(** The body of the loop over [y], with the loop over [x] inside. *)
Definition fillRow (width : nat) (rawData : Buffer) (y : nat) : Buffer :=
  let rawData := setByte rawData (y * (width * 3 + 1)) 0 in
  fold_left
    (fun rawData x =>
       let offset := (y * (width * 3 + 1) + 1 + x * 3)%nat in
       let rawData := setByte rawData offset 79 in
       let rawData := setByte rawData (offset + 1) 70 in
       setByte rawData (offset + 2) 229)
    (seq 0 width) rawData.

(** The loop over [y]. *)
Definition fillLoops (width height : nat) (rawData : Buffer) : Buffer :=
  fold_left (fillRow width) (seq 0 height) rawData.

(** [rawData] after the two loops, once allocated. *)
Definition fillImage (width height : nat) : Buffer :=
  fillLoops width height (alloc ((width * 3 + 1) * height)).

Definition signature : Buffer := [137; 80; 78; 71; 13; 10; 26; 10].

(** [createSimplePNG(size)], with [buffer.constants.MAX_LENGTH] and
    [zlib.deflateSync] as parameters. *)
Definition createSimplePNG (MAX_LENGTH : nat)
    (deflateSync : Buffer -> Buffer) (size : nat) : result Buffer :=
  let width := size in
  let height := size in
  let ihdrData := alloc 13 in
  ihdrData <- writeUInt32BE ihdrData (Z.of_nat width) 0 ;;
  ihdrData <- writeUInt32BE ihdrData (Z.of_nat height) 4 ;;
  ihdrData <- writeUInt8 ihdrData 8 8 ;;
  ihdrData <- writeUInt8 ihdrData 2 9 ;;
  ihdrData <- writeUInt8 ihdrData 0 10 ;;
  ihdrData <- writeUInt8 ihdrData 0 11 ;;
  ihdrData <- writeUInt8 ihdrData 0 12 ;;
  ihdrChunk <- createChunk "IHDR" ihdrData ;;
  rawData <- Buffer_alloc MAX_LENGTH ((width * 3 + 1) * height) ;;
  let rawData := fillLoops width height rawData in
  let compressed := deflateSync rawData in
  idatChunk <- createChunk "IDAT" compressed ;;
  iendChunk <- createChunk "IEND" (alloc 0) ;;
  Ok (signature ++ ihdrChunk ++ idatChunk ++ iendChunk).

(** ** Notions used to state what the script produces *)

(** Reading four bytes as a big-endian unsigned integer. *)
Definition readUInt32BE (b : Buffer) : Z :=
  match b with
  | [b3; b2; b1; b0] => b3 * 16777216 + b2 * 65536 + b1 * 256 + b0
  | _ => -1
  end.

(** One row of the raw image: the filter byte 0, then [width] pixels of
    the colour #4f46e5. *)
Definition pixelRow (width : nat) : Buffer :=
  0 :: List.concat (List.repeat [79; 70; 229] width).

(** The bitwise definition of CRC-32 (reflected polynomial 0xEDB88320) on
    unsigned 32-bit values: one step per bit, eight per byte. *)
Definition crcBit (c : Z) : Z :=
  if Z.odd c then Z.lxor 3988292384 (Z.shiftr c 1) else Z.shiftr c 1.

Definition crcByte (c b : Z) : Z := Nat.iter 8 crcBit (Z.lxor c b).

Definition crcBitwise (buffer : Buffer) : Z :=
  Z.lxor (fold_left crcByte buffer 4294967295) 4294967295.

End Icons.

(* ================================================================== *)
(** * Sample pages *)
(* ================================================================== *)

Module Samples.
Import Scanner.

Definition bubble (n : nat) (t : jsstring) : Element :=
  {| nodeId := n; textContent := Some t; imgCount := 0;
     rectTop := 0%Q; rectLeft := 0%Q |}.

(** A message still rendering: only white space inside. *)
Definition blankBubble : Element := bubble 1 (lit "   ").
Definition hiBubble : Element := bubble 2 (lit "hi").
(** 120 letters. *)
Definition longBubble : Element := bubble 3 (repeat 97%N 120).
(** 120 code units: 60 letters followed by 60 spaces. *)
Definition paddedBubble : Element :=
  bubble 4 (repeat 97%N 60 ++ repeat 32%N 60).

Definition geminiFirst : jsstring := lit ".user-query-wrapper".
Definition geminiSecond : jsstring :=
  lit "[data-test-id=" +++ dquote +++ lit "user-query" +++ dquote +++ lit "]".

(** Answers the first selector with [a], the second with [b], and throws
    on any other selector. *)
Definition twoSelectorDocument (a b : list Element) : Document :=
  {| querySelectorAll := fun selector =>
       if JsString.eqb selector geminiFirst then Ok a
       else if JsString.eqb selector geminiSecond then Ok b
       else Throw (lit "SyntaxError") |}.

Definition throwingDocument : Document :=
  {| querySelectorAll := fun _ => Throw (lit "SyntaxError") |}.

Definition constantDocument (a : list Element) : Document :=
  {| querySelectorAll := fun _ => Ok a |}.

(** Gemini, the first selector matching only a blank element. *)
Definition geminiPage : Page :=
  {| location_hostname := lit "gemini.google.com";
     document := twoSelectorDocument [blankBubble] [hiBubble];
     Date_now := fun _ => 1000%Z |}.

(** Gemini, both selectors matching a message. *)
Definition geminiBothPage : Page :=
  {| location_hostname := lit "gemini.google.com";
     document := twoSelectorDocument [hiBubble] [longBubble];
     Date_now := fun _ => 1000%Z |}.

(** The same document one second later. *)
Definition geminiBothPageLater : Page :=
  {| location_hostname := lit "gemini.google.com";
     document := twoSelectorDocument [hiBubble] [longBubble];
     Date_now := fun _ => 2000%Z |}.

Definition claudeThrowingPage : Page :=
  {| location_hostname := lit "claude.ai";
     document := throwingDocument;
     Date_now := fun _ => 1000%Z |}.

Definition claudeLongPage : Page :=
  {| location_hostname := lit "claude.ai";
     document := constantDocument [longBubble];
     Date_now := fun _ => 1000%Z |}.


(** A state in which an earlier scan has published one prompt. *)
Definition staleState : ScannerState :=
  {| prompts := [mkPrompt (fun _ => 0%Z) 0 hiBubble];
     platform := claude;
     isScanning := false;
     scannedElementsRef := [];
     console := [] |}.


(** ** Sample schedules of the debouncer's host *)

Definition addedNode : list Debounce.MutationRecord :=
  [{| Debounce.type := Debounce.childList;
      Debounce.addedNodes_length := 1 |}].

Definition attributeChange : list Debounce.MutationRecord :=
  [{| Debounce.type := Debounce.attributes;
      Debounce.addedNodes_length := 0 |}].

(** A host that runs the timer due at 400 fifty milliseconds late, and at
    instant 750 delivers a batch before the timer due at that instant. *)
Definition lateSchedule : list Host.Action :=
  [Host.mutate addedNode; Host.elapse 100; Host.mutate addedNode;
   Host.elapse 450; Host.fire 2; Host.mutate addedNode;
   Host.elapse 750; Host.mutate addedNode;
   Host.elapse 1100; Host.fire 4].

Definition lateWorld : Debounce.World :=
  match Host.exec lateSchedule Debounce.initialWorld with
  | Some w => w
  | None => Debounce.initialWorld
  end.

(** A host that runs every timer at the instant it is due. *)
Definition punctualSchedule : list Host.Action :=
  [Host.mutate addedNode; Host.elapse 100; Host.mutate addedNode;
   Host.elapse 400; Host.fire 2;
   Host.elapse 1000; Host.mutate addedNode;
   Host.elapse 1100; Host.mutate attributeChange;
   Host.elapse 1300; Host.fire 3].

Definition punctualWorld : Debounce.World :=
  match Host.exec punctualSchedule Debounce.initialWorld with
  | Some w => w
  | None => Debounce.initialWorld
  end.

(** ** Sample panels *)

Definition sampleWindow : Panel.Window :=
  {| Panel.innerWidth := 1000%Q; Panel.innerHeight := 800%Q |}.

Definition wideWindow : Panel.Window :=
  {| Panel.innerWidth := 1200%Q; Panel.innerHeight := 800%Q |}.

Definition ultrawideWindow : Panel.Window :=
  {| Panel.innerWidth := 3600%Q; Panel.innerHeight := 800%Q |}.

Definition tinyWindow : Panel.Window :=
  {| Panel.innerWidth := 50%Q; Panel.innerHeight := 40%Q |}.

(** The panel mounted in a 3600 pixel wide window, resized by its handle
    to 3400 by 200, dragged to the top-left corner, after which the window
    is narrowed to 1200 pixels: the panel stands at (0,0) and its centre,
    (1700,100), lies 500 pixels beyond the right edge. *)
Definition oversizedMachine : Panel.Machine :=
  Panel.run (Panel.mount ultrawideWindow)
    [Panel.mousedown_resize 340 500; Panel.mousemove 3420 300;
     Panel.mouseup;
     Panel.mousedown_drag 30 110; Panel.mousemove 10 10; Panel.mouseup;
     Panel.window_resize 1200 800]%Q.

Definition panelAt (px py pw ph : Q) : Panel.PanelState :=
  Panel.setSize {| Panel.width := pw; Panel.height := ph |}
    (Panel.setPosition {| Panel.x := px; Panel.y := py |}
       Panel.initialPanel).

(** ** A sample page for the highlight *)

Definition plainStyle : Highlight.Style :=
  {| Highlight.outline := lit "none"; Highlight.transition := lit "" |}.

Definition quietPage : Highlight.World :=
  {| Highlight.clock := 0;
     Highlight.style := fun _ => plainStyle;
     Highlight.scrolledIntoView := [];
     Highlight.pending := [] |}.

Definition hiPrompt : Scanner.ChatPrompt :=
  Scanner.mkPrompt (fun _ => 0%Z) 0 hiBubble.

End Samples.

(* ================================================================== *)
(** * Facts about strings *)
(* ================================================================== *)

Module JsStringFacts.

Lemma eqb_eq (a b : jsstring) : JsString.eqb a b = true <-> a = b.
Proof.
  unfold JsString.eqb.
  destruct (list_eq_dec N.eq_dec a b); split; congruence.
Qed.

Lemma startsWith_prefix (m s : jsstring) :
  startsWith s m = true <-> exists suf, s = m ++ suf.
Proof.
  revert s; induction m as [|c m IH]; intros s; simpl.
  - split; [intros _; now exists s | reflexivity].
  - destruct s as [|d s].
    + split; [discriminate | intros [suf H]; discriminate].
    + rewrite andb_true_iff, N.eqb_eq, IH. split.
      * intros [-> [suf ->]]. now exists suf.
      * intros [suf H]. injection H as -> ->. split; [reflexivity|now exists suf].
Qed.

Lemma includes_Substring (s m : jsstring) :
  includes s m = true <-> Substring m s.
Proof.
  induction s as [|d s IH].
  - simpl. rewrite orb_false_r, startsWith_prefix. split.
    + intros [suf H]. now exists [], suf.
    + intros [pre [suf H]]. destruct pre; [now exists suf | discriminate].
  - cbn [includes]. rewrite orb_true_iff, startsWith_prefix, IH. split.
    + intros [[suf H] | [pre [suf H]]].
      * now exists [], suf.
      * exists (d :: pre), suf. now rewrite H.
    + intros [pre [suf H]]. destruct pre as [|e pre].
      * left. now exists suf.
      * right. injection H as _ H. now exists pre, suf.
Qed.

Lemma includes_not_Substring (s m : jsstring) :
  includes s m = false <-> ~ Substring m s.
Proof.
  rewrite <- includes_Substring. destruct (includes s m); split; congruence.
Qed.

Lemma trimStart_length (s : jsstring) :
  (List.length (trimStart s) <= List.length s)%nat.
Proof.
  induction s as [|c s IH]; simpl; [lia|].
  destruct (isWhiteSpace c); simpl; lia.
Qed.

Lemma trim_length (s : jsstring) :
  (List.length (trim s) <= List.length s)%nat.
Proof.
  unfold trim, trimEnd. rewrite length_rev.
  etransitivity; [apply trimStart_length|].
  rewrite length_rev. apply trimStart_length.
Qed.

End JsStringFacts.

(* ================================================================== *)
(** * Facts about the platform registry *)
(* ================================================================== *)

Module RegistryFacts.
Import JsStringFacts.

Lemma chatgpt_sample : detectPlatform (lit "chatgpt.com") = chatgpt.
Proof. reflexivity. Qed.

Lemma gemini_sample : detectPlatform (lit "gemini.google.com") = gemini.
Proof. reflexivity. Qed.

Lemma first_listed_wins :
  detectPlatform (lit "groq.com.claude.ai") = claude.
Proof. reflexivity. Qed.

Lemma unknown_sample : detectPlatform (lit "example.org") = unknown.
Proof. reflexivity. Qed.

Lemma detectPlatform_identify (h : jsstring) :
  detectPlatform h = spec_identify h.
Proof.
  unfold detectPlatform, spec_identify, knownPlatforms.
  cbn [find getPlatformConfig PLATFORM_CONFIGS hostname].
  destruct (includes h (lit "chatgpt.com")); [reflexivity|].
  destruct (includes h (lit "claude.ai")); [reflexivity|].
  destruct (includes h (lit "gemini.google.com")); [reflexivity|].
  destruct (includes h (lit "groq.com")); reflexivity.
Qed.

(** C4. For every hostname, [detectPlatform] returns the platform whose
    [hostnameMatch] string occurs in the hostname, the first such platform
    in the fixed order chatgpt, claude, gemini, groq; it returns [unknown]
    exactly when no [hostnameMatch] occurs in it; and the configuration of
    [unknown] is null. *)
Theorem detectPlatform_first_substring_match (h : jsstring) :
  detectPlatform h = spec_identify h
  /\ (detectPlatform h <> unknown ->
      matchesHost h (detectPlatform h)
      /\ forall q, (platformRank q < platformRank (detectPlatform h))%nat ->
                   ~ matchesHost h q)
  /\ (detectPlatform h = unknown <-> forall p, ~ matchesHost h p)
  /\ getPlatformConfig unknown = None.
Proof.
  split; [apply detectPlatform_identify|].
  assert (M : forall p cfg, getPlatformConfig p = Some cfg ->
            (matchesHost h p <-> includes h (hostname cfg) = true)).
  { intros p cfg E. unfold matchesHost. rewrite includes_Substring. split.
    - intros [cfg' [E' S]]. congruence.
    - intros S. now exists cfg. }
  assert (U : ~ matchesHost h unknown).
  { intros [cfg [E _]]. discriminate. }
  pose proof (M chatgpt _ eq_refl) as M1.
  pose proof (M claude _ eq_refl) as M2.
  pose proof (M gemini _ eq_refl) as M3.
  pose proof (M groq _ eq_refl) as M4.
  cbn [hostname] in M1, M2, M3, M4.
  unfold detectPlatform.
  destruct (includes h (lit "chatgpt.com")) eqn:E1;
    [|destruct (includes h (lit "claude.ai")) eqn:E2;
      [|destruct (includes h (lit "gemini.google.com")) eqn:E3;
        [|destruct (includes h (lit "groq.com")) eqn:E4]]].
  all: repeat split; try reflexivity; try discriminate; try tauto.
  all: try (intros q Hq; destruct q; cbn in Hq; try lia;
            first [rewrite M1 | rewrite M2 | rewrite M3 | rewrite M4];
            congruence).
  all: try (intros H; exfalso;
            first [apply (H chatgpt); tauto | apply (H claude); tauto
                  | apply (H gemini); tauto | apply (H groq); tauto]).
  intros _ p. destruct p; try assumption;
    first [rewrite M1 | rewrite M2 | rewrite M3 | rewrite M4]; congruence.
Qed.

End RegistryFacts.


(* ================================================================== *)
(** * Facts about text extraction and scanning *)
(* ================================================================== *)

Module ScannerFacts.
Import Scanner JsStringFacts.

Lemma truthy_false (s : jsstring) : truthy s = false <-> s = [].
Proof. destruct s; simpl; split; congruence. Qed.

Lemma truthy_true_length (s : jsstring) :
  truthy s = true <-> (1 <= List.length s)%nat.
Proof. destruct s; simpl; split; intros; try congruence; lia. Qed.

Lemma extractText_length (e : Element) :
  (JsString.length (extractText e) <= MAX_PROMPT_TEXT_LENGTH + 3)%nat.
Proof.
  unfold extractText. cbv zeta.
  match goal with
  | |- context [(MAX_PROMPT_TEXT_LENGTH <? JsString.length ?u)%nat] =>
      set (t := u)
  end.
  unfold JsString.length, substring0.
  destruct (MAX_PROMPT_TEXT_LENGTH <? List.length t)%nat eqn:E.
  - apply Nat.ltb_lt in E. rewrite length_app, firstn_length_le by lia.
    reflexivity.
  - apply Nat.ltb_ge in E. lia.
Qed.

Lemma forEachElement_number (now : nat -> Z) (els : list Element) :
  forall found i,
    forEachElement now els found i
    = (found ++ number now i (filter productive els),
       i + List.length (filter productive els))%nat.
Proof.
  induction els as [|e els IH]; intros found i; simpl.
  - now rewrite app_nil_r, Nat.add_0_r.
  - destruct (productive e) eqn:P; unfold productive in P; rewrite P; simpl.
    + rewrite IH, <- app_assoc. simpl. f_equal. lia.
    + apply IH.
Qed.

Lemma filter_nil_iff {A} (f : A -> bool) (l : list A) :
  filter f l = [] <-> Forall (fun a => f a = false) l.
Proof.
  induction l as [|a l IH]; simpl.
  - split; [constructor | reflexivity].
  - destruct (f a) eqn:E; split; intros H.
    + discriminate.
    + inversion H; congruence.
    + constructor; [assumption | now apply IH].
    + inversion H; now apply IH.
Qed.

Lemma filter_cons_of_Exists {A} (f : A -> bool) (l : list A) :
  Exists (fun a => f a = true) l -> exists a k, filter f l = a :: k.
Proof.
  induction 1 as [a l H | a l H IH]; simpl.
  - rewrite H. eauto.
  - destruct (f a); [eauto | exact IH].
Qed.

(** A barren selector leaves the loop's locals untouched. *)
Lemma forSelectors_skip_barren doc now sel rest :
  barren doc sel ->
  forSelectors doc now (sel :: rest) [] 0 = forSelectors doc now rest [] 0.
Proof.
  intros [els [Q B]]. cbn [forSelectors]. rewrite Q. cbn [bind].
  rewrite forEachElement_number.
  apply filter_nil_iff in B. rewrite B. reflexivity.
Qed.

(** A productive selector ends the loop with its own prompts. *)
Lemma forSelectors_stop_productive doc now sel rest els :
  querySelectorAll doc sel = Ok els ->
  Exists (fun e => productive e = true) els ->
  forSelectors doc now (sel :: rest) [] 0 = Ok (promptsOf now els).
Proof.
  intros Q P. cbn [forSelectors]. rewrite Q. cbn [bind].
  rewrite forEachElement_number. unfold promptsOf.
  destruct (filter_cons_of_Exists _ P) as [a [k ->]]. reflexivity.
Qed.

Lemma forSelectors_first_productive doc now pre sel post els :
  Forall (barren doc) pre ->
  querySelectorAll doc sel = Ok els ->
  Exists (fun e => productive e = true) els ->
  forSelectors doc now (pre ++ sel :: post) [] 0 = Ok (promptsOf now els).
Proof.
  induction 1 as [|s pre B _ IH]; intros Q P.
  - now apply forSelectors_stop_productive.
  - simpl app. rewrite forSelectors_skip_barren by assumption. now apply IH.
Qed.

(** Whether the loop throws does not depend on the clock. *)
Lemma forSelectors_clock doc now now' sels :
  match forSelectors doc now sels [] 0, forSelectors doc now' sels [] 0 with
  | Ok found, Ok found' =>
      map untimed found = map untimed found'
      /\ ((forall k, now k = now' k) -> found = found')
  | Throw e, Throw e' => e = e'
  | _, _ => False
  end.
Proof.
  assert (N : forall l i, map untimed (number now i l)
                          = map untimed (number now' i l)).
  { induction l as [|e l IH]; intros i; simpl; [reflexivity|].
    now rewrite IH. }
  assert (N' : (forall k, now k = now' k) ->
               forall l i, number now i l = number now' i l).
  { intros H. induction l as [|e l IH]; intros i; simpl; [reflexivity|].
    unfold mkPrompt. now rewrite IH, H. }
  induction sels as [|sel sels IH]; cbn [forSelectors].
  - split; reflexivity.
  - destruct (querySelectorAll doc sel) as [els|e]; cbn [bind];
      [|reflexivity].
    rewrite !forEachElement_number. cbn [app Nat.add].
    destruct (filter productive els) as [|a k] eqn:F.
    + cbn. exact IH.
    + cbn [number List.length Nat.ltb Nat.leb].
      split; [apply (N (a :: k)) | intros H; now apply (N' H (a :: k))].
Qed.

Lemma number_textBounded now l :
  Forall (fun e => productive e = true) l ->
  forall i, Forall textBounded (number now i l).
Proof.
  induction 1 as [|e l P _ IH]; intros i; simpl; constructor.
  - unfold textBounded; simpl. split.
    + now apply truthy_true_length.
    + apply extractText_length.
  - apply IH.
Qed.

Lemma forSelectors_textBounded doc now sels found :
  forSelectors doc now sels [] 0 = Ok found -> Forall textBounded found.
Proof.
  induction sels as [|sel sels IH]; cbn [forSelectors].
  - intros [= <-]. constructor.
  - destruct (querySelectorAll doc sel) as [els|e]; cbn [bind];
      [|discriminate].
    rewrite forEachElement_number. cbn [app Nat.add].
    destruct (filter productive els) as [|a k] eqn:F.
    + cbn. exact IH.
    + cbn [number List.length Nat.ltb Nat.leb]. intros [= <-].
      apply (number_textBounded now (l := a :: k)). rewrite <- F.
      apply Forall_forall. intros e' H. now apply filter_In in H.
Qed.

(** What a scan does to the state, case by case. *)
Lemma scan_outcome (page : Page) (s : ScannerState) :
  exists s',
    scanForPrompts page s = Ok s'
    /\ platform s' = detectPlatform (location_hostname page)
    /\ scannedElementsRef s' = scannedElementsRef s
    /\ match configOf page with
       | None => prompts s' = prompts s /\ isScanning s' = isScanning s
       | Some cfg =>
           isScanning s' = false
           /\ match forSelectors (document page) (Date_now page)
                       (selectors cfg) [] 0 with
              | Ok found => prompts s' = found
              | Throw _ => prompts s' = prompts s
              end
       end.
Proof.
  unfold scanForPrompts, configOf.
  destruct (getPlatformConfig (detectPlatform (location_hostname page)))
    as [cfg|].
  - unfold try_catch_finally.
    destruct (forSelectors (document page) (Date_now page) (selectors cfg)
                [] 0) as [found|e]; cbn [bind];
      eexists; repeat split; reflexivity.
  - eexists; repeat split; reflexivity.
Qed.


End ScannerFacts.

(* ================================================================== *)
(** * Properties of the scanner and the text extractor *)
(* ================================================================== *)

Module ScannerProperties.
Import Scanner Samples JsStringFacts ScannerFacts.

(** ** Selector fallback *)

Lemma gemini_falls_through :
  forSelectors (document geminiPage) (Date_now geminiPage)
    [geminiFirst; geminiSecond] [] 0
  = Ok (promptsOf (Date_now geminiPage) [hiBubble]).
Proof. vm_compute. reflexivity. Qed.

(** The first selector of the Gemini page matches one element, whose text
    is blank; the scan goes on to the second selector and publishes its
    match.  So the result does not always come from the first selector
    whose query yields an element. *)
Lemma first_matching_selector_counterexample :
  ~ (forall doc now pre sel post els,
       Forall (fun s => querySelectorAll doc s = Ok []) pre ->
       querySelectorAll doc sel = Ok els ->
       els <> [] ->
       forSelectors doc now (pre ++ sel :: post) [] 0
       = Ok (promptsOf now els)).
Proof.
  intros H.
  specialize (H (document geminiPage) (Date_now geminiPage) []
                geminiFirst [geminiSecond] [blankBubble]
                (Forall_nil _) eq_refl).
  assert (N : [blankBubble] <> []) by discriminate.
  specialize (H N). vm_compute in H. discriminate H.
Qed.

(** C1 (amended). The scan result is produced entirely from the first
    selector, in the configuration's listed order, whose query yields at
    least one element with non-empty extracted text: the selectors before
    it are queried and contribute nothing, and no later selector is
    evaluated, so the result is the same whatever the document would
    answer (or throw) for them.  The published list is that selector's
    productive matches in query order, numbered from 1. *)
Theorem scan_uses_first_productive_selector
    (doc : Document) (now : nat -> Z) (pre : list jsstring)
    (sel : jsstring) (post : list jsstring) (els : list Element) :
  Forall (barren doc) pre ->
  querySelectorAll doc sel = Ok els ->
  Exists (fun e => productive e = true) els ->
  (forall doc',
      (forall s, In s (pre ++ [sel]) ->
                 querySelectorAll doc' s = querySelectorAll doc s) ->
      forSelectors doc' now (pre ++ sel :: post) [] 0
      = Ok (promptsOf now els))
  /\ (forall page s cfg,
        document page = doc -> Date_now page = now ->
        configOf page = Some cfg ->
        selectors cfg = pre ++ sel :: post ->
        exists s', scanForPrompts page s = Ok s'
                   /\ prompts s' = promptsOf now els).
Proof.
  intros B Q P. split.
  - intros doc' Same. apply forSelectors_first_productive.
    + apply Forall_forall. intros s Hs.
      rewrite Forall_forall in B. destruct (B s Hs) as [es [Qs Bs]].
      exists es. split; [|exact Bs].
      rewrite Same; [exact Qs|]. apply in_or_app. now left.
    + rewrite Same; [exact Q|]. apply in_or_app. right. now left.
    + exact P.
  - intros page s cfg <- <- C Sel.
    destruct (scan_outcome page s) as [s' [E [_ [_ O]]]].
    rewrite C, Sel in O.
    rewrite (@forSelectors_first_productive _ (Date_now page) _ _ post _
               B Q P) in O.
    exists s'. split; [exact E | apply O].
Qed.

(** On a page where both Gemini selectors match a message, only the first
    selector's message is published. *)
Lemma scan_uses_first_productive_selector_witness :
  forSelectors (twoSelectorDocument [hiBubble] [longBubble])
    (fun _ => 1000%Z) ([] ++ geminiFirst :: [geminiSecond]) [] 0
  = Ok (promptsOf (fun _ => 1000%Z) [hiBubble]).
Proof.
  refine (proj1 (@scan_uses_first_productive_selector
                   (twoSelectorDocument [hiBubble] [longBubble])
                   (fun _ => 1000%Z) [] geminiFirst [geminiSecond]
                   [hiBubble] _ _ _) _ _).
  - constructor.
  - reflexivity.
  - constructor. vm_compute. reflexivity.
  - intros s _. reflexivity.
Defined.

(** ** Failure handling *)






(** ** Image placeholders *)

Lemma image_only_sample :
  extractText {| nodeId := 0; textContent := Some (lit "  "); imgCount := 2;
                 rectTop := 0%Q; rectLeft := 0%Q |}
  = camera +++ lit " [2 Images]"
  /\ extractText {| nodeId := 0; textContent := None; imgCount := 1;
                    rectTop := 0%Q; rectLeft := 0%Q |}
     = camera +++ lit " [Image]".
Proof. split; vm_compute; reflexivity. Qed.

Lemma text_and_image_sample :
  extractText {| nodeId := 0; textContent := Some (lit " look "); imgCount := 3;
                 rectTop := 0%Q; rectLeft := 0%Q |}
  = camera +++ lit " look".
Proof. vm_compute. reflexivity. Qed.

Lemma prompt_id_sample :
  generatePromptId {| nodeId := 0; textContent := None; imgCount := 0;
                      rectTop := (-5 # 2)%Q; rectLeft := (21 # 2)%Q |} 3
  = lit "prompt-3--2-11".
Proof. vm_compute. reflexivity. Qed.

(** ** Truncation *)

Lemma padded_input_sample :
  JsString.length (repeat 97%N 60 ++ repeat 32%N 60) = 120
  /\ extractText paddedBubble = repeat 97%N 60.
Proof. split; vm_compute; reflexivity. Qed.

(** An input of 120 code units of which the last 60 are spaces is trimmed
    to 60 before the length test, and comes out as those 60 code units:
    not every 120-character input is cut to 80 plus the marker. *)
Lemma truncation_counterexample :
  ~ (forall e t,
       textContent e = Some t ->
       imgCount e = 0 ->
       JsString.length t = 120 ->
       extractText e = substring0 80 t +++ lit "..."
       /\ JsString.length (extractText e) = 83).
Proof.
  intros H.
  destruct (H paddedBubble _ eq_refl eq_refl eq_refl) as [_ L].
  vm_compute in L. discriminate L.
Qed.

(** C8 (amended). With the maximum length at 80, for every element with no
    images whose text content has 120 characters once its leading and
    trailing white space is trimmed, text extraction produces exactly 83
    characters: the first 80 characters of the trimmed text followed by the
    3-character marker "...". *)
Theorem extractText_truncates_120 (e : Element) (t : jsstring) :
  textContent e = Some t ->
  imgCount e = 0 ->
  JsString.length (trim t) = 120 ->
  MAX_PROMPT_TEXT_LENGTH = 80
  /\ extractText e = substring0 80 (trim t) +++ lit "..."
  /\ JsString.length (extractText e) = 83.
Proof.
  intros T I L. split; [reflexivity|].
  assert (X : extractText e = substring0 80 (trim t) +++ lit "...").
  { unfold extractText. rewrite T, I. cbv zeta.
    change (0 <? 0)%nat with false. rewrite !andb_false_r.
    rewrite L. reflexivity. }
  split; [exact X|].
  rewrite X. unfold JsString.length, substring0 in *.
  rewrite length_app, firstn_length_le by lia. reflexivity.
Qed.

Lemma extractText_truncates_120_witness :
  MAX_PROMPT_TEXT_LENGTH = 80
  /\ extractText longBubble = substring0 80 (trim (repeat 97%N 120)) +++ lit "..."
  /\ JsString.length (extractText longBubble) = 83.
Proof.
  apply (@extractText_truncates_120 longBubble (repeat 97%N 120)).
  - reflexivity.
  - reflexivity.
  - vm_compute. reflexivity.
Defined.

(** ** Length of a published text *)

(** A message of 120 letters is published with a text of 83 code units,
    more than the configured maximum of 80. *)
Lemma text_length_counterexample :
  ~ (forall page s s' p,
       prompts s = [] ->
       scanForPrompts page s = Ok s' ->
       In p (prompts s') ->
       (JsString.length (text p) <= MAX_PROMPT_TEXT_LENGTH)%nat).
Proof.
  intros H.
  specialize (H claudeLongPage initialState _
                (mkPrompt (fun _ => 1000%Z) 0 longBubble)
                eq_refl eq_refl).
  assert (I : In (mkPrompt (fun _ => 1000%Z) 0 longBubble)
                 [mkPrompt (fun _ => 1000%Z) 0 longBubble]) by now left.
  specialize (H I). vm_compute in H. lia.
Qed.

(** C9 (amended). For every ChatPrompt in the list a scan publishes, the
    text is not empty and has at most the configured maximum length plus
    the three characters of the marker, 83 characters: the bound holds of
    the list after any scan when it held of the list before, and it holds
    of the empty initial list. *)
Theorem prompt_text_bounded (page : Page) (s s' : ScannerState) :
  Forall textBounded (prompts s) ->
  scanForPrompts page s = Ok s' ->
  Forall textBounded (prompts s')
  /\ forall p, In p (prompts s') ->
               (JsString.length (text p) <= 83)%nat.
Proof.
  intros B E.
  assert (F : Forall textBounded (prompts s')).
  { destruct (scan_outcome page s) as [s'' [E' [_ [_ O]]]].
    rewrite E in E'. injection E' as <-.
    destruct (configOf page) as [cfg|].
    - destruct O as [_ O].
      destruct (forSelectors (document page) (Date_now page)
                  (selectors cfg) [] 0) as [found|e] eqn:FS.
      + rewrite O. eapply forSelectors_textBounded; eassumption.
      + now rewrite O.
    - destruct O as [-> _]. exact B. }
  split; [exact F|].
  intros p Hp. rewrite Forall_forall in F. apply (F p Hp).
Qed.

Lemma prompt_text_bounded_witness :
  Forall textBounded [mkPrompt (fun _ => 1000%Z) 0 longBubble]
  /\ forall p, In p [mkPrompt (fun _ => 1000%Z) 0 longBubble] ->
               (JsString.length (text p) <= 83)%nat.
Proof.
  apply (@prompt_text_bounded claudeLongPage initialState
           (setIsScanning false
              (log (console_log
                      (lit "[BackTrack] Found " +++ ofNat 1
                         +++ lit " prompts on " +++ lit "Claude"))
                 (setPrompts [mkPrompt (fun _ => 1000%Z) 0 longBubble]
                    (setIsScanning true
                       (setPlatform claude initialState)))))).
  - constructor.
  - reflexivity.
Defined.

(** ** Manual rescan against debounced scan *)

(** The same document scanned one second apart: the two lists differ in
    their timestamps. *)
Lemma rescan_counterexample :
  ~ (forall page page' s r r',
       location_hostname page = location_hostname page' ->
       document page = document page' ->
       rescan page s = Ok r ->
       debouncedScanCallback page' s = Ok r' ->
       prompts r = prompts r').
Proof.
  intros H.
  specialize (H geminiBothPage geminiBothPageLater initialState _ _
                eq_refl eq_refl eq_refl eq_refl).
  vm_compute in H. discriminate H.
Qed.

(** C10 (amended). For every fixed document and hostname, a manual rescan
    and a debounced scan that start from the same published list both
    return, with prompt lists that are identical except for the timestamp
    field, and fully identical when the clock readings agree.  The
    scanned-elements cache that rescan clears never affects the output:
    whatever the cache holds, the scan publishes the same list; and when
    the scan completes, the published list is the one the loop over the
    selectors returns, whatever the state before. *)
Theorem rescan_agrees_with_debounced_scan
    (page page' : Page) (s s' : ScannerState) :
  location_hostname page = location_hostname page' ->
  document page = document page' ->
  prompts s = prompts s' ->
  exists r r',
    rescan page s = Ok r
    /\ debouncedScanCallback page' s' = Ok r'
    /\ map untimed (prompts r) = map untimed (prompts r')
    /\ ((forall k, Date_now page k = Date_now page' k) ->
        prompts r = prompts r')
    /\ (forall cache, exists r'',
          scanForPrompts page (setScannedElements cache s) = Ok r''
          /\ prompts r'' = prompts r)
    /\ (forall cfg found,
          configOf page = Some cfg ->
          forSelectors (document page) (Date_now page) (selectors cfg) [] 0
          = Ok found ->
          prompts r = found).
Proof.
  intros Hh Hd Hp. unfold rescan, debouncedScanCallback.
  destruct (scan_outcome page (setScannedElements [] s))
    as [r [E [_ [_ O]]]].
  destruct (scan_outcome page' s') as [r' [E' [_ [_ O']]]].
  exists r, r'. split; [exact E|]. split; [exact E'|].
  assert (C : configOf page' = configOf page)
    by (unfold configOf; now rewrite Hh).
  rewrite C in O'. rewrite <- Hd in O'.
  pose proof (fun sels => forSelectors_clock (document page)
                (Date_now page) (Date_now page') sels) as K.
  cbn [prompts setScannedElements] in O.
  assert (U : map untimed (prompts r) = map untimed (prompts r')
              /\ ((forall k, Date_now page k = Date_now page' k) ->
                  prompts r = prompts r')).
  { destruct (configOf page) as [cfg|].
    - destruct O as [_ O]. destruct O' as [_ O'].
      specialize (K (selectors cfg)).
      destruct (forSelectors (document page) (Date_now page)
                  (selectors cfg) [] 0) as [f|e];
        destruct (forSelectors (document page) (Date_now page')
                    (selectors cfg) [] 0) as [f'|e']; try contradiction.
      + rewrite O, O'. exact K.
      + rewrite O, O', Hp. split; reflexivity.
    - destruct O as [-> _]. destruct O' as [-> _]. rewrite Hp.
      split; reflexivity. }
  split; [apply U|]. split; [apply U|]. split.
  - intros cache.
    destruct (scan_outcome page (setScannedElements cache s))
      as [r'' [E'' [_ [_ O'']]]].
    exists r''. split; [exact E''|].
    cbn [prompts setScannedElements] in O''.
    destruct (configOf page) as [cfg|].
    + destruct O as [_ O]. destruct O'' as [_ O''].
      destruct (forSelectors (document page) (Date_now page)
                  (selectors cfg) [] 0); congruence.
    + destruct O as [-> _]. destruct O'' as [-> _]. reflexivity.
  - intros cfg found Cf F. rewrite Cf, F in O. apply O.
Qed.

Lemma rescan_agrees_with_debounced_scan_witness :
  exists r r',
    rescan geminiBothPage initialState = Ok r
    /\ debouncedScanCallback geminiBothPageLater initialState = Ok r'
    /\ map untimed (prompts r) = map untimed (prompts r').
Proof.
  destruct (@rescan_agrees_with_debounced_scan
              geminiBothPage geminiBothPageLater initialState initialState
              eq_refl eq_refl eq_refl)
    as [r [r' [E [E' [U _]]]]].
  exists r, r'. split; [exact E|]. split; [exact E'|exact U].
Defined.

End ScannerProperties.

(* ================================================================== *)
(** * Properties of the debounced scan *)
(* ================================================================== *)

Module DebounceProperties.
Import Debounce.

(** Five qualifying mutations 50ms apart: one scan, at 200 + 300. *)
Lemma five_mutations_sample :
  let added := [{| type := childList; addedNodes_length := 1 |}] in
  scans (advance 1000
           (deliver [(0, added); (50, added); (100, added); (150, added);
                     (200, added)] initialWorld))
  = [500].
Proof. vm_compute. reflexivity. Qed.

(** Two mutations 300ms apart are not coalesced. *)
Lemma spaced_mutations_sample :
  let text := [{| type := characterData; addedNodes_length := 0 |}] in
  scans (advance 1000 (deliver [(0, text); (300, text)] initialWorld))
  = [300; 600].
Proof. vm_compute. reflexivity. Qed.

(** Attribute changes and removals alone schedule nothing. *)
Lemma irrelevant_mutations_sample :
  scans (advance 1000
           (deliver [(0, [{| type := attributes; addedNodes_length := 0 |};
                          {| type := childList; addedNodes_length := 0 |}])]
              initialWorld))
  = [].
Proof. vm_compute. reflexivity. Qed.

Lemma last_cons_default {A : Type} (l : list A) :
  forall a d, last (a :: l) d = last l a.
Proof.
  induction l as [|b l IH]; intros a d; [reflexivity|].
  change (last (a :: b :: l) d) with (last (b :: l) d).
  rewrite (IH b d), (IH b a). reflexivity.
Qed.

Lemma advance_armed (ran : list nat) (t t' : nat) (w : World) :
  Armed ran t w -> t <= t' -> t' - t < SCAN_DEBOUNCE_DELAY ->
  advance t' w
  = {| timers := {| clock := t'; nextId := nextId (timers w);
                    pending := pending (timers w) |};
       timeoutId := timeoutId w; scans := scans w |}.
Proof.
  intros [id Hc Hi Hp Hn Hs] Le Lt. unfold advance. rewrite Hp.
  cbn [List.length runTimers]. rewrite Hp. cbn [earliest].
  destruct (Nat.leb_spec (t + SCAN_DEBOUNCE_DELAY) t') as [L|L]; [lia|].
  rewrite Hc, Hp. f_equal. f_equal. lia.
Qed.

Lemma debouncedScan_rearms (ran : list nat) (t t' : nat) (w : World) :
  Armed ran t w -> t <= t' -> t' - t < SCAN_DEBOUNCE_DELAY ->
  Armed ran t' (debouncedScan (advance t' w)).
Proof.
  intros A Le Lt. rewrite (advance_armed A Le Lt).
  destruct A as [id Hc Hi Hp Hn Hs].
  unfold debouncedScan, debounce. cbn [timeoutId timers]. rewrite Hi.
  unfold setTimeout, clearTimeout. cbn [clock nextId pending fst snd].
  rewrite Hp, Hn. cbn [filter fst]. rewrite Nat.eqb_refl. cbn [negb app].
  now apply armed with (id := S id).
Qed.

Lemma deliver_armed (ran : list nat)
    (events : list (nat * list MutationRecord)) :
  forall t w,
    Armed ran t w ->
    Forall (fun ev => hasRelevantChanges (snd ev) = true) events ->
    closelySpaced SCAN_DEBOUNCE_DELAY (t :: map fst events) ->
    Armed ran (last (map fst events) t) (deliver events w).
Proof.
  induction events as [|[t' b] events IH]; intros t w A Q C.
  - exact A.
  - inversion Q as [|? ? Qb Qr]; subst. cbn [snd] in Qb.
    cbn [map fst] in C. destruct C as [Le [Lt C]].
    cbn [deliver]. unfold observerCallback. rewrite Qb.
    specialize (IH t' _ (debouncedScan_rearms A Le Lt) Qr C).
    cbn [map fst]. rewrite last_cons_default. exact IH.
Qed.

Lemma first_change_arms (w : World) (t : nat) (b : list MutationRecord) :
  quiescent w [t] ->
  hasRelevantChanges b = true ->
  Armed (scans w) t (observerCallback b (advance t w)).
Proof.
  intros [Hp [Hn Hc]] Q. unfold observerCallback. rewrite Q.
  unfold advance. rewrite Hp. cbn [List.length runTimers].
  unfold debouncedScan, debounce, setTimeout, clearTimeout.
  cbn [timeoutId timers clock nextId pending scans].
  destruct (nextId (timers w)) as [|n] eqn:En; [lia|].
  destruct (timeoutId w) as [[|k]|];
    (apply armed with (id := n);
     cbn [clock timers nextId pending timeoutId scans];
     rewrite ?En, ?Hp; cbn [filter app];
     rewrite ?(Nat.max_r _ _ Hc); reflexivity).
Qed.

Lemma advance_fires (ran : list nat) (t horizon : nat) (w : World) :
  Armed ran t w ->
  scans (advance horizon w)
  = ran ++ if t + SCAN_DEBOUNCE_DELAY <=? horizon
           then [t + SCAN_DEBOUNCE_DELAY]
           else [].
Proof.
  intros [id Hc Hi Hp Hn Hs]. unfold advance. rewrite Hp.
  cbn [List.length runTimers scans]. rewrite Hp. cbn [earliest].
  destruct (t + SCAN_DEBOUNCE_DELAY <=? horizon).
  - cbn [runTimers timerCallback scans timers clock clearTimeout].
    rewrite Hs, Hc. f_equal. f_equal. lia.
  - rewrite Hs. now rewrite app_nil_r.
Qed.

(** C5. For every burst of qualifying mutation batches delivered in order
    with consecutive batches less than the 300ms delay apart, starting with
    no timer pending: each batch resets the timer (after the burst the one
    pending timer is due 300ms after the last batch and no scan has run
    yet), and exactly one scan is added to those that ran before the burst;
    it runs 300ms after the last batch of the burst. *)
Theorem burst_triggers_one_scan
    (w0 : World) (events : list (nat * list MutationRecord))
    (lastAt : nat) (lastBatch : list MutationRecord) (horizon : nat) :
  quiescent w0 (map fst (events ++ [(lastAt, lastBatch)])) ->
  Forall (fun ev => hasRelevantChanges (snd ev) = true)
    (events ++ [(lastAt, lastBatch)]) ->
  closelySpaced SCAN_DEBOUNCE_DELAY
    (map fst (events ++ [(lastAt, lastBatch)])) ->
  let w := deliver (events ++ [(lastAt, lastBatch)]) w0 in
  SCAN_DEBOUNCE_DELAY = 300
  /\ scans w = scans w0
  /\ map snd (pending (timers w)) = [lastAt + 300]
  /\ scans (advance horizon w)
     = scans w0 ++ if lastAt + 300 <=? horizon then [lastAt + 300] else [].
Proof.
  intros Q0 Q C w.
  assert (A : Armed (scans w0) lastAt w).
  { subst w. destruct (events ++ [(lastAt, lastBatch)]) as [|[t b] rest] eqn:E.
    - destruct events; discriminate.
    - inversion Q as [|? ? Qb Qr]; subst. cbn [snd] in Qb.
      cbn [deliver].
      assert (Q1 : quiescent w0 [t]).
      { destruct Q0 as [Hp [Hn Hc]]. repeat split; assumption. }
      pose proof (deliver_armed (@first_change_arms w0 t b Q1 Qb) Qr C) as A.
      assert (L : last (map fst ((t, b) :: rest)) t = lastAt).
      { rewrite <- E, map_app. apply last_last. }
      cbn [map fst] in L. rewrite last_cons_default in L.
      rewrite <- L. exact A. }
  split; [reflexivity|].
  pose proof (advance_fires horizon A) as F.
  destruct A as [id Hc Hi Hp Hn Hs].
  split; [exact Hs|]. split; [rewrite Hp; reflexivity | exact F].
Qed.

(** The specification's example: five childList batches 50ms apart. *)
Lemma burst_triggers_one_scan_witness :
  let added := [{| type := childList; addedNodes_length := 1 |}] in
  let w := deliver ([(0, added); (50, added); (100, added); (150, added)]
                      ++ [(200, added)]) initialWorld in
  SCAN_DEBOUNCE_DELAY = 300
  /\ scans w = scans initialWorld
  /\ map snd (pending (timers w)) = [200 + 300]
  /\ scans (advance 1000 w)
     = scans initialWorld
       ++ if 200 + 300 <=? 1000 then [200 + 300] else [].
Proof.
  intros added.
  apply (@burst_triggers_one_scan initialWorld
           [(0, added); (50, added); (100, added); (150, added)]
           200 added 1000).
  - cbn. repeat split; try reflexivity; lia.
  - repeat constructor.
  - cbn. unfold SCAN_DEBOUNCE_DELAY. repeat split; lia.
Defined.

End DebounceProperties.

(* ================================================================== *)
(** * Facts about the panel geometry *)
(* ================================================================== *)

Module PanelFacts.
Import Panel.
Local Open Scope Q_scope.

(** Case analysis on every [Qmax] and [Qmin] of the goal. *)
Ltac name_minmax :=
  repeat match goal with
  | |- context [Qmax ?a ?b] =>
      let H := fresh "Hmax" in
      let m := fresh "mx" in
      pose proof (Q.max_spec a b) as H;
      set (m := Qmax a b) in *; clearbody m
  | |- context [Qmin ?a ?b] =>
      let H := fresh "Hmin" in
      let m := fresh "mn" in
      pose proof (Q.min_spec a b) as H;
      set (m := Qmin a b) in *; clearbody m
  | _ : context [Qmax ?a ?b] |- _ =>
      let H := fresh "Hmax" in
      let m := fresh "mx" in
      pose proof (Q.max_spec a b) as H;
      set (m := Qmax a b) in *; clearbody m
  | _ : context [Qmin ?a ?b] |- _ =>
      let H := fresh "Hmin" in
      let m := fresh "mn" in
      pose proof (Q.min_spec a b) as H;
      set (m := Qmin a b) in *; clearbody m
  end.

Ltac split_minmax :=
  name_minmax;
  repeat match goal with
  | H : (_ < _ /\ _ == _) \/ (_ <= _ /\ _ == _) |- _ =>
      destruct H as [[? ?] | [? ?]]
  end.

(** Case analysis on the comparisons of the goal, innermost first. *)
Ltac split_comparisons :=
  repeat match goal with
  | |- context [Qlt_le_dec ?a ?b] =>
      match b with
      | context [Qlt_le_dec _ _] => fail 1
      | _ => destruct (Qlt_le_dec a b)
      end
  end.

Lemma Qeq_bool_true (a b : Q) : Qeq_bool a b = true -> a == b.
Proof. apply Qeq_bool_eq. Qed.

Lemma Qeq_bool_false (a b : Q) : Qeq_bool a b = false -> ~ a == b.
Proof. intros H E. apply Qeq_eq_bool in E. congruence. Qed.

Lemma clamp_bounds (lo hi v : Q) :
  lo <= hi -> lo <= clamp lo hi v /\ clamp lo hi v <= hi.
Proof. intros H. unfold clamp. split_minmax; lra. Qed.

(** The specification's nearest edge is nearest, and strictly nearer than
    every edge that precedes it in the priority order. *)
Lemma spec_nearestEdge_nearest (w : Window) (c : Position) :
  (forall e, distanceTo w c (spec_nearestEdge w c) <= distanceTo w c e)
  /\ (forall e, before e (spec_nearestEdge w c) ->
                distanceTo w c (spec_nearestEdge w c) < distanceTo w c e).
Proof.
  unfold spec_nearestEdge. cbn [fold_left].
  split_comparisons;
  (split; intros e; destruct e; cbn [before] in *;
   intros; try contradiction; lra).
Qed.

(** The handler snaps to the edge it takes. *)
Lemma handleCollapse_position (w : Window) (p : PanelState) :
  position (handleCollapse w p)
  = spec_snap w (panelCenter p) (chosenEdge w (panelCenter p)).
Proof.
  unfold handleCollapse. cbv zeta. cbn [position setIsCollapsed setPosition].
  unfold chosenEdge, spec_snap, clamp, panelCenter. cbn [fold_left].
  split_comparisons; cbn [offsetTo x y] in *.
  all: set (cx := x (position p) + width (size p) / 2) in *;
    set (cy := y (position p) + height (size p) / 2) in *;
    set (vw := innerWidth w) in *; set (vh := innerHeight w) in *;
    clearbody cx cy vw vh.
  all: repeat match goal with
    | |- context [Qeq_bool ?a ?b] =>
        let E := fresh "E" in
        destruct (Qeq_bool a b) eqn:E;
        [apply Qeq_bool_true in E | apply Qeq_bool_false in E]
    end.
  all: try reflexivity.
  all: exfalso; split_minmax; lra.
Qed.

(** For a point in the viewport the offsets are the distances, and the
    edge the handler takes is the nearest. *)
Lemma chosenEdge_inside (w : Window) (c : Position) :
  inside w c -> chosenEdge w c = spec_nearestEdge w c.
Proof.
  intros [X0 [X1 [Y0 Y1]]].
  assert (D : forall e, distanceTo w c e == offsetTo w c e).
  { intros e. unfold distanceTo.
    assert (0 <= offsetTo w c e) by (destruct e; cbn [offsetTo]; lra).
    split_minmax; lra. }
  pose proof (D LeftEdge) as Dl. pose proof (D RightEdge) as Dr.
  pose proof (D TopEdge) as Dt. pose proof (D BottomEdge) as Db.
  clear D. unfold chosenEdge, spec_nearestEdge. cbn [fold_left].
  split_comparisons; cbv iota in *; try reflexivity; exfalso; lra.
Qed.

(** The window-resize handler moves the position to the nearest point of
    the allowed range and touches nothing else. *)
Lemma handleWindowResize_spec (w : Window) (p : PanelState) :
  0 <= x (position p) -> 0 <= y (position p) ->
  x (position (handleWindowResize w p))
  == Qmin (x (position p)) (Qmax 0 (innerWidth w - footprintWidth p))
  /\ y (position (handleWindowResize w p))
     == Qmin (y (position p)) (Qmax 0 (innerHeight w - footprintHeight p)).
Proof.
  intros Hx Hy. unfold handleWindowResize, footprintWidth, footprintHeight.
  cbv zeta.
  set (px := x (position p)) in *. set (py := y (position p)) in *.
  set (fw := if isCollapsed p then 48 else width (size p)).
  set (fh := if isCollapsed p then 48 else height (size p)).
  destruct (Qeq_bool (Qmin px (Qmax 0 (innerWidth w - fw))) px) eqn:Ex;
    destruct (Qeq_bool (Qmin py (Qmax 0 (innerHeight w - fh))) py) eqn:Ey;
    cbn [negb orb position setPosition x y];
    try apply Qeq_bool_true in Ex; try apply Qeq_bool_true in Ey;
    subst px py; clearbody fw fh;
    split; split_minmax; lra.
Qed.

Lemma handleWindowResize_frame (w : Window) (p : PanelState) :
  isCollapsed (handleWindowResize w p) = isCollapsed p
  /\ size (handleWindowResize w p) = size p
  /\ isDraggingRef (handleWindowResize w p) = isDraggingRef p
  /\ isResizingRef (handleWindowResize w p) = isResizingRef p
  /\ hasDraggedRef (handleWindowResize w p) = hasDraggedRef p.
Proof.
  unfold handleWindowResize. cbv zeta.
  destruct (_ || _); repeat split; reflexivity.
Qed.

Lemma runEffects_frame (w : Window) (old new : PanelState) :
  isCollapsed (runEffects w old new) = isCollapsed new
  /\ size (runEffects w old new) = size new
  /\ isDraggingRef (runEffects w old new) = isDraggingRef new
  /\ isResizingRef (runEffects w old new) = isResizingRef new
  /\ hasDraggedRef (runEffects w old new) = hasDraggedRef new.
Proof.
  unfold runEffects. destruct (depsChanged old new).
  - apply handleWindowResize_frame.
  - repeat split; reflexivity.
Qed.

Lemma footprint_frame (p q : PanelState) :
  isCollapsed p = isCollapsed q -> size p = size q ->
  footprintWidth p = footprintWidth q
  /\ footprintHeight p = footprintHeight q.
Proof.
  unfold footprintWidth, footprintHeight. intros -> ->. split; reflexivity.
Qed.

(** Re-clamping a non-negative position in a viewport that holds the
    footprint gives containment. *)
Lemma handleWindowResize_contained (w : Window) (p : PanelState) :
  0 <= x (position p) -> 0 <= y (position p) ->
  footprintWidth p <= innerWidth w ->
  footprintHeight p <= innerHeight w ->
  contained {| window := w; panel := handleWindowResize w p |}.
Proof.
  intros Hx Hy Fw Fh.
  destruct (handleWindowResize_spec w p Hx Hy) as [Sx Sy].
  destruct (handleWindowResize_frame w p) as [Fc [Fs _]].
  destruct (footprint_frame _ _ Fc Fs) as [Ew Eh].
  unfold contained. cbn [window panel]. rewrite Ew, Eh.
  revert Sx Sy.
  generalize (x (position (handleWindowResize w p))).
  generalize (y (position (handleWindowResize w p))).
  intros y' x' Sx Sy. split_minmax; repeat split; lra.
Qed.

Lemma depsChanged_false (old new : PanelState) :
  depsChanged old new = false ->
  width (size old) == width (size new)
  /\ height (size old) == height (size new)
  /\ isCollapsed old = isCollapsed new.
Proof.
  unfold depsChanged. intros H.
  apply orb_false_elim in H. destruct H as [H Hc].
  apply orb_false_elim in H. destruct H as [Hw Hh].
  apply negb_false_iff in Hw, Hh, Hc.
  repeat split.
  - now apply Qeq_bool_true.
  - now apply Qeq_bool_true.
  - now apply Bool.eqb_prop.
Qed.

Lemma depsChanged_footprint (old new : PanelState) :
  depsChanged old new = false ->
  footprintWidth old == footprintWidth new
  /\ footprintHeight old == footprintHeight new.
Proof.
  intros H. destruct (depsChanged_false _ _ H) as [Hw [Hh Hc]].
  unfold footprintWidth, footprintHeight. rewrite Hc.
  destruct (isCollapsed new); split; (reflexivity || assumption).
Qed.

(** After the effects of a render, either the position has been
    re-clamped (it is contained, and has moved neither right nor down), or
    no dependency changed and the state is as the handler left it. *)
Lemma runEffects_cases (w : Window) (old new : PanelState) :
  0 <= x (position new) -> 0 <= y (position new) ->
  footprintWidth new <= innerWidth w ->
  footprintHeight new <= innerHeight w ->
  (depsChanged old new = true
   /\ contained {| window := w; panel := runEffects w old new |}
   /\ x (position (runEffects w old new)) <= x (position new)
   /\ y (position (runEffects w old new)) <= y (position new))
  \/ (depsChanged old new = false /\ runEffects w old new = new).
Proof.
  intros Hx Hy Fw Fh. unfold runEffects.
  destruct (depsChanged old new); [left | right; split; reflexivity].
  split; [reflexivity|].
  split; [now apply handleWindowResize_contained|].
  destruct (handleWindowResize_spec w new Hx Hy) as [Sx Sy].
  revert Sx Sy.
  generalize (x (position (handleWindowResize w new))).
  generalize (y (position (handleWindowResize w new))).
  intros y' x' Sx Sy. split_minmax; split; lra.
Qed.

Lemma handleMouseMove_spec (w : Window) (cx cy : Q) (p : PanelState) :
  isCollapsed (handleMouseMove w cx cy p) = isCollapsed p
  /\ isDraggingRef (handleMouseMove w cx cy p) = isDraggingRef p
  /\ hasDraggedRef (handleMouseMove w cx cy p)
     = isDraggingRef p || hasDraggedRef p
  /\ position (handleMouseMove w cx cy p)
     = (if isDraggingRef p then
          {| x := Qmax 0 (Qmin (innerWidth w - footprintWidth p)
                               (cx - x (dragStartRef p)));
             y := Qmax 0 (Qmin (innerHeight w - 50)
                               (cy - y (dragStartRef p))) |}
        else position p)
  /\ size (handleMouseMove w cx cy p)
     = (if isResizingRef p then
          {| width := Qmax MIN_PANEL_SIZE_width
                        (width (resizeStartRef p)
                         + (cx - x (dragStartRef p)));
             height := Qmax MIN_PANEL_SIZE_height
                         (height (resizeStartRef p)
                          + (cy - y (dragStartRef p))) |}
        else size p).
Proof.
  unfold handleMouseMove, footprintWidth.
  destruct (isDraggingRef p) eqn:D, (isResizingRef p) eqn:R;
    cbv zeta; cbn; rewrite ?R; cbn; rewrite ?D, ?R; repeat split;
    reflexivity.
Qed.

Lemma contained_weaklyContained (m : Machine) :
  contained m -> weaklyContained m.
Proof.
  unfold contained, weaklyContained. intros [A [B [C D]]].
  repeat split; try assumption.
  split_minmax; lra.
Qed.

(** A panel inside the viewport is left as it is by the resize handler. *)
Lemma handleWindowResize_contained_id (w : Window) (p : PanelState) :
  contained {| window := w; panel := p |} ->
  handleWindowResize w p = p.
Proof.
  unfold contained, footprintWidth, footprintHeight. cbn [window panel].
  intros [X0 [X1 [Y0 Y1]]]. unfold handleWindowResize. cbv zeta.
  assert (Ex : Qeq_bool
                 (Qmin (x (position p))
                    (Qmax 0 (innerWidth w
                             - (if isCollapsed p then 48
                                else width (size p)))))
                 (x (position p)) = true).
  { apply Qeq_eq_bool. split_minmax; lra. }
  assert (Ey : Qeq_bool
                 (Qmin (y (position p))
                    (Qmax 0 (innerHeight w
                             - (if isCollapsed p then 48
                                else height (size p)))))
                 (y (position p)) = true).
  { apply Qeq_eq_bool. split_minmax; lra. }
  rewrite Ex, Ey. reflexivity.
Qed.

(** In a viewport of at least 60 by 60 the icon is put inside the
    viewport, and the effect that follows the render leaves it there. *)
Lemma handleCollapse_padded (w : Window) (p : PanelState) :
  60 <= innerWidth w -> 60 <= innerHeight w ->
  0 <= x (position (handleCollapse w p))
  /\ x (position (handleCollapse w p)) <= innerWidth w - 48
  /\ 0 <= y (position (handleCollapse w p))
  /\ y (position (handleCollapse w p)) <= innerHeight w - 48
  /\ (72 <= innerWidth w ->
      12 <= x (position (handleCollapse w p))
      /\ x (position (handleCollapse w p)) <= innerWidth w - 60)
  /\ (72 <= innerHeight w ->
      12 <= y (position (handleCollapse w p))
      /\ y (position (handleCollapse w p)) <= innerHeight w - 60).
Proof.
  intros Hw Hh. rewrite handleCollapse_position.
  destruct (chosenEdge w (panelCenter p)); unfold spec_snap, clamp;
    cbn [x y]; repeat split;
    try (match goal with |- (_ <= _) -> _ => intros ?; split end);
    split_minmax; lra.
Qed.

Lemma step_collapse (w : Window) (p : PanelState) :
  isCollapsed p = false ->
  60 <= innerWidth w -> 60 <= innerHeight w ->
  step {| window := w; panel := p |} click_collapse
  = {| window := w; panel := handleCollapse w p |}.
Proof.
  intros C Hw Hh. cbn [step panel window]. rewrite C. f_equal.
  unfold runEffects.
  destruct (depsChanged p (handleCollapse w p)); [|reflexivity].
  apply handleWindowResize_contained_id.
  destruct (@handleCollapse_padded w p Hw Hh) as [X0 [X1 [Y0 [Y1 _]]]].
  unfold contained, footprintWidth, footprintHeight.
  cbn [window panel]. change (isCollapsed (handleCollapse w p)) with true.
  cbv iota. repeat split; lra.
Qed.

End PanelFacts.

(* ================================================================== *)
(** * Properties of the panel geometry controller *)
(* ================================================================== *)

Module PanelProperties.
Import Panel Samples PanelFacts.
Local Open Scope Q_scope.

(** ** Collapse *)

(** Centre (500,500) in a 1000 by 800 viewport: the bottom edge, 300 away,
    is strictly nearest. *)
Lemma collapse_center_500_500 :
  panelCenter (panelAt 340 300 320 400) = {| x := 340 + 320 / 2;
                                             y := 300 + 400 / 2 |}
  /\ spec_nearestEdge sampleWindow (panelCenter (panelAt 340 300 320 400))
     = BottomEdge
  /\ position (handleCollapse sampleWindow (panelAt 340 300 320 400))
     = spec_snap sampleWindow (panelCenter (panelAt 340 300 320 400))
         BottomEdge.
Proof. repeat split; vm_compute; reflexivity. Qed.

(** Centre (400,400): left, top and bottom are all 400 away; left wins. *)
Lemma collapse_tie_left_first :
  spec_nearestEdge sampleWindow (panelCenter (panelAt 240 200 320 400))
  = LeftEdge
  /\ Qeq_bool (x (position (handleCollapse sampleWindow
                              (panelAt 240 200 320 400)))) 12 = true.
Proof. split; vm_compute; reflexivity. Qed.

(** Centre (600,400): right, top and bottom tie at 400; right wins. *)
Lemma collapse_tie_right_before_top :
  spec_nearestEdge sampleWindow (panelCenter (panelAt 440 200 320 400))
  = RightEdge.
Proof. vm_compute. reflexivity. Qed.

(** The panel of [oversizedMachine] is expanded with its centre at
    (1700,100) in a 1200 by 800 viewport.  The top edge, 100 away, is the
    nearest; the right edge is 500 away.  Collapse compares the offsets
    1700, -500, 100 and 700, takes the right edge, and puts the icon at
    (1140,76), not at (1140,12) under the top edge.  And in a 50 by 40
    viewport the effect that follows the render moves the icon once more:
    it settles at (2,0), which is the snap position of no edge. *)
Lemma collapse_nearest_edge_counterexample :
  let m := oversizedMachine in
  let c := panelCenter (panel m) in
  let n := mount tinyWindow in
  (isCollapsed (panel m) = false
   /\ x c == 1700 /\ y c == 100
   /\ innerWidth (window m) == 1200 /\ innerHeight (window m) == 800
   /\ spec_nearestEdge (window m) c = TopEdge
   /\ distanceTo (window m) c TopEdge == 100
   /\ distanceTo (window m) c RightEdge == 500
   /\ x (position (panel (step m click_collapse))) == 1140
   /\ y (position (panel (step m click_collapse))) == 76
   /\ y (spec_snap (window m) c TopEdge) == 12)
  /\ ~ (forall m, isCollapsed (panel m) = false ->
           let c := panelCenter (panel m) in
           y (position (panel (step m click_collapse)))
           == y (spec_snap (window m) c (spec_nearestEdge (window m) c)))
  /\ (isCollapsed (panel n) = false
      /\ x (position (panel (step n click_collapse))) == 2
      /\ y (position (panel (step n click_collapse))) == 0
      /\ forall e,
           ~ (x (position (panel (step n click_collapse)))
              == x (spec_snap (window n) (panelCenter (panel n)) e)
              /\ y (position (panel (step n click_collapse)))
                 == y (spec_snap (window n) (panelCenter (panel n)) e))).
Proof.
  cbv zeta. split; [|split].
  - repeat split; vm_compute; reflexivity.
  - intros H. specialize (H oversizedMachine eq_refl). cbv zeta in H.
    vm_compute in H. discriminate H.
  - repeat split; try (vm_compute; reflexivity).
    intros e [Hx Hy]. destruct e; vm_compute in Hx, Hy; discriminate.
Qed.

(** C6 (amended). For every expanded panel whose centre lies in the
    viewport, in a viewport of at least 72 by 72 pixels (the icon with its
    padding on both sides), the collapse transition snaps the panel to the
    viewport edge nearest to the panel's centre: the edge is at least as
    near as every edge, and strictly nearer than every edge that precedes
    it in the order left, right, top, bottom.  Against that edge the icon
    sits at the padding of 12; along it the 48-pixel icon is centred on
    the previous panel centre and clamped to the viewport minus the
    padding, so that it keeps 12 pixels to every side.  The effect that
    follows the render does not move the icon, the panel ends up collapsed
    and its size is kept. *)
Theorem collapse_snaps_to_nearest_edge (m : Machine) :
  isCollapsed (panel m) = false ->
  inside (window m) (panelCenter (panel m)) ->
  72 <= innerWidth (window m) -> 72 <= innerHeight (window m) ->
  let w := window m in
  let c := panelCenter (panel m) in
  let e := spec_nearestEdge w c in
  let m' := step m click_collapse in
  (forall e', distanceTo w c e <= distanceTo w c e')
  /\ (forall e', before e' e -> distanceTo w c e < distanceTo w c e')
  /\ position (panel m') = spec_snap w c e
  /\ (12 <= x (position (panel m'))
      /\ x (position (panel m')) + 48 + 12 <= innerWidth w
      /\ 12 <= y (position (panel m'))
      /\ y (position (panel m')) + 48 + 12 <= innerHeight w)
  /\ isCollapsed (panel m') = true
  /\ size (panel m') = size (panel m).
Proof.
  destruct m as [w p]. cbn [window panel]. intros C I Hw Hh. cbv zeta.
  assert (Hw' : 60 <= innerWidth w) by lra.
  assert (Hh' : 60 <= innerHeight w) by lra.
  destruct (spec_nearestEdge_nearest w (panelCenter p)) as [N T].
  split; [exact N|]. split; [exact T|].
  rewrite (@step_collapse w p C Hw' Hh'). cbn [panel].
  destruct (@handleCollapse_padded w p Hw' Hh') as [_ [_ [_ [_ [Px Py]]]]].
  destruct (Px Hw) as [X0 X1]. destruct (Py Hh) as [Y0 Y1].
  rewrite <- (@chosenEdge_inside w (panelCenter p) I).
  split; [apply handleCollapse_position|].
  split; [repeat split; lra|].
  split; reflexivity.
Qed.

(** Centre (500,500) in a 1000 by 800 viewport: the icon goes to the
    bottom edge, at (476,740). *)
Lemma collapse_snaps_to_nearest_edge_witness :
  let m := {| window := sampleWindow; panel := panelAt 340 300 320 400 |} in
  let w := window m in
  let c := panelCenter (panel m) in
  let e := spec_nearestEdge w c in
  let m' := step m click_collapse in
  (forall e', distanceTo w c e <= distanceTo w c e')
  /\ (forall e', before e' e -> distanceTo w c e < distanceTo w c e')
  /\ position (panel m') = spec_snap w c e
  /\ (12 <= x (position (panel m'))
      /\ x (position (panel m')) + 48 + 12 <= innerWidth w
      /\ 12 <= y (position (panel m'))
      /\ y (position (panel m')) + 48 + 12 <= innerHeight w)
  /\ isCollapsed (panel m') = true
  /\ size (panel m') = size (panel m).
Proof.
  intros m.
  apply (@collapse_snaps_to_nearest_edge m); cbn [m window panel].
  - reflexivity.
  - vm_compute. repeat split; discriminate.
  - vm_compute. discriminate.
  - vm_compute. discriminate.
Defined.

(** ** Expand against drag *)

Lemma step_mousemove_flags (m : Machine) (cx cy : Q) :
  isCollapsed (panel (step m (mousemove cx cy))) = isCollapsed (panel m)
  /\ isDraggingRef (panel (step m (mousemove cx cy)))
     = isDraggingRef (panel m)
  /\ hasDraggedRef (panel (step m (mousemove cx cy)))
     = isDraggingRef (panel m) || hasDraggedRef (panel m).
Proof.
  cbn [step panel].
  destruct (runEffects_frame (window m) (panel m)
              (handleMouseMove (window m) cx cy (panel m)))
    as [Ec [_ [Ed [_ Eh]]]].
  destruct (handleMouseMove_spec (window m) cx cy (panel m))
    as [Fc [Fd [Fh _]]].
  rewrite Ec, Ed, Eh, Fc, Fd, Fh. repeat split; reflexivity.
Qed.

Lemma moves_flags (moves : list (Q * Q)) :
  forall m,
    isCollapsed (panel m) = true ->
    isDraggingRef (panel m) = true ->
    let m' := run m (map (fun xy => mousemove (fst xy) (snd xy)) moves) in
    isCollapsed (panel m') = true
    /\ isDraggingRef (panel m') = true
    /\ hasDraggedRef (panel m')
       = match moves with
         | [] => hasDraggedRef (panel m)
         | _ :: _ => true
         end.
Proof.
  induction moves as [|[a b] moves IH]; intros m C D.
  - cbn. repeat split; assumption.
  - cbn [map fst snd run fold_left].
    destruct (step_mousemove_flags m a b) as [Ec [Ed Eh]].
    rewrite C in Ec. rewrite D in Ed. rewrite D in Eh. cbn [orb] in Eh.
    destruct (IH (step m (mousemove a b)) Ec Ed) as [C' [D' H']].
    fold (run (step m (mousemove a b))
            (map (fun xy => mousemove (fst xy) (snd xy)) moves)).
    repeat split; try assumption.
    rewrite H'. destruct moves; [exact Eh | reflexivity].
Qed.

(** C7. For every pointer gesture on the collapsed icon (pointer-down, any
    number of pointer moves, pointer-up, then the click delivered to the
    button), the panel expands exactly when the gesture contained no
    pointer move: with no move it ends expanded, with one or more moves it
    stays collapsed. *)
Theorem expand_only_without_move
    (m : Machine) (downX downY : Q) (moves : list (Q * Q)) :
  isCollapsed (panel m) = true ->
  isCollapsed (panel (run m (gesture downX downY moves)))
  = match moves with
    | [] => false
    | _ :: _ => true
    end.
Proof.
  intros C. unfold gesture, run. cbn [fold_left].
  rewrite fold_left_app.
  set (m1 := step m (mousedown_drag downX downY)).
  assert (C1 : isCollapsed (panel m1) = true) by exact C.
  assert (D1 : isDraggingRef (panel m1) = true) by reflexivity.
  destruct (moves_flags moves m1 C1 D1) as [C2 [D2 H2]].
  unfold run in C2, D2, H2.
  set (m2 := fold_left step
               (map (fun xy => mousemove (fst xy) (snd xy)) moves) m1) in *.
  change (hasDraggedRef (panel m1)) with false in H2.
  cbn [fold_left step panel window].
  change (isCollapsed (handleMouseUp (panel m2)))
    with (isCollapsed (panel m2)).
  rewrite C2. cbn [panel].
  destruct (runEffects_frame (window m2) (handleMouseUp (panel m2))
              (handleMinimizedClick (handleMouseUp (panel m2))))
    as [Ec _].
  rewrite Ec. unfold handleMinimizedClick.
  change (hasDraggedRef (handleMouseUp (panel m2)))
    with (hasDraggedRef (panel m2)).
  rewrite H2. destruct moves; cbn; [reflexivity | exact C2].
Qed.

(** From the collapsed icon: down and up expands, down, move by 10 pixels
    and up does not. *)
Lemma expand_only_without_move_witness :
  let m := {| window := sampleWindow;
              panel := handleCollapse sampleWindow initialPanel |} in
  isCollapsed (panel (run m (gesture 30 400 []))) = false
  /\ isCollapsed (panel (run m (gesture 30 400 [(40, 410)]))) = true.
Proof.
  intros m. split.
  - apply (@expand_only_without_move m 30 400 []). reflexivity.
  - apply (@expand_only_without_move m 30 400 [(40, 410)]). reflexivity.
Defined.

(** ** Viewport containment *)

(** Dragging the default 320 by 400 panel to the cursor (-50,-50) in a
    1200 by 800 viewport stops at (0,0). *)
Lemma drag_clamp_sample :
  let m := {| window := wideWindow; panel := initialPanel |} in
  position (panel (run m [mousedown_drag 20 100; mousemove (-50) (-50)]))
  = {| x := Qmax 0 (Qmin (1200 - 320) (-50 - (20 - 20)));
       y := Qmax 0 (Qmin (800 - 50) (-50 - (100 - 100))) |}
  /\ Qmax 0 (Qmin (1200 - 320) (-50 - (20 - 20))) == 0.
Proof. split; [reflexivity | vm_compute; reflexivity]. Qed.

(** The default panel, contained at (20,100) in a 1200 by 800 viewport, is
    dragged down: the drag stops with the top edge at 750, and the 400
    pixel high panel reaches 350 pixels below the viewport.  And when the
    window shrinks to 300 by 300 the 320 by 400 panel is pinned at (0,0),
    where it cannot be contained. *)
Lemma drag_leaves_viewport_counterexample :
  let m := {| window := wideWindow; panel := initialPanel |} in
  contained m
  /\ ~ contained (run m [mousedown_drag 30 110; mousemove 30 2000])
  /\ ~ contained (run m [window_resize 300 300]).
Proof.
  split; [|split].
  - vm_compute. repeat split; discriminate.
  - intros [_ [_ [_ H]]]. vm_compute in H. apply H. reflexivity.
  - intros [_ [H _]]. vm_compute in H. apply H. reflexivity.
Qed.

Lemma mousemove_bounds (m : Machine) (cx cy : Q) :
  roomy (step m (mousemove cx cy)) ->
  (weaklyContained m -> weaklyContained (step m (mousemove cx cy)))
  /\ (nonNegative m ->
      depsChanged (panel m) (handleMouseMove (window m) cx cy (panel m))
      = true ->
      contained (step m (mousemove cx cy)))
  /\ (isDraggingRef (panel m) = true ->
      dragContained (step m (mousemove cx cy))).
Proof.
  destruct m as [w p]. cbn [step window panel].
  set (q := handleMouseMove w cx cy p).
  destruct (handleMouseMove_spec w cx cy p) as [Fc [_ [_ [Fp _]]]].
  fold q in Fc, Fp.
  destruct (runEffects_frame w p q) as [Ec [Es _]].
  destruct (footprint_frame _ _ Ec Es) as [Ew Eh].
  intros [[Rw Rh] [R60w R60h]]. cbn [window panel] in Rw, Rh, R60w, R60h.
  rewrite Ew in Rw. rewrite Eh in Rh.
  assert (NN : isDraggingRef p = true
               \/ (0 <= x (position p) /\ 0 <= y (position p)) ->
               0 <= x (position q) /\ 0 <= y (position q)).
  { rewrite Fp. intros [D | [Hx Hy]].
    - rewrite D. cbn [x y]. split; split_minmax; lra.
    - destruct (isDraggingRef p); cbn [x y];
        split; try assumption; split_minmax; lra. }
  assert (DY : isDraggingRef p = true ->
               x (position q) <= Qmax 0 (innerWidth w - footprintWidth p)
               /\ y (position q) <= innerHeight w - 50).
  { intros D. rewrite Fp, D. cbn [x y]. split; split_minmax; lra. }
  split; [|split].
  - intros Wk. pose proof Wk as [Wx [Wx' [Wy Wy']]].
    cbn [window panel] in Wx, Wx', Wy, Wy'.
    destruct (NN (or_intror (conj Wx Wy))) as [Qx Qy].
    destruct (@runEffects_cases w p q Qx Qy Rw Rh)
      as [[_ [Ct _]] | [Dc Eq]].
    + now apply contained_weaklyContained.
    + rewrite Eq. destruct (depsChanged_footprint _ _ Dc) as [Gw Gh].
      unfold weaklyContained. cbn [window panel].
      destruct (isDraggingRef p) eqn:D.
      * destruct (DY eq_refl) as [Dx Dy'].
        repeat split; try assumption; split_minmax; lra.
      * rewrite Fp. repeat split; try assumption; split_minmax; lra.
  - intros [Hx Hy] Dc. cbn [window panel] in Hx, Hy.
    destruct (NN (or_intror (conj Hx Hy))) as [Qx Qy].
    destruct (@runEffects_cases w p q Qx Qy Rw Rh)
      as [[_ [Ct _]] | [Dc' _]]; [exact Ct | congruence].
  - intros D. destruct (NN (or_introl D)) as [Qx Qy].
    destruct (DY D) as [Dx Dy'].
    destruct (@runEffects_cases w p q Qx Qy Rw Rh)
      as [[_ [Ct [Lx Ly]]] | [Dc Eq]].
    + destruct Ct as [Cx [Cx' [Cy Cy']]].
      cbn [window panel] in Cx, Cx', Cy, Cy'.
      unfold dragContained. cbn [window panel].
      repeat split; try assumption; lra.
    + rewrite Eq. destruct (depsChanged_footprint _ _ Dc) as [Gw Gh].
      unfold dragContained. cbn [window panel].
      repeat split; try assumption; split_minmax; lra.
Qed.

Lemma depsChanged_collapse_flip (old new : PanelState) :
  isCollapsed old <> isCollapsed new -> depsChanged old new = true.
Proof.
  unfold depsChanged. intros H.
  destruct (isCollapsed old), (isCollapsed new); try congruence;
    cbn; apply orb_true_r.
Qed.

Lemma depsChanged_same (p : PanelState) : depsChanged p p = false.
Proof.
  unfold depsChanged. rewrite !Qeq_bool_refl, Bool.eqb_reflx. reflexivity.
Qed.

Lemma handleCollapse_nonNegative (w : Window) (p : PanelState) :
  60 <= innerWidth w -> 60 <= innerHeight w ->
  0 <= x (position (handleCollapse w p))
  /\ 0 <= y (position (handleCollapse w p)).
Proof.
  intros Hw Hh. rewrite handleCollapse_position.
  destruct (chosenEdge w (panelCenter p)); unfold spec_snap, clamp;
    cbn [x y]; split; split_minmax; lra.
Qed.

Lemma collapse_bounds (m : Machine) :
  isCollapsed (panel m) = false ->
  60 <= innerWidth (window m) -> 60 <= innerHeight (window m) ->
  contained (step m click_collapse).
Proof.
  destruct m as [w p]. cbn [step window panel]. intros C Hw Hh.
  rewrite C. cbn [window panel]. unfold runEffects.
  rewrite depsChanged_collapse_flip
    by (rewrite C; cbn; discriminate).
  destruct (@handleCollapse_nonNegative w p Hw Hh) as [Nx Ny].
  apply handleWindowResize_contained; try assumption;
    unfold footprintWidth, footprintHeight; cbn; lra.
Qed.

Lemma expand_bounds (m : Machine) :
  isCollapsed (panel m) = true ->
  hasDraggedRef (panel m) = false ->
  nonNegative m ->
  fits (step m click_minimized) ->
  contained (step m click_minimized).
Proof.
  destruct m as [w p]. cbn [step window panel].
  intros C D [Nx Ny]. cbn [window panel] in Nx, Ny.
  rewrite C. unfold handleMinimizedClick. rewrite D. cbn [negb].
  unfold runEffects.
  rewrite depsChanged_collapse_flip by (rewrite C; cbn; discriminate).
  intros [Fw Fh]. cbn [window panel] in Fw, Fh.
  destruct (handleWindowResize_frame w (setIsCollapsed false p))
    as [Ec [Es _]].
  destruct (footprint_frame _ _ Ec Es) as [Ew Eh].
  rewrite Ew in Fw. rewrite Eh in Fh.
  now apply handleWindowResize_contained.
Qed.

Lemma reflow_bounds (m : Machine) (iw ih : Q) :
  nonNegative m ->
  fits (step m (window_resize iw ih)) ->
  contained (step m (window_resize iw ih)).
Proof.
  destruct m as [w p]. cbn [step window panel].
  intros [Nx Ny] [Fw Fh]. cbn [window panel] in Nx, Ny, Fw, Fh.
  destruct (handleWindowResize_frame
              {| innerWidth := iw; innerHeight := ih |} p) as [Ec [Es _]].
  destruct (footprint_frame _ _ Ec Es) as [Ew Eh].
  rewrite Ew in Fw. rewrite Eh in Fh.
  now apply handleWindowResize_contained.
Qed.

Lemma weaklyContained_nonNegative (m : Machine) :
  weaklyContained m -> nonNegative m.
Proof. intros [A [_ [B _]]]. split; assumption. Qed.

(** The bounds one transition keeps, and those it establishes. *)
Lemma step_bounds (m : Machine) (e : Event) :
  roomy (step m e) ->
  (weaklyContained m -> weaklyContained (step m e))
  /\ (nonNegative m -> settles m e = true -> contained (step m e))
  /\ (drags m e = true -> dragContained (step m e)).
Proof.
  intros R. destruct e as [cx cy | cx cy | cx cy | | | | iw ih].
  - (* drag-start *)
    split; [|split]; [intros H; exact H | discriminate 2 | discriminate].
  - (* resize-start *)
    split; [|split]; [| discriminate 2 | discriminate].
    cbn [step]. destruct (isCollapsed (panel m)); intros H; exact H.
  - (* pointer move *)
    destruct (@mousemove_bounds m cx cy R) as [A [B C]].
    split; [exact A|]. split; [|exact C].
    intros N S. cbn [settles] in S. apply andb_true_iff in S.
    apply B; [exact N | apply S].
  - (* pointer up *)
    split; [|split]; [intros H; exact H | discriminate 2 | discriminate].
  - (* click on the minimized button *)
    split; [|split]; [| | discriminate].
    + intros Wk. cbn [step] in *.
      destruct (isCollapsed (panel m)) eqn:C; [|exact Wk].
      destruct (hasDraggedRef (panel m)) eqn:D.
      * unfold handleMinimizedClick, runEffects. rewrite D. cbn [negb].
        rewrite depsChanged_same. destruct m; exact Wk.
      * apply contained_weaklyContained.
        pose proof (@expand_bounds m C D
                      (weaklyContained_nonNegative Wk)) as X.
        cbn [step] in X. rewrite C in X. apply X. apply R.
    + intros N S. cbn [settles] in S. apply andb_true_iff in S.
      destruct S as [C D]. apply negb_true_iff in D.
      apply expand_bounds; try assumption. apply R.
  - (* collapse *)
    split; [|split]; [| | discriminate].
    + intros Wk. destruct (isCollapsed (panel m)) eqn:C.
      * cbn [step]. rewrite C. exact Wk.
      * apply contained_weaklyContained.
        destruct R as [_ [Rw Rh]].
        cbn [step] in Rw, Rh. rewrite C in Rw, Rh.
        now apply collapse_bounds.
    + intros _ S. cbn [settles] in S. apply negb_true_iff in S.
      destruct R as [_ [Rw Rh]].
      cbn [step] in Rw, Rh. rewrite S in Rw, Rh.
      now apply collapse_bounds.
  - (* window resize *)
    split; [|split]; [| | discriminate].
    + intros Wk. apply contained_weaklyContained.
      apply reflow_bounds; [now apply weaklyContained_nonNegative|].
      apply R.
    + intros N _. apply reflow_bounds; [exact N | apply R].
Qed.

(** C2 (amended). For every transition of the panel state machine that
    settles in a viewport holding the panel's footprint (and at least 60
    by 60):
    - every transition keeps 0 <= x <= viewportWidth - panelWidth and
      0 <= y, with y at most viewportHeight minus the smaller of the panel
      height and 50;
    - collapse, expand, viewport-reflow and a resize-move that changes the
      size, from a non-negative position, settle in full containment:
      0 <= x <= viewportWidth - panelWidth and
      0 <= y <= viewportHeight - panelHeight;
    - drag-move settles with 0 <= x <= viewportWidth - panelWidth and
      0 <= y <= viewportHeight - 50: its vertical bound is the fixed 50
      pixels, not the panel height.
    Width and height are the panel's size when expanded and the fixed 48
    when collapsed. *)
Theorem settled_position_bounds (m : Machine) (e : Event) :
  roomy (step m e) ->
  (weaklyContained m -> weaklyContained (step m e))
  /\ (nonNegative m -> settles m e = true -> contained (step m e))
  /\ (drags m e = true -> dragContained (step m e)).
Proof. exact (@step_bounds m e). Qed.

(** A drag-move of the default panel in a 1200 by 800 viewport. *)
Lemma settled_position_bounds_witness :
  let m := step {| window := wideWindow; panel := initialPanel |}
             (mousedown_drag 30 110) in
  dragContained (step m (mousemove 30 2000)).
Proof.
  intros m.
  refine (proj2 (proj2 (@settled_position_bounds m (mousemove 30 2000) _))
            eq_refl).
  unfold roomy, fits. vm_compute. repeat split; discriminate.
Defined.

(** On mount the default panel is contained in any viewport of at least
    320 by 400. *)
Lemma mount_contained (w : Window) :
  DEFAULT_PANEL_SIZE_width <= innerWidth w ->
  DEFAULT_PANEL_SIZE_height <= innerHeight w ->
  contained (mount w).
Proof.
  intros Hw Hh. unfold mount.
  apply handleWindowResize_contained; cbn; try assumption; lra.
Qed.

(** Along every run through roomy states the weak bounds hold. *)
Lemma run_weaklyContained (events : list Event) :
  forall m,
    weaklyContained m -> roomyAlong m events ->
    weaklyContained (run m events).
Proof.
  induction events as [|e events IH]; intros m Wk R.
  - exact Wk.
  - destruct R as [R1 R2]. cbn [run fold_left].
    apply (IH (step m e)); [|exact R2].
    now apply (proj1 (@step_bounds m e R1)).
Qed.

End PanelProperties.

(* ================================================================== *)
(** * More on text extraction and scanning *)
(* ================================================================== *)

Module ScannerExtras.
Import Scanner ScannerNotions Samples JsStringFacts ScannerFacts.

(** The text before truncation. *)
Lemma extractText_cases (e : Element) :
  exists t,
    extractText e
    = (if (MAX_PROMPT_TEXT_LENGTH <? JsString.length t)%nat
       then substring0 MAX_PROMPT_TEXT_LENGTH t +++ lit "..."
       else t)
    /\ ((baseText e = [] /\ imgCount e = 0 /\ t = [])
        \/ (baseText e = [] /\ imgCount e = 1
            /\ t = camera +++ lit " [Image]")
        \/ (baseText e = [] /\ (2 <= imgCount e)%nat
            /\ t = camera +++ lit " [" +++ ofNat (imgCount e)
                    +++ lit " Images]")
        \/ (baseText e <> [] /\ (1 <= imgCount e)%nat
            /\ t = camera +++ lit " " +++ baseText e)
        \/ (baseText e <> [] /\ imgCount e = 0 /\ t = baseText e)).
Proof.
  unfold extractText. fold (baseText e). cbv zeta.
  destruct (baseText e) as [|c b] eqn:B; cbn [truthy negb andb].
  - destruct (imgCount e) as [|[|n]] eqn:I; cbn [Nat.ltb Nat.leb Nat.eqb].
    + eexists; split; [reflexivity|]. left. repeat split.
    + eexists; split; [reflexivity|]. right; left. repeat split.
    + eexists; split; [reflexivity|]. right; right; left.
      repeat split. lia.
  - destruct (imgCount e) as [|n] eqn:I; cbn [Nat.ltb Nat.leb].
    + eexists; split; [reflexivity|]. right; right; right; right.
      repeat split. discriminate.
    + eexists; split; [reflexivity|]. right; right; right; left.
      repeat split; [discriminate | lia].
Qed.

(** X1. An element yields no text, and is therefore skipped by the scan,
    exactly when its trimmed text content is empty and it contains no
    image. *)
Theorem extractText_empty_iff (e : Element) :
  extractText e = [] <-> baseText e = [] /\ imgCount e = 0.
Proof.
  destruct (extractText_cases e) as [t [E C]]. rewrite E. split.
  - intros Z.
    assert (T : t = []).
    { destruct (MAX_PROMPT_TEXT_LENGTH <? JsString.length t)%nat eqn:L;
        [|exact Z].
      apply app_eq_nil in Z. destruct Z as [_ Z]. discriminate Z. }
    destruct C as [[B [I _]] | [[_ [_ C]] | [[_ [_ C]] | [[_ [_ C]] | [B [_ C]]]]]];
      try (rewrite C in T; discriminate T).
    + split; assumption.
    + exfalso. apply B. congruence.
  - intros [B I].
    destruct C as [[_ [_ C]] | [[_ [I' _]] | [[_ [I' _]] | [[B' _] | [B' _]]]]];
      try lia; try contradiction.
    rewrite C. reflexivity.
Qed.

(** X2. Whenever the element contains an image, the extracted text begins
    with the camera marker, whether or not the text was truncated. *)
Theorem extractText_camera_prefix (e : Element) :
  (1 <= imgCount e)%nat ->
  firstn 2 (extractText e) = camera.
Proof.
  intros I. destruct (extractText_cases e) as [t [E C]]. rewrite E.
  assert (T : exists r, t = 55357%N :: 56567%N :: r).
  { destruct C as [[_ [I' _]] | [[_ [_ C]] | [[_ [_ C]] | [[_ [_ C]] | [_ [I' _]]]]]];
      try lia; rewrite C; eexists; reflexivity. }
  destruct T as [r ->].
  destruct (MAX_PROMPT_TEXT_LENGTH <? _)%nat; reflexivity.
Qed.

Lemma extractText_camera_prefix_witness :
  firstn 2 (extractText
              {| nodeId := 0; textContent := Some (repeat 97%N 200);
                 imgCount := 3; rectTop := 0%Q; rectLeft := 0%Q |})
  = camera.
Proof.
  apply extractText_camera_prefix. cbn. lia.
Defined.

(** How the loop over the selectors can end. *)
Lemma forSelectors_outcome (doc : Document) (now : nat -> Z)
    (sels : list jsstring) :
  match forSelectors doc now sels [] 0 with
  | Ok found =>
      (found = [] /\ Forall (barren doc) sels)
      \/ (exists pre sel post els,
            sels = pre ++ sel :: post
            /\ Forall (barren doc) pre
            /\ querySelectorAll doc sel = Ok els
            /\ Exists (fun e => productive e = true) els
            /\ found = promptsOf now els)
  | Throw e =>
      exists pre sel post,
        sels = pre ++ sel :: post
        /\ Forall (barren doc) pre
        /\ throwing doc sel e
  end.
Proof.
  induction sels as [|sel sels IH].
  - left. split; [reflexivity | constructor].
  - destruct (querySelectorAll doc sel) as [els|e] eqn:Q.
    + destruct (existsb productive els) eqn:P.
      * apply existsb_exists in P. destruct P as [x [Hx Px]].
        assert (X : Exists (fun e => productive e = true) els)
          by (apply Exists_exists; eauto).
        rewrite (@forSelectors_stop_productive doc now sel sels els Q X).
        right. exists [], sel, sels, els. repeat split; auto.
      * assert (B : barren doc sel).
        { exists els. split; [exact Q|]. apply Forall_forall. intros x Hx.
          destruct (productive x) eqn:Px; [|reflexivity].
          assert (existsb productive els = true)
            by (apply existsb_exists; eauto).
          congruence. }
        rewrite (@forSelectors_skip_barren doc now sel sels B).
        destruct (forSelectors doc now sels [] 0) as [found|e].
        -- destruct IH as [[E F] | [pre [s0 [post [els' [E [F R]]]]]]].
           ++ left. split; [exact E | now constructor].
           ++ right. exists (sel :: pre), s0, post, els'.
              split; [now rewrite E|]. split; [now constructor | exact R].
        -- destruct IH as [pre [s0 [post [E [F T]]]]].
           exists (sel :: pre), s0, post.
           split; [now rewrite E|]. split; [now constructor | exact T].
    + cbn [forSelectors]. rewrite Q. cbn [bind].
      exists [], sel, sels. repeat split; [constructor | exact Q].
Qed.

Lemma number_index (now : nat -> Z) (l : list Element) :
  forall i, map index (number now i l) = seq (i + 1) (List.length l).
Proof.
  induction l as [|e l IH]; intros i; [reflexivity|].
  cbn [number map List.length seq mkPrompt index].
  rewrite IH. replace (S i + 1)%nat with (S (i + 1)) by lia. reflexivity.
Qed.

Lemma number_element (now : nat -> Z) (l : list Element) :
  forall i, map element (number now i l) = l.
Proof.
  induction l as [|e l IH]; intros i; [reflexivity|].
  cbn [number map mkPrompt element]. now rewrite IH.
Qed.

Lemma number_length (now : nat -> Z) (l : list Element) :
  forall i, List.length (number now i l) = List.length l.
Proof.
  induction l as [|e l IH]; intros i; [reflexivity|].
  cbn [number List.length]. now rewrite IH.
Qed.

(** X3. Every non-empty list a scan returns comes from exactly one
    selector of the configuration: every selector listed before it matched
    nothing productive, and the list holds that selector's productive
    elements, all of them, in query order. *)
Theorem scan_result_from_one_selector (doc : Document) (now : nat -> Z)
    (sels : list jsstring) (found : list ChatPrompt) :
  forSelectors doc now sels [] 0 = Ok found ->
  found <> [] ->
  exists pre sel post els,
    sels = pre ++ sel :: post
    /\ Forall (barren doc) pre
    /\ querySelectorAll doc sel = Ok els
    /\ map element found = filter productive els
    /\ map text found = map extractText (filter productive els).
Proof.
  intros E N. pose proof (forSelectors_outcome doc now sels) as O.
  rewrite E in O. destruct O as [[Z _] | [pre [sel [post [els [S [B [Q [_ F]]]]]]]]];
    [contradiction|].
  exists pre, sel, post, els. repeat split; try assumption.
  - rewrite F. apply number_element.
  - rewrite F. unfold promptsOf. generalize 0%nat.
    induction (filter productive els) as [|e l IH]; intros i;
      [reflexivity|].
    cbn [number map mkPrompt text]. now rewrite IH.
Qed.

Lemma scan_result_from_one_selector_witness :
  exists pre sel post els,
    [geminiFirst; geminiSecond] = pre ++ sel :: post
    /\ Forall (barren (document geminiPage)) pre
    /\ querySelectorAll (document geminiPage) sel = Ok els
    /\ map element (promptsOf (Date_now geminiPage) [hiBubble])
       = filter productive els
    /\ map text (promptsOf (Date_now geminiPage) [hiBubble])
       = map extractText (filter productive els).
Proof.
  apply (@scan_result_from_one_selector (document geminiPage)
           (Date_now geminiPage) [geminiFirst; geminiSecond]).
  - vm_compute. reflexivity.
  - discriminate.
Defined.

(** X4. The prompts of a scan are numbered 1, 2, ..., n in list order,
    whatever the document and the selectors. *)
Theorem scan_indices_consecutive (doc : Document) (now : nat -> Z)
    (sels : list jsstring) (found : list ChatPrompt) :
  forSelectors doc now sels [] 0 = Ok found ->
  map index found = seq 1 (List.length found).
Proof.
  intros E. pose proof (forSelectors_outcome doc now sels) as O.
  rewrite E in O.
  destruct O as [[-> _] | [pre [sel [post [els [_ [_ [_ [_ ->]]]]]]]]];
    [reflexivity|].
  unfold promptsOf. now rewrite number_index, number_length.
Qed.

Lemma scan_indices_consecutive_witness :
  map index (promptsOf (fun _ => 1000%Z) [hiBubble])
  = seq 1 (List.length (promptsOf (fun _ => 1000%Z) [hiBubble])).
Proof.
  apply (@scan_indices_consecutive
           (twoSelectorDocument [hiBubble] [longBubble])
           (fun _ => 1000%Z) [geminiFirst; geminiSecond]).
  vm_compute. reflexivity.
Defined.

(** ** Prompt ids *)

Lemma lit_injective (a b : string) : lit a = lit b -> a = b.
Proof.
  unfold lit. intros H.
  rewrite <- (string_of_list_ascii_of_string a),
          <- (string_of_list_ascii_of_string b).
  f_equal. revert H.
  generalize (list_ascii_of_string a), (list_ascii_of_string b).
  induction l as [|x l IH]; intros [|y l']; cbn [map]; intros H;
    try discriminate; [reflexivity|].
  injection H as Hx Hl. f_equal; [|now apply IH].
  rewrite <- (ascii_N_embedding x), <- (ascii_N_embedding y).
  now rewrite Hx.
Qed.

Lemma to_int_printable (z : Z) :
  Z.to_int z <> Decimal.Pos Decimal.Nil
  /\ Z.to_int z <> Decimal.Neg Decimal.Nil.
Proof.
  destruct z; cbn; split; try discriminate;
    intros [= H]; now apply DecimalPos.Unsigned.to_uint_nonnil in H.
Qed.

(** [String(n)] is one-to-one. *)
Lemma ofZ_injective (a b : Z) : ofZ a = ofZ b -> a = b.
Proof.
  unfold ofZ. intros H. apply lit_injective in H.
  destruct (to_int_printable a) as [A1 A2].
  destruct (to_int_printable b) as [B1 B2].
  pose proof (NilZero.isi _ A1 A2) as Ia.
  pose proof (NilZero.isi _ B1 B2) as Ib.
  rewrite H in Ia. rewrite Ia in Ib. injection Ib as E.
  rewrite <- (DecimalZ.of_to a), <- (DecimalZ.of_to b). now rewrite E.
Qed.

Lemma digits_no_hyphen (d : Decimal.uint) :
  ~ In hyphen (lit (NilEmpty.string_of_uint d)).
Proof.
  induction d; cbn; intros H; [contradiction | ..];
    (destruct H as [H | H]; [discriminate H | now apply IHd]).
Qed.

(** The decimal form of a natural number holds no hyphen. *)
Lemma ofNat_no_hyphen (n : nat) : ~ In hyphen (ofNat n).
Proof.
  unfold ofNat, ofZ. destruct (Z.of_nat n) as [|p|p] eqn:E; try lia.
  - cbn. intros [H | H]; [discriminate H | contradiction].
  - cbn [Z.to_int NilZero.string_of_int].
    pose proof (DecimalPos.Unsigned.to_uint_nonnil p) as NN.
    assert (X : NilZero.string_of_uint (Pos.to_uint p)
                = NilEmpty.string_of_uint (Pos.to_uint p))
      by (destruct (Pos.to_uint p); [contradiction | reflexivity ..]).
    rewrite X. apply digits_no_hyphen.
Qed.

Lemma cut_at_separator {A : Type} (c : A) (a b r1 r2 : list A) :
  ~ In c a -> ~ In c b -> a ++ c :: r1 = b ++ c :: r2 -> a = b.
Proof.
  revert b. induction a as [|x a IH]; intros [|y b] Ha Hb E.
  - reflexivity.
  - injection E as E _. exfalso. apply Hb. left. now symmetry.
  - injection E as E _. exfalso. apply Ha. now left.
  - injection E as -> E. f_equal. apply IH with (b := b); auto.
    + intros H. apply Ha. now right.
    + intros H. apply Hb. now right.
Qed.

(** Ids made with different counters differ, whatever the elements. *)
Lemma generatePromptId_counter (e e' : Element) (i j : nat) :
  generatePromptId e i = generatePromptId e' j -> i = j.
Proof.
  unfold generatePromptId. intros H.
  apply app_inv_head in H.
  change (lit "-") with [hyphen] in H. cbn [app] in H.
  apply cut_at_separator in H; try apply ofNat_no_hyphen.
  apply Nat2Z.inj. now apply ofZ_injective.
Qed.

Lemma number_ids (now : nat -> Z) (l : list Element) :
  forall i x,
    In x (map id (number now i l)) ->
    exists e k, (i <= k)%nat /\ x = generatePromptId e k.
Proof.
  induction l as [|e l IH]; intros i x H; [contradiction|].
  cbn [number map mkPrompt id] in H. destruct H as [<- | H].
  - exists e, i. split; [lia | reflexivity].
  - destruct (IH _ _ H) as [e' [k [L E]]]. exists e', k. split; [lia | exact E].
Qed.

Lemma number_NoDup (now : nat -> Z) (l : list Element) :
  forall i, NoDup (map id (number now i l)).
Proof.
  induction l as [|e l IH]; intros i; cbn [number map mkPrompt id];
    constructor; [|apply IH].
  intros H. destruct (number_ids _ _ _ _ H) as [e' [k [L E]]].
  apply generatePromptId_counter in E. lia.
Qed.

(** X5. Within one scan result no two prompts share an id, even when two
    elements have the same bounding box: the list can be rendered with
    the id as key. *)
Theorem scan_ids_unique (doc : Document) (now : nat -> Z)
    (sels : list jsstring) (found : list ChatPrompt) :
  forSelectors doc now sels [] 0 = Ok found ->
  NoDup (map id found).
Proof.
  intros E. pose proof (forSelectors_outcome doc now sels) as O.
  rewrite E in O.
  destruct O as [[-> _] | [pre [sel [post [els [_ [_ [_ [_ ->]]]]]]]]].
  - constructor.
  - apply number_NoDup.
Qed.

Lemma scan_ids_unique_witness :
  NoDup (map id (promptsOf (fun _ => 1000%Z) [hiBubble; hiBubble])).
Proof.
  apply (@scan_ids_unique (constantDocument [hiBubble; hiBubble])
           (fun _ => 1000%Z) [geminiFirst]).
  vm_compute. reflexivity.
Defined.

(** ** Outcomes of a scan *)

(** X6. When the platform is configured and every selector matches nothing
    productive, the scan completes and publishes the empty list, replacing
    whatever was published before, and clears the scanning flag. *)
Theorem scan_without_matches_publishes_empty
    (page : Page) (s : ScannerState) (cfg : PlatformConfig) :
  configOf page = Some cfg ->
  Forall (barren (document page)) (selectors cfg) ->
  exists s', scanForPrompts page s = Ok s'
             /\ prompts s' = [] /\ isScanning s' = false.
Proof.
  intros C B. destruct (scan_outcome page s) as [s' [E [_ [_ O]]]].
  rewrite C in O. destruct O as [F O].
  exists s'. split; [exact E|]. split; [|exact F].
  assert (N : forSelectors (document page) (Date_now page) (selectors cfg)
                [] 0 = Ok []).
  { clear O. induction B as [|sel sels Bs _ IH]; [reflexivity|].
    now rewrite forSelectors_skip_barren. }
  now rewrite N in O.
Qed.

Lemma scan_without_matches_publishes_empty_witness :
  exists s',
    scanForPrompts
      {| location_hostname := lit "claude.ai";
         document := constantDocument [blankBubble];
         Date_now := fun _ => 1000%Z |} staleState = Ok s'
    /\ prompts s' = [] /\ isScanning s' = false.
Proof.
  eapply scan_without_matches_publishes_empty.
  - reflexivity.
  - repeat constructor. exists [blankBubble].
    split; [reflexivity | repeat constructor].
Defined.

(** X7. When a selector's query throws before any selector has produced a
    prompt, the whole scan is abandoned: the published list stays as it
    was, even if a selector listed later would match messages. *)
Theorem throwing_selector_hides_later_matches
    (page : Page) (s : ScannerState) (cfg : PlatformConfig)
    (pre : list jsstring) (sel : jsstring) (post : list jsstring)
    (e : jsstring) :
  configOf page = Some cfg ->
  selectors cfg = pre ++ sel :: post ->
  Forall (barren (document page)) pre ->
  throwing (document page) sel e ->
  forSelectors (document page) (Date_now page) (selectors cfg) [] 0
  = Throw e
  /\ exists s', scanForPrompts page s = Ok s'
                /\ prompts s' = prompts s.
Proof.
  intros C S B T.
  assert (X : forSelectors (document page) (Date_now page) (selectors cfg)
                [] 0 = Throw e).
  { rewrite S. clear S. induction B as [|p pre Bp _ IH].
    - cbn [app forSelectors]. unfold throwing in T. now rewrite T.
    - cbn [app]. now rewrite forSelectors_skip_barren. }
  split; [exact X|].
  destruct (scan_outcome page s) as [s' [E [_ [_ O]]]].
  rewrite C, X in O. exists s'. split; [exact E | apply O].
Qed.

Lemma throwing_selector_hides_later_matches_witness :
  let page :=
    {| location_hostname := lit "gemini.google.com";
       document :=
         {| querySelectorAll := fun selector =>
              if JsString.eqb selector geminiFirst
              then Throw (lit "SyntaxError")
              else Ok [hiBubble] |};
       Date_now := fun _ => 1000%Z |} in
  exists s', scanForPrompts page staleState = Ok s'
             /\ prompts s' = prompts staleState.
Proof.
  intros page.
  refine (proj2 (@throwing_selector_hides_later_matches page staleState _
                   [] geminiFirst [geminiSecond] (lit "SyntaxError")
                   eq_refl eq_refl _ _)).
  - constructor.
  - reflexivity.
Defined.



(** X9. The scanning flag is never left set: a scan started with the flag
    clear ends with it clear, whether the platform is unknown, the scan
    completes or a query throws; and a scan never touches the
    scanned-elements cache, which only [rescan] replaces, by an empty
    one. *)
Theorem scanning_flag_cleared (page : Page) (s : ScannerState) :
  isScanning s = false ->
  exists s' r,
    scanForPrompts page s = Ok s'
    /\ isScanning s' = false
    /\ platform s' = detectPlatform (location_hostname page)
    /\ scannedElementsRef s' = scannedElementsRef s
    /\ rescan page s = Ok r
    /\ isScanning r = false
    /\ scannedElementsRef r = [].
Proof.
  intros F. destruct (scan_outcome page s) as [s' [E [P [K O]]]].
  unfold rescan.
  destruct (scan_outcome page (setScannedElements [] s))
    as [r [E' [_ [K' O']]]].
  exists s', r. split; [exact E|].
  assert (G : forall t t', isScanning t = false ->
           match configOf page with
           | Some cfg =>
               isScanning t' = false
               /\ match forSelectors (document page) (Date_now page)
                          (selectors cfg) [] 0 with
                  | Ok found => prompts t' = found
                  | Throw _ => prompts t' = prompts t
                  end
           | None => prompts t' = prompts t /\ isScanning t' = isScanning t
           end -> isScanning t' = false).
  { intros t t' Ft. destruct (configOf page); intros [A B]; congruence. }
  split; [apply (G s s' F O)|]. split; [exact P|]. split; [exact K|].
  split; [exact E'|]. split; [apply (G _ r F O') | exact K'].
Qed.

Lemma scanning_flag_cleared_witness :
  exists s' r,
    scanForPrompts claudeThrowingPage staleState = Ok s'
    /\ isScanning s' = false
    /\ platform s' = detectPlatform (location_hostname claudeThrowingPage)
    /\ scannedElementsRef s' = scannedElementsRef staleState
    /\ rescan claudeThrowingPage staleState = Ok r
    /\ isScanning r = false
    /\ scannedElementsRef r = [].
Proof.
  apply scanning_flag_cleared. reflexivity.
Defined.

End ScannerExtras.

(* ================================================================== *)
(** * More on the debounced scan *)
(* ================================================================== *)

Module DebounceExtras.
Import Debounce DebounceNotions Host Samples.

Lemma advance_idle (ran : list nat) (c t' : nat) (w : World) :
  Settled ran c w None -> c <= t' -> Settled ran t' (advance t' w) None.
Proof.
  intros St L. inversion St. unfold advance. rewrite Hpending.
  cbn [List.length runTimers]. apply settled_idle;
    cbn [timers clock pending nextId scans]; try assumption.
  rewrite Hclock. apply Nat.max_r. exact L.
Qed.

Lemma advance_waiting (ran : list nat) (c t t' : nat) (w : World) :
  Settled ran c w (Some t) -> c <= t' -> t' < t + SCAN_DEBOUNCE_DELAY ->
  Settled ran t' (advance t' w) (Some t).
Proof.
  intros St L W. inversion St; subst. unfold advance. rewrite Hpending.
  cbn [List.length runTimers]. rewrite Hpending. cbn [earliest].
  destruct (Nat.leb_spec (t + SCAN_DEBOUNCE_DELAY) t') as [X|X]; [lia|].
  apply settled_armed with (id := id);
    cbn [timers clock pending nextId scans timeoutId]; try assumption;
    try reflexivity; lia.
Qed.

Lemma advance_firing (ran : list nat) (c t t' : nat) (w : World) :
  Settled ran c w (Some t) -> c <= t' -> t + SCAN_DEBOUNCE_DELAY <= t' ->
  Settled (ran ++ [t + SCAN_DEBOUNCE_DELAY]) t' (advance t' w) None.
Proof.
  intros St L W. inversion St; subst. unfold advance. rewrite Hpending.
  cbn [List.length runTimers]. rewrite Hpending. cbn [earliest].
  destruct (Nat.leb_spec (t + SCAN_DEBOUNCE_DELAY) t') as [X|X]; [|lia].
  cbn [runTimers timerCallback clearTimeout timers clock pending nextId
       scans timeoutId].
  rewrite Hpending. cbn [filter fst]. rewrite Nat.eqb_refl. cbn [negb].
  apply settled_idle; cbn [timers clock pending nextId scans];
    try reflexivity.
  - lia.
  - rewrite Hnext. lia.
  - f_equal. f_equal. lia.
Qed.

Lemma debouncedScan_arms (ran : list nat) (c : nat) (w : World)
    (o : option nat) :
  Settled ran c w o -> Settled ran c (debouncedScan w) (Some c).
Proof.
  intros St. unfold debouncedScan, debounce, setTimeout, clearTimeout.
  inversion St; subst.
  - destruct (nextId (timers w)) as [|n] eqn:En; [lia|].
    destruct (timeoutId w) as [[|k]|];
      (apply settled_armed with (id := n);
       cbn [timers clock pending nextId scans timeoutId];
       rewrite ?En, ?Hpending; try reflexivity; lia).
  - rewrite Hid. apply settled_armed with (id := S id);
      cbn [timers clock pending nextId scans timeoutId];
      rewrite ?Hnext, ?Hpending; cbn [filter fst];
      rewrite ?Nat.eqb_refl; try reflexivity; lia.
Qed.

Lemma Settled_pending (ran : list nat) (c : nat) (w : World)
    (o : option nat) :
  Settled ran c w o ->
  map snd (pending (timers w))
  = match o with
    | Some t => [t + SCAN_DEBOUNCE_DELAY]
    | None => []
    end.
Proof. intros St; inversion St; rewrite Hpending; reflexivity. Qed.

Lemma ascending_Forall (c : nat) (l : list nat) :
  ascending c l -> Forall (fun t => c <= t) l.
Proof.
  revert c. induction l as [|t l IH]; intros c A; constructor.
  - apply A.
  - destruct A as [L A]. apply IH in A.
    eapply Forall_impl; [|exact A]. intros a Ha. cbv beta in *. lia.
Qed.

Lemma burstEnds_far (t : nat) (l : list nat) :
  Forall (fun b => t + SCAN_DEBOUNCE_DELAY <= b) l ->
  burstEnds SCAN_DEBOUNCE_DELAY (t :: l)
  = t :: burstEnds SCAN_DEBOUNCE_DELAY l.
Proof.
  intros F. destruct l as [|b l]; [reflexivity|].
  inversion F; subst. cbn [burstEnds].
  destruct (Nat.ltb_spec (b - t) SCAN_DEBOUNCE_DELAY); [lia | reflexivity].
Qed.

Lemma burstEnds_near (t b : nat) (l : list nat) :
  b < t + SCAN_DEBOUNCE_DELAY ->
  burstEnds SCAN_DEBOUNCE_DELAY (t :: b :: l)
  = burstEnds SCAN_DEBOUNCE_DELAY (b :: l).
Proof.
  intros L. cbn [burstEnds].
  destruct (Nat.ltb_spec (b - t) SCAN_DEBOUNCE_DELAY);
    [reflexivity | unfold SCAN_DEBOUNCE_DELAY in *; lia].
Qed.

(** Delivering callbacks in order keeps the world settled. *)
Lemma deliver_settled (events : list (nat * list MutationRecord)) :
  forall ran c w o,
    Settled ran c w o ->
    ascending c (map fst events) ->
    exists ran' c' o', Settled ran' c' (deliver events w) o'.
Proof.
  induction events as [|[t' b] events IH]; intros ran c w o St A.
  - exists ran, c, o. exact St.
  - cbn [map fst ascending] in A. destruct A as [L A]. cbn [deliver].
    assert (X : exists ran1 o1, Settled ran1 t' (advance t' w) o1).
    { destruct o as [t|].
      - destruct (Nat.le_gt_cases (t + SCAN_DEBOUNCE_DELAY) t') as [F|W].
        + eexists _, _. now apply (advance_firing St).
        + eexists _, _. now apply (advance_waiting St).
      - eexists _, _. now apply (advance_idle St). }
    destruct X as [ran1 [o1 St1]]. unfold observerCallback.
    destruct (hasRelevantChanges b).
    + apply (IH _ t' _ _ (debouncedScan_arms St1) A).
    + apply (IH _ t' _ _ St1 A).
Qed.

(** X11. Between callbacks the debouncer never holds more than one pending
    timer, and the timer it holds is the one [timeoutId] names, so the
    next call can cancel it: no timer is ever orphaned. *)
Theorem at_most_one_pending_timer (w0 : World)
    (events : list (nat * list MutationRecord)) :
  pending (timers w0) = [] ->
  1 <= nextId (timers w0) ->
  ascending (clock (timers w0)) (map fst events) ->
  let w := deliver events w0 in
  List.length (pending (timers w)) <= 1
  /\ forall id due, In (id, due) (pending (timers w)) ->
                    timeoutId w = Some id /\ 1 <= id.
Proof.
  intros P N A w.
  assert (St : Settled (scans w0) (clock (timers w0)) w0 None)
    by (apply settled_idle; auto).
  destruct (@deliver_settled events _ _ w0 None St A) as [ran' [c' [o' St']]].
  fold w in St'. inversion St'; subst; rewrite Hpending.
  - split; [cbn; lia | intros id due []].
  - split; [cbn; lia|]. intros i d [[= <- <-] | []].
    split; [exact Hid | lia].
Qed.

Lemma at_most_one_pending_timer_witness :
  let added := [{| type := childList; addedNodes_length := 2 |}] in
  let w := deliver [(0, added); (100, added); (700, added)] initialWorld in
  List.length (pending (timers w)) <= 1
  /\ forall id due, In (id, due) (pending (timers w)) ->
                    timeoutId w = Some id /\ 1 <= id.
Proof.
  intros added.
  apply (@at_most_one_pending_timer initialWorld
           [(0, added); (100, added); (700, added)]).
  - reflexivity.
  - cbn. lia.
  - cbn. lia.
Defined.

(** ** Any host *)

Lemma debouncedScan_holding (w : World) (o : option nat) :
  Holding w o ->
  Holding (debouncedScan w) (Some (clock (timers w)))
  /\ clock (timers (debouncedScan w)) = clock (timers w)
  /\ scans (debouncedScan w) = scans w.
Proof.
  intros H. unfold debouncedScan, debounce, setTimeout, clearTimeout.
  inversion H; subst.
  - destruct (nextId (timers w)) as [|n] eqn:En; [lia|].
    destruct (timeoutId w) as [[|k]|];
      (split; [|split; reflexivity];
       apply holding_one with (id := n);
       cbn [timers clock pending nextId scans timeoutId];
       rewrite ?En, ?Hpending; reflexivity).
  - rewrite Hid. split; [|split; reflexivity].
    apply holding_one with (id := S id);
      cbn [timers clock pending nextId scans timeoutId];
      rewrite ?Hnext, ?Hpending; cbn [filter fst];
      rewrite ?Nat.eqb_refl; reflexivity.
Qed.

(** The host can run a callback only of the timer the debouncer holds,
    and only once it is due; the scan then runs and no timer is left. *)
Lemma fire_holding (w w' : World) (o : option nat) (id : nat) :
  Holding w o ->
  act (fire id) w = Some w' ->
  exists t,
    o = Some t
    /\ t + SCAN_DEBOUNCE_DELAY <= clock (timers w)
    /\ Holding w' None
    /\ clock (timers w') = clock (timers w)
    /\ scans w' = scans w ++ [clock (timers w)].
Proof.
  intros H. cbn [act]. unfold dueOf.
  inversion H; subst; rewrite Hpending; cbn [find fst snd];
    [discriminate|].
  destruct (S id0 =? id) eqn:E; [|discriminate]. cbn [snd].
  destruct (t + SCAN_DEBOUNCE_DELAY <=? clock (timers w)) eqn:L;
    [|discriminate].
  apply Nat.leb_le in L.
  intros [= <-]. exists t. split; [reflexivity|]. split; [exact L|].
  unfold timerCallback, clearTimeout.
  cbn [timers clock pending nextId scans timeoutId].
  rewrite Hpending. cbn [filter fst]. rewrite E. cbn [negb].
  split; [|split; reflexivity].
  apply holding_none; cbn [timers pending nextId]; [reflexivity|lia].
Qed.

Lemma elapse_holding (w w' : World) (o : option nat) (until : nat) :
  Holding w o ->
  act (elapse until) w = Some w' ->
  clock (timers w) <= until
  /\ Holding w' o
  /\ clock (timers w') = until
  /\ scans w' = scans w.
Proof.
  intros H. cbn [act].
  destruct (Nat.leb_spec (clock (timers w)) until) as [L|L];
    [|discriminate].
  intros [= <-]. split; [exact L|]. split; [|split; reflexivity].
  inversion H; subst.
  - now apply holding_none.
  - now apply holding_one with (id := id).
Qed.

Lemma afterQuiet_later (q : list nat) (s c : nat) :
  afterQuiet q s -> s <= c -> afterQuiet (q ++ [c]) s.
Proof.
  intros [[t [I L]] F] Hc. split.
  - exists t. split; [apply in_or_app; now left | exact L].
  - apply Forall_app. split; [exact F|].
    constructor; [now right | constructor].
Qed.

Lemma act_tracked (base q ran : list nat) (o : option nat)
    (a : Action) (w w' : World) :
  Tracked base q ran o w ->
  act a w = Some w' ->
  exists ran' o',
    Tracked base (q ++ qualifyingAt [a] (clock (timers w))) ran' o' w'
    /\ clock (timers w')
       = match a with
         | elapse until => until
         | _ => clock (timers w)
         end.
Proof.
  intros [H Sc0 Q R C U L] A. destruct a as [until|id|mutations].
  - destruct (@elapse_holding _ _ _ _ H A) as [Le [H' [Ck Sc]]].
    exists ran, o. split; [|exact Ck].
    cbn [qualifyingAt]. rewrite app_nil_r.
    constructor; try assumption.
    + congruence.
    + rewrite Ck. eapply Forall_impl; [|exact Q].
      intros a Ha. cbv beta in *. lia.
    + rewrite Ck. eapply Forall_impl; [|exact R].
      intros a Ha. cbv beta in *. lia.
  - destruct (@fire_holding _ _ _ _ H A) as [t [-> [Due [H' [Ck Sc]]]]].
    destruct L as [It Lt].
    exists (ran ++ [clock (timers w)]), None. split; [|exact Ck].
    cbn [qualifyingAt]. rewrite app_nil_r.
    constructor.
    + exact H'.
    + rewrite Sc, Sc0. now rewrite app_assoc.
    + now rewrite Ck.
    + rewrite Ck. apply Forall_app. split; [exact R|].
      constructor; [lia | constructor].
    + rewrite length_app. cbn [List.length]. lia.
    + apply Forall_app. split; [exact U|].
      constructor; [|constructor]. split.
      * exists t. split; [exact It | exact Due].
      * eapply Forall_impl; [|exact Lt].
        intros a Ha. cbv beta in *. left. lia.
    + eapply Forall_impl; [|exact Lt].
      intros a Ha. cbv beta in *. exists (clock (timers w)).
      split; [apply in_or_app; right; now left | lia].
  - cbn [act] in A. injection A as <-. unfold observerCallback.
    cbn [qualifyingAt].
    destruct (hasRelevantChanges mutations).
    + destruct (@debouncedScan_holding _ _ H) as [H' [Ck Sc]].
      exists ran, (Some (clock (timers w))). split; [|exact Ck].
      constructor.
      * exact H'.
      * congruence.
      * rewrite Ck. apply Forall_app. split; [exact Q|].
        constructor; [lia | constructor].
      * now rewrite Ck.
      * rewrite length_app. cbn [List.length].
        destruct o; lia.
      * rewrite Forall_forall in *. intros s Is.
        apply afterQuiet_later; [now apply U | now apply R].
      * split; [apply in_or_app; right; now left|].
        apply Forall_app. split; [exact Q|].
        constructor; [lia | constructor].
    + exists ran, o. split; [|reflexivity]. rewrite app_nil_r.
      now constructor.
Qed.

Lemma qualifyingAt_cons (a : Action) (rest : list Action) (c : nat) :
  qualifyingAt (a :: rest) c
  = qualifyingAt [a] c
    ++ qualifyingAt rest (match a with elapse until => until | _ => c end).
Proof.
  destruct a as [until|id|mutations]; cbn [qualifyingAt app];
    try reflexivity.
  destruct (hasRelevantChanges mutations); reflexivity.
Qed.

Lemma exec_tracked (actions : list Action) :
  forall base q ran o w w',
    Tracked base q ran o w ->
    exec actions w = Some w' ->
    exists ran' o',
      Tracked base (q ++ qualifyingAt actions (clock (timers w))) ran' o' w'.
Proof.
  induction actions as [|a rest IH]; intros base q ran o w w' T E.
  - cbn [exec] in E. injection E as <-. exists ran, o.
    cbn [qualifyingAt]. now rewrite app_nil_r.
  - cbn [exec] in E. destruct (act a w) as [w1|] eqn:A; [|discriminate].
    destruct (@act_tracked _ _ _ _ _ _ _ T A) as [ran1 [o1 [T1 Ck]]].
    destruct (IH _ _ _ _ _ _ T1 E) as [ran' [o' T']].
    exists ran', o'. rewrite qualifyingAt_cons, app_assoc.
    now rewrite <- Ck.
Qed.

(** X10. Whatever the host's timing: timers may run late, and before or
    after an observer callback of the same instant, but never before they
    are due.  Starting with no timer pending, every scan runs after a
    quiet period (some qualifying batch came at least 300ms before it and
    none in the 300ms before it), there are never more scans than
    qualifying batches, and once no timer is pending every qualifying
    batch has been followed by a scan at least 300ms later.  Batches
    without added nodes or character data play no part. *)
Theorem scans_only_after_quiet (actions : list Action) (w0 w : World) :
  pending (timers w0) = [] ->
  1 <= nextId (timers w0) ->
  exec actions w0 = Some w ->
  let q := qualifyingAt actions (clock (timers w0)) in
  exists ran,
    scans w = scans w0 ++ ran
    /\ List.length ran <= List.length q
    /\ Forall (afterQuiet q) ran
    /\ (pending (timers w) = [] -> Forall (followed ran) q).
Proof.
  intros P N E q.
  assert (T : Tracked (scans w0) [] [] None w0).
  { constructor; try constructor; try assumption.
    now rewrite app_nil_r. }
  destruct (@exec_tracked actions _ _ _ _ _ _ T E) as [ran [o [H Sc0 Q R C U L]]].
  cbn [app] in *. fold q in Q, C, U, L.
  exists ran. split; [exact Sc0|]. split; [lia|]. split; [exact U|].
  intros Pw. inversion H; subst; [exact L|].
  rewrite Hpending in Pw. discriminate Pw.
Qed.

(** The host of [lateSchedule] runs the first timer 50ms late and
    delivers a batch before the timer due at the same instant: the four
    qualifying batches of instants 0, 100, 450 and 750 get the two scans
    of instants 450 and 1100. *)
Lemma scans_only_after_quiet_witness :
  let q := qualifyingAt lateSchedule 0 in
  exec lateSchedule initialWorld = Some lateWorld
  /\ q = [0; 100; 450; 750]
  /\ scans lateWorld = [450; 1100]
  /\ exists ran,
       scans lateWorld = scans initialWorld ++ ran
       /\ List.length ran <= List.length q
       /\ Forall (afterQuiet q) ran
       /\ (pending (timers lateWorld) = [] -> Forall (followed ran) q).
Proof.
  assert (E : exec lateSchedule initialWorld = Some lateWorld)
    by (vm_compute; reflexivity).
  split; [exact E|]. split; [vm_compute; reflexivity|].
  split; [vm_compute; reflexivity|].
  apply (@scans_only_after_quiet lateSchedule initialWorld lateWorld);
    [reflexivity | cbn; lia | exact E].
Defined.

(** ** A host that is on time *)

Lemma qualifyingAt_lower (actions : list Action) :
  forall w w',
    exec actions w = Some w' ->
    Forall (fun t => clock (timers w) <= t)
      (qualifyingAt actions (clock (timers w))).
Proof.
  induction actions as [|a rest IH]; intros w w' E; [constructor|].
  cbn [exec] in E. destruct (act a w) as [w1|] eqn:A; [|discriminate].
  specialize (IH _ _ E).
  destruct a as [until|id|mutations]; cbn [qualifyingAt]; cbn [act] in A.
  - destruct (Nat.leb_spec (clock (timers w)) until) as [L|L];
      [|discriminate].
    injection A as <-. cbn [setClock timers clock] in IH.
    eapply Forall_impl; [|exact IH]. intros a Ha. cbv beta in *. lia.
  - destruct (dueOf id (timers w)) as [due|]; [|discriminate].
    destruct (due <=? clock (timers w)); [|discriminate].
    injection A as <-. exact IH.
  - injection A as <-.
    assert (Ck : clock (timers (observerCallback mutations w))
                 = clock (timers w)).
    { unfold observerCallback, debouncedScan, debounce, setTimeout.
      destruct (hasRelevantChanges mutations); [|reflexivity].
      destruct (timeoutId w) as [[|k]|]; reflexivity. }
    rewrite Ck in IH.
    destruct (hasRelevantChanges mutations); [|exact IH].
    constructor; [lia | exact IH].
Qed.

Lemma noTie_tail (gap a : nat) (l : list nat) :
  noTie gap (a :: l) = true -> noTie gap l = true.
Proof.
  destruct l as [|b l]; [reflexivity|].
  change (noTie gap (a :: b :: l))
    with (negb (b =? a + gap) && noTie gap (b :: l)).
  intros H. apply andb_true_iff in H. apply H.
Qed.

Lemma noTie_head (gap a b : nat) (l : list nat) :
  noTie gap (a :: b :: l) = true -> b <> a + gap.
Proof.
  change (noTie gap (a :: b :: l))
    with (negb (b =? a + gap) && noTie gap (b :: l)).
  intros H. apply andb_true_iff in H. destruct H as [H _].
  apply negb_true_iff, Nat.eqb_neq in H. exact H.
Qed.

Lemma exec_on_time (actions : list Action) :
  forall w w' o,
    Holding w o ->
    match o with
    | Some t => t <= clock (timers w) <= t + SCAN_DEBOUNCE_DELAY
    | None => True
    end ->
    exec actions w = Some w' ->
    onTime actions w = true ->
    pending (timers w') = [] ->
    noTie SCAN_DEBOUNCE_DELAY
      (optcons o (qualifyingAt actions (clock (timers w)))) = true ->
    scans w'
    = scans w
      ++ map (fun t => t + SCAN_DEBOUNCE_DELAY)
           (burstEnds SCAN_DEBOUNCE_DELAY
              (optcons o (qualifyingAt actions (clock (timers w))))).
Proof.
  induction actions as [|a rest IH]; intros w w' o H B E T P N.
  - cbn [exec] in E. injection E as <-. inversion H; subst.
    + cbn. now rewrite app_nil_r.
    + rewrite Hpending in P. discriminate P.
  - cbn [exec] in E. destruct (act a w) as [w1|] eqn:A; [|discriminate].
    cbn [onTime] in T. rewrite A in T. apply andb_true_iff in T.
    destruct T as [T0 T].
    pose proof (@qualifyingAt_lower _ _ _ E) as Low.
    destruct a as [until|id|mutations].
    + destruct (@elapse_holding _ _ _ _ H A) as [Le [H1 [Ck Sc]]].
      cbn [qualifyingAt] in *. rewrite <- Ck, <- Sc.
      rewrite <- Ck in N.
      apply (IH w1 w' o H1); try assumption.
      destruct o as [t|]; [|exact I]. rewrite Ck.
      inversion H; subst. rewrite Hpending in T0.
      cbn [forallb snd] in T0. rewrite andb_true_r in T0.
      apply Nat.leb_le in T0. lia.
    + destruct (@fire_holding _ _ _ _ H A) as [t [-> [Due [H1 [Ck Sc]]]]].
      cbn [qualifyingAt optcons] in *. rewrite Ck in Low.
      assert (Now : clock (timers w) = t + SCAN_DEBOUNCE_DELAY) by lia.
      rewrite burstEnds_far
        by (eapply Forall_impl; [|exact Low];
            intros a Ha; cbv beta in *; lia).
      cbn [map]. rewrite <- Ck.
      rewrite (IH w1 w' None H1 I E T P)
        by (rewrite Ck; exact (@noTie_tail _ _ _ N)).
      rewrite Sc, Now, <- app_assoc. reflexivity.
    + cbn [act] in A. injection A as <-. unfold observerCallback in *.
      cbn [qualifyingAt] in *.
      destruct (hasRelevantChanges mutations).
      * destruct (@debouncedScan_holding _ _ H) as [H1 [Ck Sc]].
        rewrite Ck in Low.
        assert (B1 : clock (timers w) <= clock (timers (debouncedScan w))
                     <= clock (timers w) + SCAN_DEBOUNCE_DELAY)
          by (rewrite Ck; lia).
        assert (G : noTie SCAN_DEBOUNCE_DELAY
                      (clock (timers w)
                       :: qualifyingAt rest (clock (timers w))) = true)
          by (destruct o; [exact (@noTie_tail _ _ _ N) | exact N]).
        pose proof (IH (debouncedScan w) w' (Some (clock (timers w)))
                      H1 B1 E T P) as R.
        rewrite Ck in R. cbn [optcons] in R. specialize (R G).
        rewrite R, Sc. f_equal. f_equal.
        destruct o as [t|]; [|reflexivity]. cbn [optcons].
        symmetry. apply burstEnds_near.
        pose proof (@noTie_head _ _ _ _ N). lia.
      * now apply (IH w w' o H).
Qed.

(** X12. On a host that is on time, one that never lets the clock pass
    the instant at which a pending timer is due, and for qualifying
    batches none of which comes exactly 300ms after the one before it:
    once no timer is pending, the scans that ran are exactly one per
    burst, each 300ms after the last qualifying batch of its burst, a
    burst ending when the next qualifying batch comes more than 300ms
    later, whatever order the host chooses for the callbacks of one
    instant.  In particular qualifying batches more than 300ms apart each
    get a scan of their own. *)
Theorem on_time_scans_at_burst_ends (actions : list Action)
    (w0 w : World) :
  pending (timers w0) = [] ->
  1 <= nextId (timers w0) ->
  exec actions w0 = Some w ->
  onTime actions w0 = true ->
  pending (timers w) = [] ->
  let q := qualifyingAt actions (clock (timers w0)) in
  noTie SCAN_DEBOUNCE_DELAY q = true ->
  scans w
  = scans w0 ++ map (fun t => t + SCAN_DEBOUNCE_DELAY)
                  (burstEnds SCAN_DEBOUNCE_DELAY q).
Proof.
  intros P N E T Pw q G.
  apply (@exec_on_time actions w0 w None); try assumption.
  - now apply holding_none.
  - exact I.
Qed.

(** Batches at 0 and 100 form a burst scanned at 400; the batch at 1000
    is scanned at 1300; the attribute change at 1100 plays no part. *)
Lemma on_time_scans_at_burst_ends_witness :
  exec punctualSchedule initialWorld = Some punctualWorld
  /\ qualifyingAt punctualSchedule 0 = [0; 100; 1000]
  /\ scans punctualWorld = [400; 1300]
  /\ scans punctualWorld
     = scans initialWorld
       ++ map (fun t => t + SCAN_DEBOUNCE_DELAY)
            (burstEnds SCAN_DEBOUNCE_DELAY
               (qualifyingAt punctualSchedule
                  (clock (timers initialWorld)))).
Proof.
  assert (E : exec punctualSchedule initialWorld = Some punctualWorld)
    by (vm_compute; reflexivity).
  split; [exact E|]. split; [vm_compute; reflexivity|].
  split; [vm_compute; reflexivity|].
  apply (@on_time_scans_at_burst_ends punctualSchedule initialWorld
           punctualWorld);
    [reflexivity | cbn; lia | exact E | vm_compute; reflexivity
    | vm_compute; reflexivity | vm_compute; reflexivity].
Defined.

End DebounceExtras.

(* ================================================================== *)
(** * More on the platform registry *)
(* ================================================================== *)

Module RegistryExtras.
Import JsStringFacts.

Lemma includes_extend (h m pre suf : jsstring) :
  includes h m = true -> includes (pre ++ h ++ suf) m = true.
Proof.
  rewrite !includes_Substring. intros [a [b ->]].
  exists (pre ++ a), (b ++ suf). now rewrite <- !app_assoc.
Qed.

(** X13. Detection looks for the known hostnames anywhere in the string:
    a hostname in which a platform is detected is still detected, as the
    same platform or one listed earlier, after anything is put before or
    after it (a subdomain, but also a foreign parent domain). *)
Theorem detection_survives_extension (h pre suf : jsstring) :
  detectPlatform h <> unknown ->
  detectPlatform (pre ++ h ++ suf) <> unknown
  /\ platformRank (detectPlatform (pre ++ h ++ suf))
     <= platformRank (detectPlatform h).
Proof.
  unfold detectPlatform.
  pose proof (fun m => @includes_extend h m pre suf) as X.
  destruct (includes h (lit "chatgpt.com")) eqn:E1;
    [rewrite (X _ E1)
    |destruct (includes h (lit "claude.ai")) eqn:E2;
     [rewrite (X _ E2)
     |destruct (includes h (lit "gemini.google.com")) eqn:E3;
      [rewrite (X _ E3)
      |destruct (includes h (lit "groq.com")) eqn:E4;
       [rewrite (X _ E4)|]]]];
    intros N; try (exfalso; now apply N);
    repeat match goal with
    | |- context [if ?b then _ else _] => destruct b
    end; cbn; split; (discriminate || lia).
Qed.

Lemma detection_survives_extension_witness :
  detectPlatform (lit "chatgpt.com." ++ lit "claude.ai" ++ lit ".example.org")
  <> unknown
  /\ platformRank
       (detectPlatform
          (lit "chatgpt.com." ++ lit "claude.ai" ++ lit ".example.org"))
     <= platformRank (detectPlatform (lit "claude.ai")).
Proof.
  apply detection_survives_extension. vm_compute. discriminate.
Defined.

End RegistryExtras.

(* ================================================================== *)
(** * More on the panel geometry controller *)
(* ================================================================== *)

Module PanelExtras.
Import Panel PanelNotions Samples PanelFacts.
Local Open Scope Q_scope.

Lemma depsChanged_refl (p : PanelState) : depsChanged p p = false.
Proof.
  unfold depsChanged. rewrite !Qeq_bool_refl, Bool.eqb_reflx. reflexivity.
Qed.

Lemma depsChanged_same_size (p q : PanelState) :
  size q = size p -> isCollapsed q = isCollapsed p ->
  depsChanged p q = false.
Proof.
  intros Hs Hc. unfold depsChanged. rewrite Hs, Hc.
  rewrite !Qeq_bool_refl, Bool.eqb_reflx. reflexivity.
Qed.

Lemma depsChanged_mode_flip (old new : PanelState) :
  isCollapsed old <> isCollapsed new -> depsChanged old new = true.
Proof.
  unfold depsChanged. intros H.
  destruct (isCollapsed old), (isCollapsed new); try congruence;
    cbn; apply orb_true_r.
Qed.

Lemma window_resize_contained (m : Machine) (iw ih : Q) :
  nonNegative m ->
  fits (step m (window_resize iw ih)) ->
  contained (step m (window_resize iw ih)).
Proof.
  destruct m as [w p]. cbn [step panel window].
  intros [Nx Ny] [Fw Fh]. cbn [window panel] in Nx, Ny, Fw, Fh.
  destruct (handleWindowResize_frame
              {| innerWidth := iw; innerHeight := ih |} p) as [Ec [Es _]].
  destruct (footprint_frame _ _ Ec Es) as [Ew Eh].
  rewrite Ew in Fw. rewrite Eh in Fh.
  now apply handleWindowResize_contained.
Qed.

(** ** Size *)

Lemma step_size (m : Machine) (e : Event) :
  size (panel (step m e)) = size (panel m)
  \/ exists cx cy,
       e = mousemove cx cy
       /\ isResizingRef (panel m) = true
       /\ size (panel (step m e))
          = resizeTarget (resizeStartRef (panel m))
              (x (dragStartRef (panel m))) (y (dragStartRef (panel m)))
              cx cy.
Proof.
  destruct m as [w p]. destruct e as [cx cy | cx cy | cx cy | | | | iw ih];
    cbn [step panel window].
  - left. reflexivity.
  - left. destruct (isCollapsed p); reflexivity.
  - destruct (runEffects_frame w p (handleMouseMove w cx cy p))
      as [_ [Es _]].
    destruct (handleMouseMove_spec w cx cy p) as [_ [_ [_ [_ Fs]]]].
    rewrite Es, Fs. destruct (isResizingRef p) eqn:R.
    + right. exists cx, cy. repeat split.
    + left. reflexivity.
  - left. reflexivity.
  - left. destruct (isCollapsed p); [|reflexivity]. cbn [panel].
    destruct (runEffects_frame w p (handleMinimizedClick p)) as [_ [Es _]].
    rewrite Es. unfold handleMinimizedClick.
    destruct (hasDraggedRef p); reflexivity.
  - left. destruct (isCollapsed p); [reflexivity|]. cbn [panel].
    destruct (runEffects_frame w p (handleCollapse w p)) as [_ [Es _]].
    rewrite Es. reflexivity.
  - left. apply handleWindowResize_frame.
Qed.

(** X14. The panel never gets smaller than the configured minimum of 250
    by 200: whatever events arrive, in any order, a size that respects the
    minimum still does afterwards. *)
Theorem size_never_below_minimum (events : list Event) (m : Machine) :
  sizeAtLeastMin (panel m) -> sizeAtLeastMin (panel (run m events)).
Proof.
  revert m. induction events as [|e events IH]; intros m S; [exact S|].
  cbn [run fold_left]. apply (IH (step m e)).
  unfold sizeAtLeastMin in *.
  destruct (step_size m e) as [E | [cx [cy [_ [_ E]]]]]; rewrite E;
    [exact S|].
  unfold resizeTarget. cbn [width height].
  split; split_minmax; lra.
Qed.

Lemma size_never_below_minimum_witness :
  sizeAtLeastMin
    (panel (run {| window := wideWindow; panel := initialPanel |}
              [mousedown_resize 340 500; mousemove 0 0; mouseup])).
Proof.
  apply size_never_below_minimum. unfold sizeAtLeastMin. cbn.
  unfold MIN_PANEL_SIZE_width, MIN_PANEL_SIZE_height,
    DEFAULT_PANEL_SIZE_width, DEFAULT_PANEL_SIZE_height. lra.
Defined.

(** ** Dragging *)

Lemma step_drag_move (w : Window) (q : PanelState) (cx cy : Q) :
  isDraggingRef q = true -> isResizingRef q = false ->
  panel (step {| window := w; panel := q |} (mousemove cx cy))
  = setPosition
      {| x := Qmax 0 (Qmin (innerWidth w - footprintWidth q)
                           (cx - x (dragStartRef q)));
         y := Qmax 0 (Qmin (innerHeight w - 50)
                           (cy - y (dragStartRef q))) |}
      (setHasDragged true q).
Proof.
  intros D R. cbn [step panel window]. unfold handleMouseMove.
  rewrite D. cbv zeta. cbn [isResizingRef setPosition setHasDragged].
  rewrite R. unfold runEffects.
  rewrite depsChanged_same_size by reflexivity. reflexivity.
Qed.

Lemma drag_moves (w : Window) (moves : list (Q * Q)) (cx cy : Q) :
  forall q,
    isDraggingRef q = true -> isResizingRef q = false ->
    run {| window := w; panel := q |} (pointerMoves (moves ++ [(cx, cy)]))
    = {| window := w;
         panel :=
           setPosition
             {| x := Qmax 0 (Qmin (innerWidth w - footprintWidth q)
                                  (cx - x (dragStartRef q)));
                y := Qmax 0 (Qmin (innerHeight w - 50)
                                  (cy - y (dragStartRef q))) |}
             (setHasDragged true q) |}.
Proof.
  induction moves as [|[a b] moves IH]; intros q D R.
  - cbn [app pointerMoves map run fold_left fst snd].
    rewrite <- (step_drag_move w q cx cy D R). reflexivity.
  - cbn [app pointerMoves map run fold_left fst snd].
    assert (E : step {| window := w; panel := q |} (mousemove a b)
                = {| window := w;
                     panel := panel (step {| window := w; panel := q |}
                                       (mousemove a b)) |})
      by reflexivity.
    rewrite E, (step_drag_move w q a b D R).
    fold (pointerMoves (moves ++ [(cx, cy)])).
    change (fold_left step (pointerMoves (moves ++ [(cx, cy)])) ?m)
      with (run m (pointerMoves (moves ++ [(cx, cy)]))).
    rewrite IH by (cbn; assumption). reflexivity.
Qed.

(** X15. During a drag the position depends only on where the drag
    started and where the cursor is now, not on the path in between:
    after pointer-down at (ax, ay) on a panel at (px, py) and any number
    of moves, the last of them to (cx, cy), the panel stands at the cursor
    minus the grab offset (ax - px, ay - py) stored at pointer-down,
    clamped to [0, viewportWidth - panelWidth] horizontally and to
    [0, viewportHeight - 50] vertically; size and mode are unchanged and
    the drag is recorded. *)
Theorem drag_tracks_cursor (m : Machine) (ax ay : Q)
    (moves : list (Q * Q)) (cx cy : Q) :
  isResizingRef (panel m) = false ->
  let m' := run m (mousedown_drag ax ay
                     :: pointerMoves (moves ++ [(cx, cy)])) in
  position (panel m')
  = dragTarget (window m) (panel m)
      (x (position (panel m))) (y (position (panel m))) ax ay cx cy
  /\ size (panel m') = size (panel m)
  /\ isCollapsed (panel m') = isCollapsed (panel m)
  /\ hasDraggedRef (panel m') = true.
Proof.
  destruct m as [w p]. cbv zeta. cbn [panel window]. intros R.
  cbn [run fold_left step panel window].
  change (fold_left step (pointerMoves (moves ++ [(cx, cy)])) ?m)
    with (run m (pointerMoves (moves ++ [(cx, cy)]))).
  rewrite drag_moves by (cbn; auto).
  repeat split.
Qed.

(** From (20,100), grabbed at (30,110): wherever the cursor went in
    between, with the cursor at (130,160) the panel stands at (120,150). *)
Lemma drag_tracks_cursor_witness :
  let m := {| window := wideWindow; panel := initialPanel |} in
  let m' := run m (mousedown_drag 30 110
                     :: pointerMoves ([(900, 5); (-40, 700)] ++ [(130, 160)])) in
  position (panel m')
  = dragTarget wideWindow initialPanel 20 100 30 110 130 160
  /\ size (panel m') = size initialPanel
  /\ isCollapsed (panel m') = isCollapsed initialPanel
  /\ hasDraggedRef (panel m') = true.
Proof.
  intros m.
  apply (@drag_tracks_cursor m 30 110 [(900, 5); (-40, 700)] 130 160).
  reflexivity.
Defined.

(** ** Resizing *)

Lemma handleWindowResize_refs (w : Window) (p : PanelState) :
  dragStartRef (handleWindowResize w p) = dragStartRef p
  /\ resizeStartRef (handleWindowResize w p) = resizeStartRef p.
Proof.
  unfold handleWindowResize. cbv zeta.
  destruct (_ || _); split; reflexivity.
Qed.

Lemma step_mousemove_refs (m : Machine) (cx cy : Q) :
  isResizingRef (panel (step m (mousemove cx cy)))
  = isResizingRef (panel m)
  /\ dragStartRef (panel (step m (mousemove cx cy)))
     = dragStartRef (panel m)
  /\ resizeStartRef (panel (step m (mousemove cx cy)))
     = resizeStartRef (panel m).
Proof.
  destruct m as [w p]. cbn [step panel window]. unfold runEffects.
  set (q := handleMouseMove w cx cy p).
  assert (F : isResizingRef q = isResizingRef p
              /\ dragStartRef q = dragStartRef p
              /\ resizeStartRef q = resizeStartRef p).
  { subst q. unfold handleMouseMove.
    destruct (isDraggingRef p) eqn:D, (isResizingRef p) eqn:R; cbv zeta;
      cbn; rewrite ?R; cbn; rewrite ?D, ?R; repeat split; reflexivity. }
  destruct (depsChanged p q); [|exact F].
  destruct (handleWindowResize_frame w q) as [_ [_ [_ [Er _]]]].
  destruct (handleWindowResize_refs w q) as [Ed Es].
  rewrite Er, Ed, Es. exact F.
Qed.

Lemma moves_refs (moves : list (Q * Q)) :
  forall m,
    isResizingRef (panel (run m (pointerMoves moves)))
    = isResizingRef (panel m)
    /\ dragStartRef (panel (run m (pointerMoves moves)))
       = dragStartRef (panel m)
    /\ resizeStartRef (panel (run m (pointerMoves moves)))
       = resizeStartRef (panel m).
Proof.
  induction moves as [|[a b] moves IH]; intros m.
  - repeat split; reflexivity.
  - cbn [pointerMoves map run fold_left fst snd].
    destruct (step_mousemove_refs m a b) as [E1 [E2 E3]].
    destruct (IH (step m (mousemove a b))) as [I1 [I2 I3]].
    unfold run, pointerMoves in I1, I2, I3.
    rewrite I1, I2, I3, E1, E2, E3. repeat split; reflexivity.
Qed.

Lemma step_resize_move (m : Machine) (cx cy : Q) :
  isResizingRef (panel m) = true ->
  size (panel (step m (mousemove cx cy)))
  = resizeTarget (resizeStartRef (panel m))
      (x (dragStartRef (panel m))) (y (dragStartRef (panel m))) cx cy.
Proof.
  intros R. destruct (step_size m (mousemove cx cy))
    as [E | [c [d [[= <- <-] [_ E]]]]]; [|exact E].
  destruct m as [w p]. cbn [step panel window] in *.
  destruct (runEffects_frame w p (handleMouseMove w cx cy p))
    as [_ [Es _]].
  destruct (handleMouseMove_spec w cx cy p) as [_ [_ [_ [_ Fs]]]].
  rewrite Es, Fs. now rewrite R.
Qed.

(** X16. During a resize the size tracks the cursor without drift: after
    pointer-down on the resize handle at (ax, ay) and any number of moves,
    the last of them to (cx, cy), the size is the size at the start of the
    gesture plus the cursor's total displacement, each dimension raised to
    the minimum (250 by 200) when it falls below; there is no upper
    bound. *)
Theorem resize_tracks_cursor (m : Machine) (ax ay : Q)
    (moves : list (Q * Q)) (cx cy : Q) :
  isCollapsed (panel m) = false ->
  size (panel (run m (mousedown_resize ax ay
                        :: pointerMoves (moves ++ [(cx, cy)]))))
  = resizeTarget (size (panel m)) ax ay cx cy.
Proof.
  intros C. cbn [run fold_left step]. rewrite C.
  unfold pointerMoves. rewrite map_app, fold_left_app.
  cbn [map fold_left fst snd].
  set (m1 := {| window := window m;
                panel := handleResizeStart ax ay (panel m) |}).
  destruct (moves_refs moves m1) as [E1 [E2 E3]].
  unfold run, pointerMoves in E1, E2, E3.
  rewrite step_resize_move by (rewrite E1; reflexivity).
  rewrite E2, E3. reflexivity.
Qed.

Lemma resize_tracks_cursor_witness :
  size (panel (run {| window := wideWindow; panel := initialPanel |}
                 (mousedown_resize 340 500
                    :: pointerMoves ([(0, 0); (2000, 90)] ++ [(400, 450)]))))
  = resizeTarget (size initialPanel) 340 500 400 450.
Proof.
  apply (@resize_tracks_cursor
           {| window := wideWindow; panel := initialPanel |}
           340 500 [(0, 0); (2000, 90)] 400 450).
  reflexivity.
Defined.

(** ** Mode *)

(** X17. The mode changes only through the two buttons: the collapse
    button always leaves the panel collapsed, a click on the minimized
    button leaves it collapsed only if a drag has been recorded, and no
    other event (drag, resize, pointer-up, window resize) changes the
    mode. *)
Theorem mode_changes_only_by_buttons (m : Machine) (e : Event) :
  isCollapsed (panel (step m e))
  = match e with
    | click_collapse => true
    | click_minimized =>
        isCollapsed (panel m) && hasDraggedRef (panel m)
    | _ => isCollapsed (panel m)
    end.
Proof.
  destruct m as [w p]. destruct e as [cx cy | cx cy | cx cy | | | | iw ih];
    cbn [step panel window].
  - reflexivity.
  - destruct (isCollapsed p) eqn:C; cbn; exact C.
  - destruct (runEffects_frame w p (handleMouseMove w cx cy p)) as [Ec _].
    destruct (handleMouseMove_spec w cx cy p) as [Fc _].
    now rewrite Ec, Fc.
  - reflexivity.
  - destruct (isCollapsed p) eqn:C; [|cbn; exact C]. cbn [panel].
    destruct (runEffects_frame w p (handleMinimizedClick p)) as [Ec _].
    rewrite Ec. unfold handleMinimizedClick.
    destruct (hasDraggedRef p); cbn; [exact C | reflexivity].
  - destruct (isCollapsed p) eqn:C; [cbn; exact C|]. cbn [panel].
    destruct (runEffects_frame w p (handleCollapse w p)) as [Ec _].
    rewrite Ec. reflexivity.
  - apply handleWindowResize_frame.
Qed.

(** ** Window resize *)

(** X18. A window resize leaves a panel that is already inside the new
    viewport exactly as it is, and re-clamping is idempotent: delivering
    the same resize twice gives the same state as delivering it once. *)
Theorem window_resize_idempotent (m : Machine) (iw ih : Q) :
  nonNegative m ->
  fits (step m (window_resize iw ih)) ->
  step (step m (window_resize iw ih)) (window_resize iw ih)
  = step m (window_resize iw ih)
  /\ (contained {| window := {| innerWidth := iw; innerHeight := ih |};
                   panel := panel m |} ->
      panel (step m (window_resize iw ih)) = panel m).
Proof.
  intros N F. split.
  - pose proof (@window_resize_contained m iw ih N F) as C.
    destruct m as [w p]. cbn [step panel window] in *.
    now rewrite (@handleWindowResize_contained_id _ _ C).
  - intros C. destruct m as [w p]. cbn [step panel window] in *.
    now apply handleWindowResize_contained_id.
Qed.

Lemma window_resize_idempotent_witness :
  let m := {| window := wideWindow; panel := panelAt 900 500 320 400 |} in
  step (step m (window_resize 1000 700)) (window_resize 1000 700)
  = step m (window_resize 1000 700).
Proof.
  intros m.
  refine (proj1 (@window_resize_idempotent m 1000 700 _ _)).
  - unfold nonNegative. cbn. lra.
  - unfold fits. vm_compute. split; discriminate.
Defined.

(** ** Collapse and expand *)

(** X19. In a viewport of at least 72 by 72, collapsing puts the 48-pixel
    icon fully inside the viewport with a margin of at least 12 pixels on
    every side, and the effects of the render do not move it again. *)
Theorem collapse_keeps_padding (m : Machine) :
  isCollapsed (panel m) = false ->
  72 <= innerWidth (window m) -> 72 <= innerHeight (window m) ->
  let m' := step m click_collapse in
  12 <= x (position (panel m'))
  /\ x (position (panel m')) + 48 + 12 <= innerWidth (window m)
  /\ 12 <= y (position (panel m'))
  /\ y (position (panel m')) + 48 + 12 <= innerHeight (window m)
  /\ position (panel m') = position (handleCollapse (window m) (panel m)).
Proof.
  destruct m as [w p]. cbn [window panel]. intros C Hw Hh. cbv zeta.
  assert (Hw' : 60 <= innerWidth w) by lra.
  assert (Hh' : 60 <= innerHeight w) by lra.
  rewrite (@step_collapse w p C Hw' Hh'). cbn [panel].
  destruct (@handleCollapse_padded w p Hw' Hh')
    as [X0 [X1 [Y0 [Y1 [X12 Y12]]]]].
  destruct (X12 Hw) as [Xa Xb]. destruct (Y12 Hh) as [Ya Yb].
  repeat split; try assumption; lra.
Qed.

Lemma collapse_keeps_padding_witness :
  let m := {| window := sampleWindow; panel := panelAt 340 300 320 400 |} in
  let m' := step m click_collapse in
  12 <= x (position (panel m'))
  /\ x (position (panel m')) + 48 + 12 <= innerWidth (window m)
  /\ 12 <= y (position (panel m'))
  /\ y (position (panel m')) + 48 + 12 <= innerHeight (window m)
  /\ position (panel m') = position (handleCollapse (window m) (panel m)).
Proof.
  intros m. apply (@collapse_keeps_padding m).
  - reflexivity.
  - cbn. lra.
  - cbn. lra.
Defined.

(** X20. Collapsing and then expanding with a plain click gives back the
    size the panel had, but not its position: the panel reappears where
    the icon stood, moved left or up only as far as needed to fit, and is
    contained in the viewport. *)
Theorem collapse_expand_restores_size (m : Machine) (ax ay : Q) :
  isCollapsed (panel m) = false ->
  60 <= innerWidth (window m) -> 60 <= innerHeight (window m) ->
  fits m ->
  let icon := position (handleCollapse (window m) (panel m)) in
  let m' := run m [click_collapse; mousedown_drag ax ay; mouseup;
                   click_minimized] in
  isCollapsed (panel m') = false
  /\ size (panel m') = size (panel m)
  /\ contained m'
  /\ x (position (panel m'))
     == Qmin (x icon) (innerWidth (window m) - width (size (panel m)))
  /\ y (position (panel m'))
     == Qmin (y icon) (innerHeight (window m) - height (size (panel m))).
Proof.
  destruct m as [w p]. cbn [window panel]. intros C Hw Hh [Fw Fh].
  unfold footprintWidth, footprintHeight in Fw, Fh.
  cbn [window panel] in Fw, Fh. rewrite C in Fw, Fh. cbv zeta.
  cbn [run fold_left]. rewrite (@step_collapse w p C Hw Hh).
  destruct (@handleCollapse_padded w p Hw Hh) as [X0 [X1 [Y0 [Y1 _]]]].
  set (q := handleCollapse w p) in *.
  assert (Qc : isCollapsed q = true) by reflexivity.
  assert (Qs : size q = size p) by reflexivity.
  clearbody q.
  cbn [step panel window].
  replace (isCollapsed (handleMouseUp (handleDragStart ax ay q)))
    with true by (symmetry; exact Qc).
  cbv iota. unfold handleMinimizedClick.
  change (hasDraggedRef (handleMouseUp (handleDragStart ax ay q)))
    with false.
  cbn [negb]. unfold runEffects.
  rewrite depsChanged_mode_flip
    by (cbn [isCollapsed setIsCollapsed]; replace
          (isCollapsed (handleMouseUp (handleDragStart ax ay q)))
          with true by (symmetry; exact Qc); discriminate).
  set (r := setIsCollapsed false (handleMouseUp (handleDragStart ax ay q))).
  assert (Rx : x (position r) = x (position q)) by reflexivity.
  assert (Ry : y (position r) = y (position q)) by reflexivity.
  assert (Rs : size r = size p) by exact Qs.
  assert (Rw : footprintWidth r = width (size p))
    by (unfold footprintWidth; cbn [isCollapsed r setIsCollapsed];
        now rewrite Rs).
  assert (Rh : footprintHeight r = height (size p))
    by (unfold footprintHeight; cbn [isCollapsed r setIsCollapsed];
        now rewrite Rs).
  assert (N0 : 0 <= x (position r)) by (rewrite Rx; lra).
  assert (N1 : 0 <= y (position r)) by (rewrite Ry; lra).
  destruct (handleWindowResize_frame w r) as [Ec [Es _]].
  destruct (handleWindowResize_spec w r N0 N1) as [Sx Sy].
  rewrite Rx, Rw in Sx. rewrite Ry, Rh in Sy.
  split; [cbn [panel]; rewrite Ec; reflexivity|].
  split; [cbn [panel]; rewrite Es; exact Rs|].
  split; [apply handleWindowResize_contained; rewrite ?Rw, ?Rh; assumption|].
  cbn [panel window]. rewrite Sx, Sy.
  split; split_minmax; lra.
Qed.

Lemma collapse_expand_restores_size_witness :
  let m := {| window := sampleWindow; panel := panelAt 340 300 320 400 |} in
  let icon := position (handleCollapse (window m) (panel m)) in
  let m' := run m [click_collapse; mousedown_drag 500 760; mouseup;
                   click_minimized] in
  isCollapsed (panel m') = false
  /\ size (panel m') = size (panel m)
  /\ contained m'
  /\ x (position (panel m'))
     == Qmin (x icon) (innerWidth (window m) - width (size (panel m)))
  /\ y (position (panel m'))
     == Qmin (y icon) (innerHeight (window m) - height (size (panel m))).
Proof.
  intros m. apply (@collapse_expand_restores_size m 500 760).
  - reflexivity.
  - cbn. lra.
  - cbn. lra.
  - unfold fits. vm_compute. split; discriminate.
Defined.

(** ** After the gesture *)

Lemma step_idle_move (m : Machine) (cx cy : Q) :
  isDraggingRef (panel m) = false -> isResizingRef (panel m) = false ->
  step m (mousemove cx cy) = m.
Proof.
  destruct m as [w p]. cbn [panel]. intros D R.
  cbn [step panel window]. unfold handleMouseMove. rewrite D, R.
  unfold runEffects. now rewrite depsChanged_refl.
Qed.

(** X21. Once the pointer is released the panel ignores pointer moves:
    after pointer-up, any number of moves leaves position, size, mode and
    every flag exactly as pointer-up left them. *)
Theorem moves_after_release_ignored (m : Machine) (moves : list (Q * Q)) :
  run m (mouseup :: pointerMoves moves) = step m mouseup.
Proof.
  cbn [run fold_left].
  assert (D : isDraggingRef (panel (step m mouseup)) = false)
    by reflexivity.
  assert (R : isResizingRef (panel (step m mouseup)) = false)
    by reflexivity.
  revert D R. generalize (step m mouseup). clear m. intros m D R.
  induction moves as [|[a b] moves IH]; [reflexivity|].
  cbn [pointerMoves map fold_left fst snd].
  rewrite (@step_idle_move m a b D R). exact IH.
Qed.

End PanelExtras.

(* ================================================================== *)
(** * Scrolling to a prompt *)
(* ================================================================== *)

Module HighlightExtras.
Import Highlight.

(** One turn of the symbolic event loop: unfold, then settle every
    comparison of instants by arithmetic. *)
Ltac tick :=
  cbn [runTimers popEarliest runCallback setTimeout setOutline
       setTransition scrollIntoView pending clock style scrolledIntoView
       fst snd app List.length Nat.mul Nat.add];
  repeat match goal with
  | |- context [?a <? ?b] =>
      destruct (Nat.ltb_spec a b); [try (exfalso; lia) | try (exfalso; lia)]
  | |- context [?a <=? ?b] =>
      destruct (Nat.leb_spec a b); [try (exfalso; lia) | try (exfalso; lia)]
  end.

(** Read a style or the timers off a world built by the setters. *)
Ltac look :=
  repeat (cbn [style pending scrolledIntoView clock setTimeout setOutline
               setTransition scrollIntoView runCallback outline transition
               app];
          rewrite ?Nat.eqb_refl).

Lemma style_eta (s : Style) :
  {| outline := outline s; transition := transition s |} = s.
Proof. destruct s; reflexivity. Qed.

(** X22. A single highlight restores the element's inline style exactly:
    with no timer pending before, the outline and the transition show the
    highlight for the first 1500ms, the outline is back to its original
    value from 1500ms on, and from 1800ms on both properties have their
    original values and no timer is left; no other element's style is
    ever touched, and the element is scrolled into view once. *)
Theorem highlight_restores_style
    (w : World) (prompt : Scanner.ChatPrompt) (t : nat) :
  pending w = [] ->
  let el := Scanner.nodeId (Scanner.element prompt) in
  let w' := advance t (scrollToPrompt prompt w) in
  HIGHLIGHT_MS = 1500 /\ RESTORE_MS = 300
  /\ (t < clock w + HIGHLIGHT_MS ->
      style w' el = {| outline := highlightOutline;
                       transition := highlightTransition |})
  /\ (clock w + HIGHLIGHT_MS <= t ->
      t < clock w + HIGHLIGHT_MS + RESTORE_MS ->
      style w' el = {| outline := outline (style w el);
                       transition := highlightTransition |})
  /\ (clock w + HIGHLIGHT_MS + RESTORE_MS <= t ->
      style w' el = style w el /\ pending w' = [])
  /\ (forall n, n <> el -> style w' n = style w n)
  /\ scrolledIntoView w' = scrolledIntoView w ++ [el].
Proof.
  destruct w as [c st sc pd]. cbn [pending clock style scrolledIntoView].
  intros ->. cbv zeta. unfold advance, scrollToPrompt. cbv zeta.
  set (el := Scanner.nodeId (Scanner.element prompt)).
  split; [reflexivity|]. split; [reflexivity|].
  split; [|split; [|split; [|split]]].
  - intros H. repeat (look; tick). reflexivity.
  - intros H1 H2. repeat (look; tick). reflexivity.
  - intros H. repeat (look; tick). split; [apply style_eta | reflexivity].
  - intros n Hn. apply Nat.eqb_neq in Hn.
    repeat (look; tick); rewrite ?Hn; reflexivity.
  - repeat (look; tick); reflexivity.
Qed.

Lemma highlight_restores_style_witness :
  let el := Scanner.nodeId (Scanner.element Samples.hiPrompt) in
  let w' := advance 1800 (scrollToPrompt Samples.hiPrompt Samples.quietPage) in
  style w' el = style Samples.quietPage el /\ pending w' = [].
Proof.
  intros el w'.
  refine (proj1 (proj2 (proj2 (proj2 (proj2
            (@highlight_restores_style Samples.quietPage
               Samples.hiPrompt 1800 eq_refl))))) _).
  unfold HIGHLIGHT_MS, RESTORE_MS. cbn [clock Samples.quietPage]. lia.
Defined.

(** X23. The restoration is exact only when highlights do not overlap.
    When the same element is highlighted again less than 1500ms after a
    first highlight, the second call records the highlight itself as the
    original style, and once all timers have fired the element is left
    with the highlight outline and transition instead of its own. *)
Theorem overlapping_highlight_sticks
    (w : World) (prompt : Scanner.ChatPrompt) (d t : nat) :
  pending w = [] ->
  d < HIGHLIGHT_MS ->
  clock w + d + HIGHLIGHT_MS + RESTORE_MS <= t ->
  let el := Scanner.nodeId (Scanner.element prompt) in
  let w1 := advance (clock w + d) (scrollToPrompt prompt w) in
  let w' := advance t (scrollToPrompt prompt w1) in
  HIGHLIGHT_MS = 1500 /\ RESTORE_MS = 300
  /\ style w' el = {| outline := highlightOutline;
                      transition := highlightTransition |}
  /\ pending w' = [].
Proof.
  destruct w as [c st sc pd]. cbn [pending clock style scrolledIntoView].
  intros -> D T. cbv zeta. unfold advance, scrollToPrompt. cbv zeta.
  set (el := Scanner.nodeId (Scanner.element prompt)).
  split; [reflexivity|]. split; [reflexivity|].
  repeat (look; tick); split; reflexivity.
Qed.

Lemma overlapping_highlight_sticks_witness :
  let el := Scanner.nodeId (Scanner.element Samples.hiPrompt) in
  let w1 := advance (0 + 400)
              (scrollToPrompt Samples.hiPrompt Samples.quietPage) in
  let w' := advance 3000 (scrollToPrompt Samples.hiPrompt w1) in
  HIGHLIGHT_MS = 1500 /\ RESTORE_MS = 300
  /\ style w' el = {| outline := highlightOutline;
                      transition := highlightTransition |}
  /\ pending w' = [].
Proof.
  apply (@overlapping_highlight_sticks Samples.quietPage Samples.hiPrompt
           400 3000).
  - reflexivity.
  - unfold HIGHLIGHT_MS. lia.
  - unfold HIGHLIGHT_MS, RESTORE_MS. cbn [clock Samples.quietPage]. lia.
Defined.

End HighlightExtras.

(* ================================================================== *)
(** * Mounting the panel *)
(* ================================================================== *)

Module ContentScriptExtras.
Import ContentScript JsStringFacts.

Lemma initBackTrack_present (h : jsstring) (dom : Dom) :
  getElementById EXTENSION_ROOT_ID dom = true ->
  elementIds (initBackTrack h dom) = elementIds dom
  /\ reactRoots (initBackTrack h dom) = reactRoots dom.
Proof.
  intros G. unfold initBackTrack. rewrite G. split; reflexivity.
Qed.

Lemma initBackTrack_absent (h : jsstring) (dom : Dom) :
  getElementById EXTENSION_ROOT_ID dom = false ->
  elementIds (initBackTrack h dom)
  = elementIds dom ++ (if supported h then [EXTENSION_ROOT_ID] else [])
  /\ reactRoots (initBackTrack h dom)
     = reactRoots dom + (if supported h then 1 else 0).
Proof.
  intros G. unfold initBackTrack, supported. rewrite G.
  destruct (detectPlatform h); cbn [elementIds reactRoots console_log];
    rewrite ?app_nil_r; split; reflexivity || lia.
Qed.

Lemma attempts_present (hs : list jsstring) :
  forall dom,
    getElementById EXTENSION_ROOT_ID dom = true ->
    elementIds (attempts hs dom) = elementIds dom
    /\ reactRoots (attempts hs dom) = reactRoots dom.
Proof.
  induction hs as [|h hs IH]; intros dom G; [split; reflexivity|].
  cbn [attempts fold_left]. fold (attempts hs (initBackTrack h dom)).
  destruct (initBackTrack_present h dom G) as [E1 E2].
  assert (G' : getElementById EXTENSION_ROOT_ID (initBackTrack h dom) = true)
    by (unfold getElementById in *; now rewrite E1).
  destruct (IH _ G') as [I1 I2]. split; congruence.
Qed.

(** X24. However many times initialisation is attempted, and on whatever
    hostnames, the panel is mounted at most once: starting from a document
    without the root element, the attempts add exactly one root element
    and render exactly one React root if some attempt sees a supported
    hostname, and none otherwise; attempts made once the root exists
    change nothing. *)
Theorem init_mounts_at_most_once (hs : list jsstring) (dom : Dom) :
  getElementById EXTENSION_ROOT_ID dom = false ->
  elementIds (attempts hs dom)
  = elementIds dom
    ++ (if existsb supported hs then [EXTENSION_ROOT_ID] else [])
  /\ reactRoots (attempts hs dom)
     = reactRoots dom + (if existsb supported hs then 1 else 0).
Proof.
  revert dom. induction hs as [|h hs IH]; intros dom G.
  - cbn. rewrite app_nil_r. split; [reflexivity | lia].
  - cbn [attempts fold_left existsb].
    fold (attempts hs (initBackTrack h dom)).
    destruct (initBackTrack_absent h dom G) as [E1 E2].
    destruct (supported h) eqn:S1; cbn [orb].
    + assert (G' : getElementById EXTENSION_ROOT_ID (initBackTrack h dom)
                   = true).
      { unfold getElementById. rewrite E1, existsb_app. cbn [existsb].
        replace (JsString.eqb EXTENSION_ROOT_ID EXTENSION_ROOT_ID)
          with true by (symmetry; now apply eqb_eq).
        now rewrite orb_true_r. }
      destruct (attempts_present hs _ G') as [I1 I2]. split; congruence.
    + rewrite app_nil_r in E1.
      assert (G' : getElementById EXTENSION_ROOT_ID (initBackTrack h dom)
                   = false)
        by (unfold getElementById in *; now rewrite E1).
      destruct (IH _ G') as [I1 I2]. rewrite I1, I2, E1, E2.
      split; [reflexivity | lia].
Qed.

Lemma init_mounts_at_most_once_witness :
  let dom := {| elementIds := [lit "app"]; reactRoots := 0; console := [] |} in
  let hs := [lit "example.org"; lit "claude.ai"; lit "claude.ai";
             lit "chatgpt.com"] in
  elementIds (attempts hs dom)
  = elementIds dom
    ++ (if existsb supported hs then [EXTENSION_ROOT_ID] else [])
  /\ reactRoots (attempts hs dom)
     = reactRoots dom + (if existsb supported hs then 1 else 0).
Proof.
  intros dom hs. apply init_mounts_at_most_once. vm_compute. reflexivity.
Defined.

End ContentScriptExtras.

(* ================================================================== *)
(** * Further properties of the icon script *)
(* ================================================================== *)

Module IconsExtras.
Import Icons.
Local Open Scope Z_scope.

Lemma firstn_prefix (A : Type) (a b : list A) :
  firstn (List.length a) (a ++ b) = a.
Proof.
  induction a as [|x a IH]; [reflexivity|]. cbn. now rewrite IH.
Qed.

Lemma skipn_prefix_add (A : Type) (a b : list A) (n : nat) :
  skipn (List.length a + n) (a ++ b) = skipn n b.
Proof.
  induction a as [|x a IH]; [reflexivity|]. cbn. exact IH.
Qed.

Lemma skipn_prefix (A : Type) (a b : list A) :
  skipn (List.length a) (a ++ b) = b.
Proof.
  rewrite <- (Nat.add_0_r (List.length a)). apply skipn_prefix_add.
Qed.

Lemma bigEndian32_round_trip (v : Z) :
  0 <= v < 2 ^ 32 -> readUInt32BE (bigEndian32 v) = v.
Proof.
  intros Hv. unfold readUInt32BE, bigEndian32.
  change (2 ^ 32) with 4294967296 in Hv.
  Z.div_mod_to_equations. lia.
Qed.

Lemma bigEndian32_bytes (v : Z) :
  0 <= v < 2 ^ 32 -> Forall isByte (bigEndian32 v).
Proof.
  intros Hv. change (2 ^ 32) with 4294967296 in Hv.
  unfold bigEndian32, isByte.
  repeat apply Forall_cons; try apply Forall_nil;
    Z.div_mod_to_equations; lia.
Qed.

Lemma writeUInt32BE_fresh (v : Z) :
  0 <= v < 2 ^ 32 -> writeUInt32BE (alloc 4) v 0 = Ok (bigEndian32 v).
Proof.
  intros Hv. unfold writeUInt32BE.
  replace (0 <=? v) with true by (symmetry; apply Z.leb_le; lia).
  replace (v <? 2 ^ 32) with true by (symmetry; apply Z.ltb_lt; lia).
  reflexivity.
Qed.

Lemma writeUInt32BE_range (buf : Buffer) (v : Z) (offset : nat) :
  ~ 0 <= v < 2 ^ 32 ->
  writeUInt32BE buf v offset = Throw (lit "RangeError").
Proof.
  intros Hv. unfold writeUInt32BE.
  destruct (0 <=? v) eqn:A; [|reflexivity].
  destruct (v <? 2 ^ 32) eqn:B; [|reflexivity].
  apply Z.leb_le in A. apply Z.ltb_lt in B. lia.
Qed.

Lemma toUint32_range (z : Z) : 0 <= toUint32 z < 2 ^ 32.
Proof. unfold toUint32. apply Z.mod_pos_bound. reflexivity. Qed.

Lemma ushr32_0 (c : Z) : ushr32 c 0 = c mod 2 ^ 32.
Proof. unfold ushr32, toUint32. apply Z.shiftr_0_r. Qed.

Lemma createChunk_ok (type : string) (data : Buffer) :
  Z.of_nat (List.length data) < 2 ^ 32 ->
  createChunk type data
  = Ok (bigEndian32 (Z.of_nat (List.length data)) ++ bufferFrom type ++ data
        ++ bigEndian32 (crc32 (bufferFrom type ++ data) mod 2 ^ 32)).
Proof.
  intros Hn. unfold createChunk.
  rewrite writeUInt32BE_fresh by lia. cbn [bind].
  rewrite ushr32_0, writeUInt32BE_fresh; [reflexivity|].
  apply Z.mod_pos_bound. reflexivity.
Qed.

(** X25. A chunk built from fewer than 2^32 bytes of data is laid out as
    a PNG reader expects: four bytes holding the data length in big-endian
    order, the bytes of the type, the data unchanged, and four bytes
    holding the unsigned CRC of type and data; its length is the data
    length plus the type length plus eight. *)
Theorem chunk_layout (type : string) (data : Buffer) :
  Z.of_nat (List.length data) < 2 ^ 32 ->
  let t := List.length (bufferFrom type) in
  let n := List.length data in
  exists chunk,
    createChunk type data = Ok chunk
    /\ List.length chunk = (n + t + 8)%nat
    /\ readUInt32BE (firstn 4 chunk) = Z.of_nat n
    /\ firstn t (skipn 4 chunk) = bufferFrom type
    /\ firstn n (skipn (4 + t) chunk) = data
    /\ readUInt32BE (skipn (4 + t + n) chunk)
       = crc32 (bufferFrom type ++ data) mod 2 ^ 32.
Proof.
  intros Hn t n. eexists. split; [apply createChunk_ok; exact Hn|].
  assert (Hc : 0 <= crc32 (bufferFrom type ++ data) mod 2 ^ 32 < 2 ^ 32)
    by (apply Z.mod_pos_bound; reflexivity).
  set (c := crc32 (bufferFrom type ++ data) mod 2 ^ 32) in *. clearbody c.
  assert (Hl : 0 <= Z.of_nat n < 2 ^ 32) by (subst n; lia).
  fold n. set (l := Z.of_nat n) in *. clearbody l.
  repeat split.
  - rewrite !length_app. cbn [bigEndian32 List.length]. fold t n. lia.
  - cbn [bigEndian32 app firstn]. now apply bigEndian32_round_trip.
  - cbn [bigEndian32 app skipn]. apply firstn_prefix.
  - cbn [bigEndian32 app skipn Nat.add]. subst t.
    rewrite skipn_prefix. apply firstn_prefix.
  - cbn [bigEndian32 app skipn Nat.add]. subst t n.
    rewrite skipn_prefix_add, skipn_prefix.
    now apply bigEndian32_round_trip.
Qed.

Lemma chunk_layout_witness :
  let type := "IDAT"%string in
  let data := [120; 156; 99; 0; 1] in
  let t := List.length (bufferFrom type) in
  let n := List.length data in
  exists chunk,
    createChunk type data = Ok chunk
    /\ List.length chunk = (n + t + 8)%nat
    /\ readUInt32BE (firstn 4 chunk) = Z.of_nat n
    /\ firstn t (skipn 4 chunk) = bufferFrom type
    /\ firstn n (skipn (4 + t) chunk) = data
    /\ readUInt32BE (skipn (4 + t + n) chunk)
       = crc32 (bufferFrom type ++ data) mod 2 ^ 32.
Proof.
  intros type data. apply (chunk_layout type data). cbn. lia.
Defined.

(** ** The raw image *)

Lemma setByte_at (a b : Buffer) (x v : Z) (i : nat) :
  List.length a = i ->
  setByte (a ++ x :: b) i v = a ++ (v mod 256) :: b.
Proof.
  intros <-. unfold setByte.
  replace (List.length a <? List.length (a ++ x :: b))%nat with true
    by (symmetry; apply Nat.ltb_lt; rewrite length_app; cbn; lia).
  rewrite firstn_prefix.
  replace (S (List.length a)) with (List.length (a ++ [x]))
    by (rewrite length_app; cbn; lia).
  replace (a ++ x :: b) with ((a ++ [x]) ++ b)
    by (now rewrite <- app_assoc).
  now rewrite skipn_prefix.
Qed.

Lemma concat_repeat_snoc (A : Type) (l : list A) (n : nat) :
  List.concat (List.repeat l (S n)) = List.concat (List.repeat l n) ++ l.
Proof.
  induction n as [|n IH]; [cbn; now rewrite app_nil_r|].
  change (List.repeat l (S (S n))) with (l :: List.repeat l (S n)).
  cbn [List.concat]. rewrite IH at 1. cbn [List.repeat List.concat].
  now rewrite app_assoc.
Qed.

Lemma length_concat_repeat (A : Type) (l : list A) (n : nat) :
  List.length (List.concat (List.repeat l n)) = (n * List.length l)%nat.
Proof.
  induction n as [|n IH]; [reflexivity|].
  cbn [List.repeat List.concat]. rewrite length_app, IH. lia.
Qed.

Lemma fillPixels (base : nat) (post : Buffer) (m j : nat) (pre : Buffer) :
  List.length pre = base ->
  fold_left
    (fun rawData x =>
       let offset := (base + x * 3)%nat in
       let rawData := setByte rawData offset 79 in
       let rawData := setByte rawData (offset + 1) 70 in
       setByte rawData (offset + 2) 229)
    (seq j m)
    (pre ++ List.concat (List.repeat [79; 70; 229] j)
         ++ List.repeat 0 (m * 3) ++ post)
  = pre ++ List.concat (List.repeat [79; 70; 229] (j + m)) ++ post.
Proof.
  intros Hpre. revert j. induction m as [|m IH]; intros j.
  - cbn. now rewrite Nat.add_0_r.
  - cbn [seq fold_left Nat.mul Nat.add List.repeat app].
    set (P := List.concat (List.repeat [79; 70; 229] j)).
    assert (HP : List.length (pre ++ P) = (base + j * 3)%nat).
    { rewrite length_app. unfold P. rewrite length_concat_repeat.
      cbn [List.length]. lia. }
    rewrite (app_assoc pre P).
    rewrite (@setByte_at (pre ++ P) _ 0 79 _ HP).
    replace ((pre ++ P) ++ 79 mod 256 :: 0 :: 0 :: List.repeat 0 (m * 3) ++ post)
      with (((pre ++ P) ++ [79]) ++ 0 :: 0 :: List.repeat 0 (m * 3) ++ post)
      by (now rewrite <- (app_assoc (pre ++ P))).
    rewrite (@setByte_at ((pre ++ P) ++ [79]) _ 0 70 (base + j * 3 + 1))
      by (rewrite length_app, HP; cbn; lia).
    replace (((pre ++ P) ++ [79]) ++ 70 mod 256 :: 0 :: List.repeat 0 (m * 3) ++ post)
      with ((((pre ++ P) ++ [79]) ++ [70]) ++ 0 :: List.repeat 0 (m * 3) ++ post)
      by (now rewrite <- (app_assoc ((pre ++ P) ++ [79]))).
    rewrite (@setByte_at (((pre ++ P) ++ [79]) ++ [70]) _ 0 229
               (base + j * 3 + 2))
      by (do 2 rewrite (length_app (_ ++ _)); rewrite HP; cbn; lia).
    replace ((((pre ++ P) ++ [79]) ++ [70]) ++ 229 mod 256 :: List.repeat 0 (m * 3) ++ post)
      with (pre ++ List.concat (List.repeat [79; 70; 229] (S j))
                ++ List.repeat 0 (m * 3) ++ post).
    + rewrite IH. now replace (S j + m)%nat with (j + S m)%nat by lia.
    + rewrite concat_repeat_snoc. fold P.
      rewrite <- !app_assoc. reflexivity.
Qed.

Lemma fillRow_row (width y : nat) (pre post : Buffer) :
  List.length pre = (y * (width * 3 + 1))%nat ->
  fillRow width (pre ++ List.repeat 0 (width * 3 + 1) ++ post) y
  = pre ++ pixelRow width ++ post.
Proof.
  intros Hpre. unfold fillRow.
  replace (width * 3 + 1)%nat with (S (width * 3)) in * by lia.
  cbn [List.repeat app].
  rewrite (@setByte_at pre _ 0 0 _ Hpre).
  change (0 mod 256) with 0.
  pose proof (@fillPixels (y * S (width * 3) + 1) post width 0 (pre ++ [0]))
    as F.
  cbn [List.repeat List.concat app Nat.add] in F.
  rewrite <- !app_assoc in F. cbn [app] in F.
  unfold pixelRow. cbn [app]. apply F.
  rewrite length_app, Hpre. reflexivity.
Qed.

Lemma fillRows (width n k : nat) :
  fold_left (fillRow width) (seq k n)
    (List.concat (List.repeat (pixelRow width) k)
       ++ List.repeat 0 ((width * 3 + 1) * n))
  = List.concat (List.repeat (pixelRow width) (k + n)).
Proof.
  revert k. induction n as [|n IH]; intros k.
  - cbn [seq fold_left]. rewrite Nat.mul_0_r, Nat.add_0_r.
    cbn. now rewrite app_nil_r.
  - cbn [seq fold_left].
    replace ((width * 3 + 1) * S n)%nat
      with ((width * 3 + 1) + (width * 3 + 1) * n)%nat by lia.
    rewrite repeat_app, fillRow_row.
    + rewrite app_assoc, <- concat_repeat_snoc, IH.
      now replace (S k + n)%nat with (k + S n)%nat by lia.
    + rewrite length_concat_repeat. unfold pixelRow.
      cbn [List.length]. rewrite length_concat_repeat. cbn [List.length].
      lia.
Qed.

Lemma fillImage_closed (width height : nat) :
  fillImage width height
  = List.concat (List.repeat (pixelRow width) height).
Proof.
  unfold fillImage, fillLoops, alloc. exact (fillRows width height 0).
Qed.

(** X26. The two nested loops fill the whole raw buffer, with no byte
    left over: for every width and height the result is [height] equal
    rows, each the filter byte 0 followed by [width] pixels 79, 70, 229,
    so its length is (3 * width + 1) * height. *)
Theorem fillImage_rows (width height : nat) :
  fillImage width height
  = List.concat (List.repeat (pixelRow width) height)
  /\ List.length (fillImage width height)
     = ((3 * width + 1) * height)%nat.
Proof.
  split; [apply fillImage_closed|].
  rewrite fillImage_closed, length_concat_repeat. unfold pixelRow.
  cbn [List.length]. rewrite length_concat_repeat. cbn [List.length]. lia.
Qed.

(** ** The whole file *)

Lemma ihdr_writes (A : Type) (v : Z) (k : Buffer -> result A) :
  0 <= v < 2 ^ 32 ->
  (ihdrData <- writeUInt32BE (alloc 13) v 0 ;;
   ihdrData <- writeUInt32BE ihdrData v 4 ;;
   ihdrData <- writeUInt8 ihdrData 8 8 ;;
   ihdrData <- writeUInt8 ihdrData 2 9 ;;
   ihdrData <- writeUInt8 ihdrData 0 10 ;;
   ihdrData <- writeUInt8 ihdrData 0 11 ;;
   ihdrData <- writeUInt8 ihdrData 0 12 ;;
   k ihdrData)
  = k (bigEndian32 v ++ bigEndian32 v ++ [8; 2; 0; 0; 0]).
Proof.
  intros Hv. unfold writeUInt32BE, writeUInt8.
  replace (0 <=? v) with true by (symmetry; apply Z.leb_le; lia).
  replace (v <? 2 ^ 32) with true by (symmetry; apply Z.ltb_lt; lia).
  unfold bigEndian32.
  generalize (v / 16777216), ((v / 65536) mod 256), ((v / 256) mod 256),
    (v mod 256).
  intros b3 b2 b1 b0. reflexivity.
Qed.

(** X27. For a size below 2^32: when the raw image of (3 * size + 1) *
    size bytes does not exceed [buffer.constants.MAX_LENGTH] and the
    compressor's output is shorter than 2^32 bytes, [createSimplePNG]
    returns the PNG signature followed by exactly three chunks: an IHDR
    chunk giving the size as width and height, 8 bits per channel, colour
    type 2 and no interlacing; an IDAT chunk holding the compressed rows
    of indigo pixels; and an empty IEND chunk; the file is 57 bytes
    longer than the compressed data.  When the raw image would exceed
    [buffer.constants.MAX_LENGTH] the call raises a RangeError. *)
Theorem png_structure (MAX_LENGTH : nat) (deflateSync : Buffer -> Buffer)
    (size : nat) :
  Z.of_nat size < 2 ^ 32 ->
  let compressed :=
    deflateSync (List.concat (List.repeat (pixelRow size) size)) in
  let header :=
    bigEndian32 (Z.of_nat size) ++ bigEndian32 (Z.of_nat size)
      ++ [8; 2; 0; 0; 0] in
  (((size * 3 + 1) * size <= MAX_LENGTH)%nat ->
   Z.of_nat (List.length compressed) < 2 ^ 32 ->
   exists ihdr idat iend,
     createSimplePNG MAX_LENGTH deflateSync size
     = Ok (signature ++ ihdr ++ idat ++ iend)
     /\ createChunk "IHDR" header = Ok ihdr
     /\ createChunk "IDAT" compressed = Ok idat
     /\ createChunk "IEND" [] = Ok iend
     /\ List.length (signature ++ ihdr ++ idat ++ iend)
        = (57 + List.length compressed)%nat)
  /\ ((MAX_LENGTH < (size * 3 + 1) * size)%nat ->
      createSimplePNG MAX_LENGTH deflateSync size
      = Throw (lit "RangeError")).
Proof.
  intros Hs compressed header.
  assert (Hh : Z.of_nat (List.length header) < 2 ^ 32)
    by (subst header; cbn [bigEndian32 app List.length]; lia).
  assert (He : Z.of_nat (List.length (@nil Z)) < 2 ^ 32)
    by (cbn [List.length]; lia).
  split.
  - intros Hm Hc. do 3 eexists. unfold createSimplePNG.
    rewrite ihdr_writes by lia. fold header.
    rewrite (createChunk_ok "IHDR" header Hh). cbn [bind].
    unfold Buffer_alloc.
    replace ((size * 3 + 1) * size <=? MAX_LENGTH)%nat with true
      by (symmetry; now apply Nat.leb_le).
    cbn [bind]. fold (fillImage size size).
    rewrite fillImage_closed. fold compressed.
    rewrite (createChunk_ok "IDAT" compressed Hc).
    change (alloc 0) with (@nil Z).
    rewrite (createChunk_ok "IEND" [] He). cbn [bind].
    repeat split.
    rewrite !length_app.
    change (List.length (bufferFrom "IHDR")) with 4%nat.
    change (List.length (bufferFrom "IDAT")) with 4%nat.
    change (List.length (bufferFrom "IEND")) with 4%nat.
    subst header. rewrite !length_app.
    cbn [bigEndian32 signature List.length]. lia.
  - intros Hm. unfold createSimplePNG.
    rewrite ihdr_writes by lia. fold header.
    rewrite (createChunk_ok "IHDR" header Hh). cbn [bind].
    unfold Buffer_alloc.
    replace ((size * 3 + 1) * size <=? MAX_LENGTH)%nat with false
      by (symmetry; apply Nat.leb_gt; exact Hm).
    reflexivity.
Qed.

(** A 2 by 2 icon with a compressor that stores its input behind two
    bytes: the 14 raw bytes fit a limit of 1000 and exceed a limit of
    10. *)
Lemma png_structure_witness :
  let deflateSync := fun raw : Buffer => 120 :: 1 :: raw in
  let size := 2%nat in
  let compressed :=
    deflateSync (List.concat (List.repeat (pixelRow size) size)) in
  let header :=
    bigEndian32 (Z.of_nat size) ++ bigEndian32 (Z.of_nat size)
      ++ [8; 2; 0; 0; 0] in
  (exists ihdr idat iend,
     createSimplePNG 1000 deflateSync size
     = Ok (signature ++ ihdr ++ idat ++ iend)
     /\ createChunk "IHDR" header = Ok ihdr
     /\ createChunk "IDAT" compressed = Ok idat
     /\ createChunk "IEND" [] = Ok iend
     /\ List.length (signature ++ ihdr ++ idat ++ iend)
        = (57 + List.length compressed)%nat)
  /\ createSimplePNG 10 deflateSync size = Throw (lit "RangeError").
Proof.
  intros deflateSync size.
  assert (Hs : Z.of_nat size < 2 ^ 32) by (cbn; lia).
  split.
  - apply (proj1 (png_structure 1000 deflateSync size Hs)); cbn; lia.
  - apply (proj2 (png_structure 10 deflateSync size Hs)). cbn. lia.
Defined.

(** ** The checksum *)

Lemma toUint32_toInt32 (z : Z) : toUint32 (toInt32 z) = toUint32 z.
Proof.
  unfold toUint32, toInt32. rewrite Zminus_mod_idemp_l. f_equal. lia.
Qed.

Lemma toInt32_small (z : Z) : - 2 ^ 31 <= z < 2 ^ 31 -> toInt32 z = z.
Proof.
  intros Hz. unfold toInt32. rewrite Z.mod_small; lia.
Qed.

Lemma toUint32_small (z : Z) : 0 <= z < 2 ^ 32 -> toUint32 z = z.
Proof. intros Hz. unfold toUint32. now apply Z.mod_small. Qed.

Lemma mod_lxor (a b : Z) :
  Z.lxor a b mod 2 ^ 32 = Z.lxor (a mod 2 ^ 32) (b mod 2 ^ 32).
Proof.
  apply Z.bits_inj'. intros n Hn. rewrite Z.lxor_spec.
  destruct (Z.lt_ge_cases n 32) as [L|L].
  - rewrite !Z.mod_pow2_bits_low by lia. now rewrite Z.lxor_spec.
  - rewrite !Z.mod_pow2_bits_high by lia. reflexivity.
Qed.

Lemma toUint32_xor32 (a b : Z) :
  toUint32 (xor32 a b) = Z.lxor (toUint32 a) (toUint32 b).
Proof.
  unfold xor32. rewrite toUint32_toInt32. unfold toUint32 at 1.
  rewrite mod_lxor. fold (toUint32 (toInt32 a)) (toUint32 (toInt32 b)).
  now rewrite !toUint32_toInt32.
Qed.

Lemma and32_255 (x : Z) : and32 x 255 = toUint32 x mod 256.
Proof.
  unfold and32. rewrite (@toInt32_small 255) by lia.
  change 255 with (Z.ones 8). rewrite Z.land_ones by lia.
  change (2 ^ 8) with 256.
  rewrite (@toInt32_small (toInt32 x mod 256))
    by (pose proof (Z.mod_pos_bound (toInt32 x) 256); lia).
  unfold toInt32, toUint32. change (2 ^ 32) with 4294967296.
  change (2 ^ 31) with 2147483648. Z.div_mod_to_equations. lia.
Qed.

Lemma crcBit_lxor (a b : Z) :
  crcBit (Z.lxor a b) = Z.lxor (crcBit a) (crcBit b).
Proof.
  unfold crcBit. generalize 3988292384. intros P.
  rewrite Z.shiftr_lxor, <- !Z.bit0_odd, Z.lxor_spec.
  generalize (Z.shiftr a 1), (Z.shiftr b 1). intros sa sb.
  destruct (Z.testbit a 0), (Z.testbit b 0); cbn [xorb];
    apply Z.bits_inj'; intros n _; rewrite !Z.lxor_spec;
    destruct (Z.testbit P n), (Z.testbit sa n), (Z.testbit sb n);
    reflexivity.
Qed.

Lemma iter_crcBit_lxor (k : nat) (a b : Z) :
  Nat.iter k crcBit (Z.lxor a b)
  = Z.lxor (Nat.iter k crcBit a) (Nat.iter k crcBit b).
Proof.
  induction k as [|k IH]; [reflexivity|].
  rewrite !Nat.iter_succ, IH. apply crcBit_lxor.
Qed.

Lemma iter_crcBit_shifted (k : nat) (y : Z) :
  Nat.iter k crcBit (Z.shiftl y (Z.of_nat k)) = y.
Proof.
  induction k as [|k IH]; [cbn; apply Z.shiftl_0_r|].
  rewrite Nat.iter_succ_r.
  replace (crcBit (Z.shiftl y (Z.of_nat (S k))))
    with (Z.shiftl y (Z.of_nat k)); [exact IH|].
  unfold crcBit. rewrite <- Z.bit0_odd, Z.shiftl_spec_low by lia.
  rewrite Z.shiftr_shiftl_l by lia. f_equal. lia.
Qed.

Lemma split_low_byte (x : Z) :
  x = Z.lxor (x mod 2 ^ 8) (Z.shiftl (Z.shiftr x 8) 8).
Proof.
  apply Z.bits_inj'. intros n Hn. rewrite Z.lxor_spec.
  destruct (Z.lt_ge_cases n 8) as [L|L].
  - rewrite Z.mod_pow2_bits_low, Z.shiftl_spec_low by lia.
    now rewrite xorb_false_r.
  - rewrite Z.mod_pow2_bits_high, Z.shiftl_spec_high by lia.
    rewrite Z.shiftr_spec by lia. cbn [xorb]. f_equal. lia.
Qed.

Lemma byte_at_a_time (x : Z) :
  Nat.iter 8 crcBit x
  = Z.lxor (Nat.iter 8 crcBit (x mod 256)) (Z.shiftr x 8).
Proof.
  rewrite (split_low_byte x) at 1. rewrite iter_crcBit_lxor.
  change (2 ^ 8) with 256. f_equal.
  exact (iter_crcBit_shifted 8 (Z.shiftr x 8)).
Qed.

Lemma table_entries :
  forallb
    (fun k => toUint32 (tableAt (Z.of_nat k))
              =? Nat.iter 8 crcBit (Z.of_nat k))
    (seq 0 256) = true.
Proof. vm_compute. reflexivity. Qed.

Lemma tableAt_bitwise (i : Z) :
  0 <= i < 256 -> toUint32 (tableAt i) = Nat.iter 8 crcBit i.
Proof.
  intros Hi. pose proof table_entries as T.
  rewrite forallb_forall in T. specialize (T (Z.to_nat i)).
  rewrite Z2Nat.id in T by lia. apply Z.eqb_eq, T, in_seq. lia.
Qed.

Lemma crc_step (crc b : Z) :
  isByte b -> toUint32 (crcStep crc b) = crcByte (toUint32 crc) b.
Proof.
  intros Hb. unfold isByte in Hb. unfold crcStep.
  rewrite toUint32_xor32, and32_255, toUint32_xor32.
  rewrite (@toUint32_small b) by lia.
  pose proof (toUint32_range crc) as Hu. set (u := toUint32 crc) in *.
  rewrite tableAt_bitwise by (apply Z.mod_pos_bound; lia).
  unfold ushr32. fold u.
  assert (Hs : 0 <= Z.shiftr u 8 < 2 ^ 32).
  { rewrite Z.shiftr_div_pow2 by lia. change (2 ^ 8) with 256.
    change (2 ^ 32) with 4294967296 in *. Z.div_mod_to_equations. lia. }
  rewrite (@toUint32_small (Z.shiftr u 8)) by exact Hs.
  unfold crcByte. rewrite (byte_at_a_time (Z.lxor u b)).
  rewrite Z.shiftr_lxor. f_equal.
  replace (Z.shiftr b 8) with 0; [now rewrite Z.lxor_0_r|].
  rewrite Z.shiftr_div_pow2 by lia. change (2 ^ 8) with 256.
  symmetry. apply Z.div_small. lia.
Qed.

Lemma fold_left_step (A B : Type) (f : A -> B -> A) (b : B) (l : list B)
    (a : A) :
  fold_left f (b :: l) a = fold_left f l (f a b).
Proof. reflexivity. Qed.

Lemma crc_loop (buffer : Buffer) (crc : Z) :
  Forall isByte buffer ->
  toUint32 (fold_left crcStep buffer crc)
  = fold_left crcByte buffer (toUint32 crc).
Proof.
  intros Hb. revert crc.
  induction Hb as [|b buffer Hb _ IH]; intros crc; [reflexivity|].
  rewrite !fold_left_step, IH, (@crc_step crc b Hb). reflexivity.
Qed.

(** X28. The table-driven checksum is the standard CRC-32: on a buffer
    of bytes, [crc32] read as an unsigned 32-bit number (as [createChunk]
    stores it) equals the checksum computed one bit at a time with the
    reflected polynomial 0xEDB88320, initial value 0xFFFFFFFF and final
    complement. *)
Theorem crc32_is_bitwise_crc (buffer : Buffer) :
  Forall isByte buffer ->
  ushr32 (crc32 buffer) 0 = crcBitwise buffer.
Proof.
  intros Hb. rewrite ushr32_0. fold (toUint32 (crc32 buffer)).
  unfold crc32, crcBitwise. rewrite toUint32_xor32, crc_loop by exact Hb.
  reflexivity.
Qed.

Lemma crc32_is_bitwise_crc_witness :
  Forall isByte (bufferFrom "IEND")
  /\ ushr32 (crc32 (bufferFrom "IEND")) 0 = crcBitwise (bufferFrom "IEND").
Proof.
  assert (H : Forall isByte (bufferFrom "IEND"))
    by (repeat (apply Forall_cons; [unfold isByte; cbn; lia|]);
        apply Forall_nil).
  split; [exact H | apply (@crc32_is_bitwise_crc (bufferFrom "IEND") H)].
Defined.

End IconsExtras.
